(** * Demolito: board state, incremental move application and position keys

    A shallow embedding of [src/types.c] (coordinate utilities) and
    [src/position.cc] (the [Position] class: [occupied], [get], [get_RQ],
    [get_BQ], [clear], [set], [set_pos], [piece_on], [color_on], [play],
    [key_ok], [print]), and a model of the search
    info aggregator declared in [src/uci.h], with the properties of the
    design document checked against these definitions.

    The first half of the file holds the definitions: the code, then the
    predicates and the abstractions the statements need.  The second half
    holds the lemmas and theorems: first the properties of the design
    document, then further properties of the code.

    Conventions.
    - A C [int] is a [Z]; where the source can leave the range of a 32-bit
      [int] (the [rule50++] of [play], the running square of [set_pos]) the
      wrap-around is written out with [wrap32].
    - A [bitboard_t] / [uint64_t] is a [Z] in [[0, 2^64)]; [~] and [<<] are
      [not64] and [shl64], which truncate to 64 bits.
    - [assert]s are compiled out (release build): the functions are total, and
      the asserted conditions appear as hypotheses of the theorems. *)

From Stdlib Require Import ZArith List Lia Bool Btauto Ascii String.
From Stdlib Require Import DecimalString DecimalZ.
From stdpp Require Import base gmap.

Local Open Scope Z_scope.
Local Open Scope bool_scope.

(** ** Constants of [types.h] *)

(** Modelled from the spec: the constants of [types.h], which is not part of
    the sources.  The design document has two sides, six piece kinds and 64
    squares; the values are the ones the code under [src/] fixes by how it
    uses them: [opposite] is [color ^ BLACK], colours and pieces index arrays
    from [0], [square_from] is [NB_FILE * rank + file], [relative_rank] is
    [rank ^ (7 * color)], [set_pos] starts at [A8], steps back [16] squares
    at a [/] and takes [RANK_8 * color] for the back rank of a colour, and
    [piece_on] tests [PAWN] first and then the pieces "in ascending order
    (Q & K are the rarest, at the end)". *)
Definition WHITE : Z := 0.
Definition BLACK : Z := 1.
Definition NB_COLOR : Z := 2.

Definition KNIGHT : Z := 0.
Definition BISHOP : Z := 1.
Definition ROOK : Z := 2.
Definition QUEEN : Z := 3.
Definition KING : Z := 4.
Definition PAWN : Z := 5.
Definition NB_PIECE : Z := 6.

Definition NB_RANK : Z := 8.
Definition NB_FILE : Z := 8.
Definition NB_SQUARE : Z := 64.

Definition RANK_1 : Z := 0.
Definition RANK_8 : Z := 7.
Definition FILE_A : Z := 0.
Definition FILE_C : Z := 2.
Definition FILE_D : Z := 3.
Definition FILE_F : Z := 5.
Definition FILE_G : Z := 6.
Definition FILE_H : Z := 7.
Definition A8 : Z := 56.

Definition UP : Z := 8.
Definition DOWN : Z := -8.

(** Modelled from the spec: the macro [BOUNDS(v, ub)] and the predicates
    [color_ok], [piece_ok] and [square_ok] of the header, which guard
    "out-of-range side/kind/square values": [0 <= v < ub]. *)
Definition BOUNDS (v ub : Z) : bool := (0 <=? v) && (v <? ub).
Definition color_ok (c : Z) : bool := BOUNDS c NB_COLOR.
Definition piece_ok (p : Z) : bool := BOUNDS p NB_PIECE.
Definition square_ok (s : Z) : bool := BOUNDS s NB_SQUARE.

(** ** Machine integers *)

(** A value brought into the range of a 32-bit [int], the bounds of that
    range, and the 64-bit complement and left shift. *)
Definition wrap32 (x : Z) : Z := (x + 2 ^ 31) mod 2 ^ 32 - 2 ^ 31.
Definition INT_MAX : Z := 2 ^ 31 - 1.
Definition INT_MIN : Z := - 2 ^ 31.

Definition mask64 : Z := Z.ones 64.
Definition not64 (x : Z) : Z := Z.land (Z.lnot x) mask64.
Definition shl64 (x n : Z) : Z := Z.land (Z.shiftl x n) mask64.

(** ** [types.c] *)

(** [int opposite(int color)]: [color ^ BLACK].  [position.cc] calls it
    [opp_color]. *)
Definition opposite (color : Z) : Z := Z.lxor color BLACK.

(** [int push_inc(int color)]: [PushInc[color]] with
    [PushInc = {UP, DOWN}]. *)
Definition PushInc : list Z := [UP; DOWN].
Definition push_inc (color : Z) : Z := nth (Z.to_nat color) PushInc 0.

(** [int square_from(int rank, int file)].  [position.cc] calls it
    [square]. *)
Definition square_from (rank file : Z) : Z := NB_FILE * rank + file.

(** [int rank_of(int square)]: C division truncates, hence [Z.quot]. *)
Definition rank_of (square : Z) : Z := Z.quot square NB_FILE.

(** [int file_of(int square)]: C remainder, hence [Z.rem]. *)
Definition file_of (square : Z) : Z := Z.rem square NB_FILE.

Definition relative_rank (color rank : Z) : Z := Z.lxor rank (7 * color).
Definition relative_rank_of (color square : Z) : Z :=
  relative_rank color (rank_of square).

(** ** Bitboard primitives ([bitboard.h], namespace [bb])

    [bitboard.h] is not part of the sources.  The design document treats the
    bit-set primitives as given ("one bit per occupied square",
    "least-significant-bit extraction"); they are modelled by their names. *)

(** Modelled from the spec: [bb::test(b, sq)], missing from the sources,
    reads the bit of square [sq]. *)
Definition bb_test (b sq : Z) : bool := Z.testbit b sq.

(** Modelled from the spec: [bb::set(b, sq)], missing from the sources,
    switches the bit of square [sq] on. *)
Definition bb_set (b sq : Z) : Z := Z.lor b (shl64 1 sq).

(** Modelled from the spec: [bb::clear(b, sq)], missing from the sources,
    switches the bit of square [sq] off. *)
Definition bb_clear (b sq : Z) : Z := Z.land b (not64 (shl64 1 sq)).

(** Modelled from the spec: [bb::rank(r)], missing from the sources, is the
    eight squares of rank [r]. *)
Definition bb_rank (r : Z) : Z := shl64 255 (NB_FILE * r).

(** Modelled from the spec: [bb::pop_lsb(b)], missing from the sources,
    returns the index of the least significant bit of [b] and removes that
    bit from [b]; the index is found by scanning up from square 0. *)
Fixpoint lsb_scan (n : nat) (i : Z) (b : Z) : Z :=
  match n with
  | O => i
  | S n' => if Z.testbit b i then i else lsb_scan n' (i + 1) b
  end.
Definition bb_lsb (b : Z) : Z := lsb_scan 64 0 b.
Definition bb_pop_lsb (b : Z) : Z * Z := (bb_lsb b, bb_clear b (bb_lsb b)).

(** ** The Zobrist key service ([zobrist.h], namespace [zobrist]) *)

(** The header and its tables are not part of the sources: the four
    functions that [play], [set_pos] and [key_ok] call are parameters of
    everything below. *)
Class Zobrist := {
  zobrist_key : Z -> Z -> Z -> Z;       (* zobrist::key(color, piece, sq) *)
  zobrist_turn : Z;                     (* zobrist::turn() *)
  zobrist_ep : Z -> Z;                  (* zobrist::ep(sq) *)
  zobrist_castling : Z -> Z             (* zobrist::castling(rooks) *)
}.

(** ** [Position] and [Move] *)

(** Modelled from the spec: the data members of [Position] ([position.h] is
    not part of the sources), as the data model of the design document lists
    them and [position.cc] reads and writes them.  [byColor] and [byPiece]
    are C arrays of [NB_COLOR] and [NB_PIECE] bitboards; they are lists, read
    with [arr] and updated in place with [arr_upd] (an index beyond the
    array, undefined in C, reads [0] and writes nothing). *)
Record Position := mkPosition {
  byColor : list Z;
  byPiece : list Z;
  castlableRooks : Z;
  key : Z;
  turn : Z;
  epSquare : Z;
  rule50 : Z
}.

(** Modelled from the spec: a move ([move.h] is not part of the sources):
    origin square, destination square and promotion piece, the members
    [play] reads. *)
Record Move := mkMove {
  fsq : Z;
  tsq : Z;
  prom : Z
}.

(** [a[i]] and [a[i] = f(a[i])]. *)
Definition arr (a : list Z) (i : Z) : Z := nth (Z.to_nat i) a 0.
Definition arr_upd (a : list Z) (i : Z) (f : Z -> Z) : list Z :=
  alter f (Z.to_nat i) a.

(** Modelled from the spec: the accessor [get_epsq()] of [position.h]
    returns "the square a pawn may capture onto en passant", the member
    [epSquare]. *)
Definition get_epsq (P : Position) : Z := epSquare P.

(** Assignment to one member. *)
Definition with_castlableRooks (v : Z) (P : Position) : Position :=
  mkPosition (byColor P) (byPiece P) v (key P) (turn P) (epSquare P) (rule50 P).
Definition with_key (v : Z) (P : Position) : Position :=
  mkPosition (byColor P) (byPiece P) (castlableRooks P) v (turn P) (epSquare P) (rule50 P).
Definition with_turn (v : Z) (P : Position) : Position :=
  mkPosition (byColor P) (byPiece P) (castlableRooks P) (key P) v (epSquare P) (rule50 P).
Definition with_epSquare (v : Z) (P : Position) : Position :=
  mkPosition (byColor P) (byPiece P) (castlableRooks P) (key P) (turn P) v (rule50 P).
Definition with_rule50 (v : Z) (P : Position) : Position :=
  mkPosition (byColor P) (byPiece P) (castlableRooks P) (key P) (turn P) (epSquare P) v.

(** [Position::occupied]. *)
Definition occupied (P : Position) : Z :=
  Z.lor (arr (byColor P) WHITE) (arr (byColor P) BLACK).

(** [Position::get], [get_RQ], [get_BQ]. *)
Definition get (P : Position) (color piece : Z) : Z :=
  Z.land (arr (byColor P) color) (arr (byPiece P) piece).
Definition get_RQ (P : Position) (color : Z) : Z :=
  Z.land (arr (byColor P) color) (Z.lor (arr (byPiece P) ROOK) (arr (byPiece P) QUEEN)).
Definition get_BQ (P : Position) (color : Z) : Z :=
  Z.land (arr (byColor P) color) (Z.lor (arr (byPiece P) BISHOP) (arr (byPiece P) QUEEN)).

(** [Position::color_on]. *)
Definition color_on (P : Position) (sq : Z) : Z :=
  if bb_test (arr (byColor P) WHITE) sq then WHITE else BLACK.

(** [Position::piece_on]: pawns first, then [for (piece = 0; piece <
    NB_PIECE; piece++)].  Where the source ends in [assert(false)] (no piece
    on the square) the model returns [NB_PIECE]. *)
Definition all_colors : list Z := [WHITE; BLACK].
Definition all_pieces : list Z := [KNIGHT; BISHOP; ROOK; QUEEN; KING; PAWN].

Fixpoint piece_scan (P : Position) (sq : Z) (pieces : list Z) : Z :=
  match pieces with
  | [] => NB_PIECE
  | piece :: rest =>
      if bb_test (arr (byPiece P) piece) sq then piece
      else piece_scan P sq rest
  end.

Definition piece_on (P : Position) (sq : Z) : Z :=
  if bb_test (arr (byPiece P) PAWN) sq then PAWN
  else piece_scan P sq all_pieces.

(** [Position::clear()]: a [memset] of the whole object to zero. *)
Definition clear_all : Position :=
  mkPosition [0; 0] [0; 0; 0; 0; 0; 0] 0 0 0 0 0.

Section WithZobrist.
Context {ZS : Zobrist}.

(** [Position::clear(color, piece, sq)]. *)
Definition clear (color piece sq : Z) (P : Position) : Position :=
  mkPosition
    (arr_upd (byColor P) color (fun b => bb_clear b sq))
    (arr_upd (byPiece P) piece (fun b => bb_clear b sq))
    (castlableRooks P)
    (Z.lxor (key P) (zobrist_key color piece sq))
    (turn P) (epSquare P) (rule50 P).

(** [Position::set(color, piece, sq)]. *)
Definition set (color piece sq : Z) (P : Position) : Position :=
  mkPosition
    (arr_upd (byColor P) color (fun b => bb_set b sq))
    (arr_upd (byPiece P) piece (fun b => bb_set b sq))
    (castlableRooks P)
    (Z.lxor (key P) (zobrist_key color piece sq))
    (turn P) (epSquare P) (rule50 P).

(** [Position::key_ok]: the key recomputed from the board and the turn.
    The inner [while (b) k ^= zobrist::key(color, piece, bb::pop_lsb(b))]
    runs on fuel; a bitboard has at most 64 bits to pop. *)
Fixpoint key_squares (fuel : nat) (color piece b k : Z) : Z :=
  match fuel with
  | O => k
  | S fuel' =>
      if b =? 0 then k
      else
        let '(sq, b') := bb_pop_lsb b in
        key_squares fuel' color piece b' (Z.lxor k (zobrist_key color piece sq))
  end.

Definition key_pieces (P : Position) (color : Z) (k : Z) : Z :=
  fold_left (fun k piece => key_squares 64 color piece (get P color piece) k)
            all_pieces k.

Definition key_board (P : Position) : Z :=
  fold_left (fun k color => key_pieces P color k) all_colors 0.

Definition key_scratch (P : Position) : Z :=
  let k := key_board P in
  if turn P =? BLACK then Z.lxor k zobrist_turn else k.

Definition key_ok (P : Position) : bool := key_scratch P =? key P.

(** ** [Position::play]

    The body of [play] is split at its comments: the capture block, the
    pawn branch and the non-pawn branch are functions of their own, called
    in [play] in the order of the source. *)

(** "Capture piece on to square (if any)". *)
Definition play_capture (capture : Z) (m : Move) (P : Position) : Position :=
  if capture =? NB_PIECE then P
  else
    let P := with_rule50 0 P in
    let P := clear (color_on P (tsq m)) capture (tsq m) P in
    if capture =? ROOK
    then with_castlableRooks
           (Z.land (castlableRooks P) (not64 (shl64 1 (tsq m)))) P
    else P.

(** [if (piece == PAWN) { ... }]: "reset rule50, and set epsq", then
    "handle ep-capture and promotion". *)
Definition play_pawn (before : Position) (us them piece : Z) (m : Move)
    (P : Position) : Position :=
  let push := push_inc us in
  let P := with_rule50 0 P in
  let P := with_epSquare
             (if tsq m =? fsq m + 2 * push then fsq m + push else NB_SQUARE) P in
  if tsq m =? get_epsq before then clear them piece (tsq m - push) P
  else if (rank_of (tsq m) =? RANK_8) || (rank_of (tsq m) =? RANK_1) then
    let P := clear us piece (tsq m) P in
    set us (prom m) (tsq m) P
  else P.

(** [else { ... }]: rook and king moves, castling encoded as king takes own
    rook. *)
Definition play_piece (before : Position) (us piece : Z) (m : Move)
    (P : Position) : Position :=
  let P := with_epSquare NB_SQUARE P in
  if piece =? ROOK then
    with_castlableRooks (Z.land (castlableRooks P) (not64 (shl64 1 (fsq m)))) P
  else if piece =? KING then
    let P := with_castlableRooks
               (Z.land (castlableRooks P) (not64 (bb_rank (us * RANK_8)))) P in
    if bb_test (arr (byColor before) us) (tsq m) then
      let r := rank_of (fsq m) in
      let ksq := if fsq m <? tsq m then square_from r FILE_G
                 else square_from r FILE_C in
      let rsq := if fsq m <? tsq m then square_from r FILE_F
                 else square_from r FILE_D in
      let P := clear us KING (tsq m) P in
      let P := set us KING ksq P in
      set us ROOK rsq P
    else P
  else P.

(** The end of [play]: the turn and the key. *)
Definition play_finish (before : Position) (them : Z) (P : Position) : Position :=
  let P := with_turn them P in
  let P := with_key (Z.lxor (key P) zobrist_turn) P in
  let P := with_key
             (Z.lxor (key P)
                (Z.lxor (zobrist_ep (get_epsq before)) (zobrist_ep (epSquare P)))) P in
  with_key
    (Z.lxor (key P)
       (zobrist_castling (Z.lxor (castlableRooks before) (castlableRooks P)))) P.

(** The position after [rule50++] and the capture block. *)
Definition play_captured (before : Position) (m : Move) : Position :=
  let P := before in
  let P := with_rule50 (wrap32 (rule50 P + 1)) P in
  let capture := if bb_test (occupied P) (tsq m) then piece_on P (tsq m)
                 else NB_PIECE in
  play_capture capture m P.

(** [void Position::play(const Position& before, Move m)], for a [this]
    that is not [before]: the new value of [*this]. *)
Definition play (before : Position) (m : Move) : Position :=
  let P := before in
  let P := with_rule50 (wrap32 (rule50 P + 1)) P in
  let us := turn P in
  let them := opposite us in
  let piece := piece_on P (fsq m) in
  let capture := if bb_test (occupied P) (tsq m) then piece_on P (tsq m)
                 else NB_PIECE in
  let P := play_capture capture m P in
  let P := clear us piece (fsq m) P in
  let P := set us piece (tsq m) P in
  let P := if piece =? PAWN then play_pawn before us them piece m P
           else play_piece before us piece m P in
  play_finish before them P.

(** ** [Position::set_pos]

    The description is read through a [std::istringstream]: the stream [is]
    is the list [inp] of characters not yet read, [is >> s] skips white space and
    takes the characters up to the next white space, and leaves [s] as it
    was when nothing is left to read. *)

Definition code (c : ascii) : Z := Z.of_N (N_of_ascii c).

Definition isspace (c : ascii) : bool :=
  (code c =? 32) || ((9 <=? code c) && (code c <=? 13)).
Definition isdigit (c : ascii) : bool := (48 <=? code c) && (code c <=? 57).
Definition isupper (c : ascii) : bool := (65 <=? code c) && (code c <=? 90).
Definition islower (c : ascii) : bool := (97 <=? code c) && (code c <=? 122).
Definition toupper (c : ascii) : ascii :=
  if islower c then ascii_of_N (Z.to_N (code c - 32)) else c.

Fixpoint skip_ws (cs : list ascii) : list ascii :=
  match cs with
  | c :: rest => if isspace c then skip_ws rest else cs
  | [] => []
  end.

Fixpoint take_word (cs : list ascii) : list ascii * list ascii :=
  match cs with
  | c :: rest =>
      if isspace c then ([], cs)
      else let '(w, rest') := take_word rest in (c :: w, rest')
  | [] => ([], [])
  end.

(** [is >> s]: the new [s] and the rest of the stream. *)
Definition read_word (s : list ascii) (inp : list ascii)
    : list ascii * list ascii :=
  match skip_ws inp with
  | [] => (s, [])
  | cs => take_word cs
  end.

Fixpoint take_digits (cs : list ascii) : list ascii :=
  match cs with
  | c :: rest => if isdigit c then c :: take_digits rest else []
  | [] => []
  end.

Definition digits_value (ds : list ascii) : Z :=
  fold_left (fun v c => 10 * v + (code c - 48)) ds 0.

(** [is >> rule50] for an [int]: optional sign, decimal digits; no digit
    gives [0], a value out of range the nearest bound. *)
Definition read_int (inp : list ascii) : Z :=
  let cs := skip_ws inp in
  let '(neg, cs) :=
    match cs with
    | c :: rest =>
        if code c =? 45 then (true, rest)
        else if code c =? 43 then (false, rest)
        else (false, cs)
    | [] => (false, cs)
    end in
  match take_digits cs with
  | [] => 0
  | ds =>
      let v := if neg then - digits_value ds else digits_value ds in
      Z.max INT_MIN (Z.min INT_MAX v)
  end.

(** Modelled from the spec: [PieceLabel[color]], declared in a header that
    is not part of the sources: "letters as pieces with case denoting side",
    in the order of the piece constants, upper case for white. *)
Definition PieceLabel (color : Z) : list ascii :=
  if color =? WHITE then list_ascii_of_string "NBRQKP"
  else list_ascii_of_string "nbrqkp".

(** [std::string::find(c)] converted to [int]: the first index of [c], or
    [-1]. *)
Fixpoint find_from (i : Z) (s : list ascii) (c : ascii) : Z :=
  match s with
  | [] => -1
  | d :: rest => if code d =? code c then i else find_from (i + 1) rest c
  end.
Definition find (s : list ascii) (c : ascii) : Z := find_from 0 s c.

(** One character of the piece placement. *)
Definition place_piece (c : ascii) (st : Position * Z) (color : Z)
    : Position * Z :=
  let '(P, sq) := st in
  let piece := find (PieceLabel color) c in
  if piece_ok piece then (set color piece sq P, wrap32 (sq + 1))
  else (P, sq).

Definition place_char (st : Position * Z) (c : ascii) : Position * Z :=
  let '(P, sq) := st in
  if isdigit c then (P, wrap32 (sq + (code c - 48)))
  else if code c =? 47 then (P, wrap32 (sq - 16))
  else fold_left (place_piece c) all_colors (P, sq).

(** One character of the castling rights.  [sq] is the variable of the
    placement loop: a character that is none of [K], [Q], [A]..[H] leaves it
    as it is, and [bb::set(castlableRooks, sq)] runs all the same. *)
Definition castle_char (st : Position * Z) (c : ascii) : Position * Z :=
  let '(P, sq) := st in
  let color := if isupper c then WHITE else BLACK in
  let r := RANK_8 * color in
  let c := toupper c in
  let sq := if code c =? 75 then square_from r FILE_H
            else if code c =? 81 then square_from r FILE_A
            else if (65 <=? code c) && (code c <=? 72)
                 then square_from r (code c - 65)
            else sq in
  (with_castlableRooks (bb_set (castlableRooks P) sq) P, sq).

Definition char_at (s : list ascii) (i : nat) : ascii := nth i s zero.

Definition set_pos (fen : string) : Position :=
  let P := clear_all in
  let inp := list_ascii_of_string fen in
  let s := [] in
  (* Piece placement *)
  let '(s, inp) := read_word s inp in
  let '(P, sq) := fold_left place_char s (P, A8) in
  (* Turn of play *)
  let '(s, inp) := read_word s inp in
  let P := if (length s =? 1)%nat && (code (char_at s 0) =? 119)
           then with_turn WHITE P
           else with_key (Z.lxor (key P) zobrist_turn) (with_turn BLACK P) in
  (* Castling rights *)
  let '(s, inp) := read_word s inp in
  let '(P, sq) := fold_left castle_char s (P, sq) in
  (* En passant square *)
  let '(s, inp) := read_word s inp in
  let P := with_epSquare
             (if (length s =? 1)%nat && (code (char_at s 0) =? 45)
              then NB_SQUARE
              else square_from (code (char_at s 1) - 49)
                               (code (char_at s 0) - 97)) P in
  (* 50-move counter *)
  with_rule50 (read_int inp) P.

(** ** [play] on objects

    [play] is a member function: it writes [*this] and reads [before]
    through a reference, statement by statement.  Objects live in a store
    from addresses to [Position] values; [stmt this before f] is one
    statement, which gives [*this] the value [f] of the current [*this] and
    the current [before].  Nothing here assumes the two addresses differ. *)

Definition stmt (this before : nat) (f : Position -> Position -> Position)
    (h : gmap nat Position) : option (gmap nat Position) :=
  t ← h !! this;
  b ← h !! before;
  Some (<[this := f t b]> h).

Definition play_capture_obj (this before : nat) (capture : Z) (m : Move)
    (h : gmap nat Position) : option (gmap nat Position) :=
  if capture =? NB_PIECE then Some h
  else
    h ← stmt this before (fun t _ => with_rule50 0 t) h;
    h ← stmt this before (fun t _ => clear (color_on t (tsq m)) capture (tsq m) t) h;
    if capture =? ROOK
    then stmt this before
           (fun t _ => with_castlableRooks
                         (Z.land (castlableRooks t) (not64 (shl64 1 (tsq m)))) t) h
    else Some h.

Definition play_pawn_obj (this before : nat) (us them piece : Z) (m : Move)
    (h : gmap nat Position) : option (gmap nat Position) :=
  let push := push_inc us in
  h ← stmt this before (fun t _ => with_rule50 0 t) h;
  h ← stmt this before
        (fun t _ => with_epSquare
                      (if tsq m =? fsq m + 2 * push then fsq m + push
                       else NB_SQUARE) t) h;
  b ← h !! before;
  if tsq m =? get_epsq b
  then stmt this before (fun t _ => clear them piece (tsq m - push) t) h
  else if (rank_of (tsq m) =? RANK_8) || (rank_of (tsq m) =? RANK_1) then
    h ← stmt this before (fun t _ => clear us piece (tsq m) t) h;
    stmt this before (fun t _ => set us (prom m) (tsq m) t) h
  else Some h.

Definition play_piece_obj (this before : nat) (us piece : Z) (m : Move)
    (h : gmap nat Position) : option (gmap nat Position) :=
  h ← stmt this before (fun t _ => with_epSquare NB_SQUARE t) h;
  if piece =? ROOK then
    stmt this before
      (fun t _ => with_castlableRooks
                    (Z.land (castlableRooks t) (not64 (shl64 1 (fsq m)))) t) h
  else if piece =? KING then
    h ← stmt this before
          (fun t _ => with_castlableRooks
                        (Z.land (castlableRooks t)
                                (not64 (bb_rank (us * RANK_8)))) t) h;
    b ← h !! before;
    if bb_test (arr (byColor b) us) (tsq m) then
      let r := rank_of (fsq m) in
      let ksq := if fsq m <? tsq m then square_from r FILE_G
                 else square_from r FILE_C in
      let rsq := if fsq m <? tsq m then square_from r FILE_F
                 else square_from r FILE_D in
      h ← stmt this before (fun t _ => clear us KING (tsq m) t) h;
      h ← stmt this before (fun t _ => set us KING ksq t) h;
      stmt this before (fun t _ => set us ROOK rsq t) h
    else Some h
  else Some h.

Definition play_obj (this before : nat) (m : Move) (h : gmap nat Position)
    : option (gmap nat Position) :=
  h ← stmt this before (fun _ b => b) h;
  h ← stmt this before (fun t _ => with_rule50 (wrap32 (rule50 t + 1)) t) h;
  t ← h !! this;
  let us := turn t in
  let them := opposite us in
  let piece := piece_on t (fsq m) in
  let capture := if bb_test (occupied t) (tsq m) then piece_on t (tsq m)
                 else NB_PIECE in
  h ← play_capture_obj this before capture m h;
  h ← stmt this before (fun t _ => clear us piece (fsq m) t) h;
  h ← stmt this before (fun t _ => set us piece (tsq m) t) h;
  h ← (if piece =? PAWN then play_pawn_obj this before us them piece m h
       else play_piece_obj this before us piece m h);
  h ← stmt this before (fun t _ => with_turn them t) h;
  h ← stmt this before (fun t _ => with_key (Z.lxor (key t) zobrist_turn) t) h;
  h ← stmt this before
        (fun t b => with_key
                      (Z.lxor (key t)
                         (Z.lxor (zobrist_ep (get_epsq b))
                                 (zobrist_ep (epSquare t)))) t) h;
  stmt this before
    (fun t b => with_key
                  (Z.lxor (key t)
                     (zobrist_castling
                        (Z.lxor (castlableRooks b) (castlableRooks t)))) t) h.

End WithZobrist.

(** * Well-formed positions, descriptions and moves

    What the design document calls a valid position, a well-formed
    description and a legal move, as decidable predicates. *)

Definition bb_ok (b : Z) : bool := (0 <=? b) && (b <? 2 ^ 64).

Definition squares : list Z := map Z.of_nat (seq 0 64).

Definition color_bit (P : Position) (c s : Z) : bool :=
  bb_test (arr (byColor P) c) s.
Definition piece_bit (P : Position) (p s : Z) : bool :=
  bb_test (arr (byPiece P) p) s.

Definition count_true (bs : list bool) : nat :=
  fold_right (fun (b : bool) n => if b then S n else n) O bs.

(** On square [s], as many colour bits as piece bits, and at most one. *)
Definition cell_ok (P : Position) (s : Z) : bool :=
  let nc := count_true (map (fun c => color_bit P c s) all_colors) in
  let np := count_true (map (fun p => piece_bit P p s) all_pieces) in
  (nc =? np)%nat && (nc <=? 1)%nat.

Definition board_ok (P : Position) : bool :=
  (length (byColor P) =? 2)%nat && (length (byPiece P) =? 6)%nat
  && forallb bb_ok (byColor P) && forallb bb_ok (byPiece P)
  && forallb (cell_ok P) squares.

Definition pos_ok (P : Position) : bool :=
  board_ok P && color_ok (turn P) && bb_ok (castlableRooks P).

(** The board as a function from squares to the man standing there. *)
Definition piece_at (P : Position) (s : Z) : option (Z * Z) :=
  if bb_test (occupied P) s then Some (color_on P s, piece_on P s) else None.

(** The squares the king and the rook land on when castling. *)
Definition castle_ksq (m : Move) : Z :=
  if fsq m <? tsq m then square_from (rank_of (fsq m)) FILE_G
  else square_from (rank_of (fsq m)) FILE_C.
Definition castle_rsq (m : Move) : Z :=
  if fsq m <? tsq m then square_from (rank_of (fsq m)) FILE_F
  else square_from (rank_of (fsq m)) FILE_D.

Definition vacant_for_castling (P : Position) (m : Move) (s : Z) : bool :=
  (s =? fsq m) || (s =? tsq m) || negb (bb_test (occupied P) s).

(** The part of legality [play] relies on (move generation is not part of
    the sources): the move starts on a man of the side to move; it lands on
    one of its own men only as king takes rook, the castling encoding, with
    the landing squares of king and rook free; a pawn that lands on the
    en-passant square finds it empty and the enemy pawn behind it; a pawn that
    reaches a back rank promotes to knight, bishop, rook or queen.  Every
    legal move of chess has these properties, so what holds for all such
    moves holds for all legal moves. *)
Definition move_ok (P : Position) (m : Move) : bool :=
  let us := turn P in
  let them := opposite us in
  let piece := piece_on P (fsq m) in
  square_ok (fsq m) && square_ok (tsq m) && negb (fsq m =? tsq m)
  && color_bit P us (fsq m)
  && (if color_bit P us (tsq m)
      then (piece =? KING) && (piece_on P (tsq m) =? ROOK)
           && vacant_for_castling P m (castle_ksq m)
           && vacant_for_castling P m (castle_rsq m)
      else true)
  && (if piece =? PAWN
      then if tsq m =? get_epsq P
           then negb (bb_test (occupied P) (tsq m))
                && bb_test (get P them PAWN) (tsq m - push_inc us)
           else if (rank_of (tsq m) =? RANK_8) || (rank_of (tsq m) =? RANK_1)
                then (0 <=? prom m) && (prom m <=? QUEEN)
                else true
      else true).

(** A well-formed description: eight ranks of eight squares, from rank 8
    down, made of piece letters and digits and separated by [/]; the turn
    [w] or [b]; castling rights; an en-passant square or [-]; a counter. *)
Definition is_piece_letter (c : ascii) : bool :=
  piece_ok (find (PieceLabel WHITE) c) || piece_ok (find (PieceLabel BLACK) c).

Fixpoint placement_ok (cs : list ascii) (r f : Z) : bool :=
  match cs with
  | [] => (r =? 0) && (f =? 8)
  | c :: rest =>
      if isdigit c then
        (1 <=? code c - 48) && (f + (code c - 48) <=? 8)
        && placement_ok rest r (f + (code c - 48))
      else if code c =? 47 then
        (f =? 8) && (1 <=? r) && placement_ok rest (r - 1) 0
      else
        is_piece_letter c && (f <? 8) && placement_ok rest r (f + 1)
  end.

Definition is_char (s : list ascii) (n : Z) : bool :=
  (length s =? 1)%nat && (code (char_at s 0) =? n).

Definition turn_ok (s : list ascii) : bool := is_char s 119 || is_char s 98.

Definition castling_letter (c : ascii) : bool :=
  let u := code (toupper c) in
  (u =? 75) || (u =? 81) || ((65 <=? u) && (u <=? 72)).

Definition castling_ok (s : list ascii) : bool :=
  is_char s 45 || (negb (length s =? 0)%nat && forallb castling_letter s).

Definition ep_ok (s : list ascii) : bool :=
  is_char s 45
  || ((length s =? 2)%nat
      && (97 <=? code (char_at s 0)) && (code (char_at s 0) <=? 104)
      && (49 <=? code (char_at s 1)) && (code (char_at s 1) <=? 56)).

Definition counter_ok (s : list ascii) : bool :=
  negb (length s =? 0)%nat && (length s <=? 9)%nat && forallb isdigit s.

Definition fen_ok (fen : string) : bool :=
  let inp := list_ascii_of_string fen in
  let '(s1, inp) := read_word [] inp in
  let '(s2, inp) := read_word [] inp in
  let '(s3, inp) := read_word [] inp in
  let '(s4, inp) := read_word [] inp in
  let '(s5, inp) := read_word [] inp in
  placement_ok s1 7 0 && turn_ok s2 && castling_ok s3 && ep_ok s4
  && counter_ok s5.

(** The exclusive or of [f s] over the squares [s] of a bitboard, and the
    number of its squares. *)
Definition xor_list (l : list Z) : Z := fold_right Z.lxor 0 l.
Definition bit_term (f : Z -> Z) (b : Z) (s : Z) : Z :=
  if Z.testbit b s then f s else 0.
Definition xor_bits (f : Z -> Z) (b : Z) : Z :=
  xor_list (map (bit_term f b) squares).
Definition popcount (b : Z) : nat :=
  length (List.filter (Z.testbit b) squares).

(** The key recomputed with the en-passant and castling terms, as the data
    model of the design document describes it. *)
Definition key_full `{Zobrist} (P : Position) : Z :=
  Z.lxor (Z.lxor (key_scratch P) (zobrist_ep (epSquare P)))
         (zobrist_castling (castlableRooks P)).

(** Positions reached from a well-formed description by moves [play]
    accepts. *)
Inductive reachable `{Zobrist} : Position -> Prop :=
  | reach_set_pos (fen : string) :
      fen_ok fen = true -> reachable (set_pos fen)
  | reach_play (P : Position) (m : Move) :
      reachable P -> move_ok P m = true -> reachable (play P m).

(** * The board as a function

    [repr v P]: the bitboards of [P] hold exactly the men of [v], a function
    from squares to (colour, piece). *)

Definition view : Type := Z -> option (Z * Z).

Definition upd (v : view) (sq : Z) (x : option (Z * Z)) : view :=
  fun s => if s =? sq then x else v s.

Definition view_color (v : view) (c s : Z) : bool :=
  match v s with Some (c', _) => c' =? c | None => false end.
Definition view_piece (v : view) (p s : Z) : bool :=
  match v s with Some (_, p') => p' =? p | None => false end.

Record repr (v : view) (P : Position) : Prop := mkRepr {
  repr_lenC : length (byColor P) = 2%nat;
  repr_lenP : length (byPiece P) = 6%nat;
  repr_okC : forall c, color_ok c = true -> bb_ok (arr (byColor P) c) = true;
  repr_okP : forall p, piece_ok p = true -> bb_ok (arr (byPiece P) p) = true;
  repr_dom : forall s c p, v s = Some (c, p) ->
             color_ok c = true /\ piece_ok p = true /\ square_ok s = true;
  repr_color : forall c s, color_ok c = true -> color_bit P c s = view_color v c s;
  repr_piece : forall p s, piece_ok p = true -> piece_bit P p s = view_piece v p s
}.

(** What a move does to the board function: the man on the origin goes
    to the destination (as the promotion piece when a pawn reaches a back
    rank); a pawn landing on the en-passant square also removes the pawn
    behind it; king takes own rook empties both squares and puts the king
    and the rook on their castling squares. *)
Definition play_view (P : Position) (m : Move) : view :=
  let v := piece_at P in
  let us := turn P in
  let piece := piece_on P (fsq m) in
  if piece =? PAWN then
    if tsq m =? get_epsq P then
      upd (upd (upd v (fsq m) None) (tsq m) (Some (us, PAWN)))
          (tsq m - push_inc us) None
    else if (rank_of (tsq m) =? RANK_8) || (rank_of (tsq m) =? RANK_1) then
      upd (upd v (fsq m) None) (tsq m) (Some (us, prom m))
    else
      upd (upd v (fsq m) None) (tsq m) (Some (us, PAWN))
  else if (piece =? KING) && color_bit P us (tsq m) then
    upd (upd (upd (upd v (fsq m) None) (tsq m) None)
             (castle_ksq m) (Some (us, KING)))
        (castle_rsq m) (Some (us, ROOK))
  else
    upd (upd v (fsq m) None) (tsq m) (Some (us, piece)).

(** The kinds of move the design document distinguishes. *)
Definition is_capture (P : Position) (m : Move) : bool :=
  bb_test (occupied P) (tsq m).
Definition is_pawn_move (P : Position) (m : Move) : bool :=
  piece_on P (fsq m) =? PAWN.
Definition is_double_push (P : Position) (m : Move) : bool :=
  is_pawn_move P m && (tsq m =? fsq m + 2 * push_inc (turn P)).

(** The same kinds of move in the words of the design document, read off
    the bitboards of the parent and not through [piece_on], [occupied] and
    [push_inc]: a pawn moves when the pawn bitboard holds the origin; the
    destination is occupied when the bitboard of one of the colours holds
    it; one rank forward is [NB_FILE] squares up the board for white and
    down for black; a two-square advance is a pawn move whose destination is
    two ranks forward of its origin. *)
Definition forward (color : Z) : Z :=
  if color =? WHITE then NB_FILE else - NB_FILE.
Definition pawn_moves (P : Position) (m : Move) : bool :=
  piece_bit P PAWN (fsq m).
Definition destination_occupied (P : Position) (m : Move) : bool :=
  color_bit P WHITE (tsq m) || color_bit P BLACK (tsq m).
Definition two_square_advance (P : Position) (m : Move) : bool :=
  pawn_moves P m && (tsq m =? fsq m + 2 * forward (turn P)).

(** [play] after its capture block: "Move our piece", the pawn or piece
    branch, and the end.  [play before m] is
    [play_after_capture before m (play_captured before m)]. *)
Definition play_after_capture `{Zobrist} (before : Position) (m : Move)
    (P : Position) : Position :=
  let us := turn before in
  let them := opposite us in
  let piece := piece_on before (fsq m) in
  let P := clear us piece (fsq m) P in
  let P := set us piece (tsq m) P in
  let P := if piece =? PAWN then play_pawn before us them piece m P
           else play_piece before us piece m P in
  play_finish before them P.

(** What the stored key has beyond the key of the men on the board, and
    beyond the key [key_ok] recomputes. *)
Definition key_delta `{Zobrist} (P : Position) : Z :=
  Z.lxor (key P) (key_board P).
Definition key_residual `{Zobrist} (P : Position) : Z :=
  Z.lxor (key P) (key_scratch P).

(** [hrepr v d P]: the board of [P] is [v] and its key is the key of the
    board, up to [d]. *)
Definition hrepr `{Zobrist} (v : view) (d : Z) (P : Position) : Prop :=
  repr v P /\ key_delta P = d.

(** The placement loop, from file [f] of rank [r]: the men placed so far
    stand on the ranks above [r] and on the files before [f] of rank [r]. *)
Definition placed_above (v : view) (r f : Z) : Prop :=
  forall s c p, v s = Some (c, p) ->
    8 * (r + 1) <= s \/ (8 * r <= s < 8 * r + f).

(** * A sample key service and sample positions

    Any tables will do for the key service; these are used where a
    statement is evaluated on a concrete position. *)

Definition mix (n : Z) : Z :=
  (6364136223846793005 * n + 1442695040888963407) mod 2 ^ 64.

Definition sample_zobrist : Zobrist := {|
  zobrist_key := fun c p s => mix (1 + s + 64 * (p + 6 * c));
  zobrist_turn := mix 999;
  zobrist_ep := fun s => if s =? NB_SQUARE then 0 else mix (1000 + s);
  zobrist_castling := xor_bits (fun s => mix (2000 + s))
|}.

Definition start_fen : string :=
  "rnbqkbnr/pppppppp/8/8/8/8/PPPPPPPP/RNBQKBNR w KQkq - 0 1".

Definition e2e4 : Move := mkMove 12 28 0.

Definition empty_fen : string := "8/8/8/8/8/8/8/8 w - - 0 1".
Definition g1f3 : Move := mkMove 6 21 0.

Definition castle_fen : string := "r3k2r/8/8/8/8/8/8/R3K2R w KQkq - 0 1".
Definition e1h1 : Move := mkMove 4 7 0.
Definition e1a1 : Move := mkMove 4 0 0.

Definition capture_fen : string :=
  "rnbqkbnr/ppp1pppp/8/3p4/4P3/8/PPPP1PPP/RNBQKBNR w KQkq d6 0 2".
Definition e4d5 : Move := mkMove 28 35 0.

Definition start_pos : Position := @set_pos sample_zobrist start_fen.
Definition castle_pos : Position := @set_pos sample_zobrist castle_fen.
Definition capture_pos : Position := @set_pos sample_zobrist capture_fen.

(** Two objects: the parent at address 0, a scratch object at address 1. *)
Definition two_objects : gmap nat Position :=
  <[1%nat := clear_all]> (<[0%nat := start_pos]> ∅).

(** * The search info aggregator ([uci.h], class [UCI::Info]) *)

(** Modelled from the spec: the member functions [clear], [update] and
    [print] of [UCI::Info].  Only the declaration of the class is part of the
    sources ([_pv], [_depth], [_score], [_nodes], [updated] and the mutex
    [m]); the bodies are not.  Following the design document, [update] takes
    the mutex, replaces the four fields one after the other, marks the holder
    as fresh and releases the mutex; [print] takes the same mutex, reads the
    four fields, emits them, clears the marker and releases the mutex.
    Threads are interleaved statement by statement; a thread that finds the
    mutex taken cannot step.  With [guarded = false] the mutex is ignored,
    which shows what it is for. *)
Module UCI.

Record Report := mkReport {
  r_depth : Z;
  r_score : Z;
  r_nodes : Z;
  r_pv : list Move
}.

Record Info := mkInfo {
  _pv : list Move;
  _depth : Z;
  _score : Z;
  _nodes : Z;
  updated : bool
}.

(** Modelled from the spec: [Info::clear], missing from the sources: an
    empty line, zero depth, score and node count, nothing fresh. *)
Definition clear : Info := mkInfo [] 0 0 0 false.

Definition contents (i : Info) : Report :=
  mkReport (_depth i) (_score i) (_nodes i) (_pv i).

(** Where a thread stands: outside the two functions, or before one of
    the statements of [update] or [print]. *)
Inductive pc : Type :=
  | Idle
  | UpdLock (r : Report)
  | UpdDepth (r : Report)
  | UpdScore (r : Report)
  | UpdNodes (r : Report)
  | UpdPv (r : Report)
  | UpdFlag (r : Report)
  | UpdUnlock
  | PrtLock
  | PrtDepth
  | PrtScore (d : Z)
  | PrtNodes (d s : Z)
  | PrtPv (d s n : Z)
  | PrtEmit (r : Report)
  | PrtFlag
  | PrtUnlock.

Definition holds_lock (p : pc) : bool :=
  match p with
  | Idle | UpdLock _ | PrtLock => false
  | _ => true
  end.

(** The shared object, the owner of its mutex, the threads, and two
    histories: the arguments of the calls of [update] so far, and what
    [print] has emitted so far. *)
Record State := mkState {
  info : Info;
  mutex : option nat;
  threads : nat -> pc;
  calls : list Report;
  printed : list Report
}.

Definition set_thread (t : nat) (p : pc) (th : nat -> pc) : nat -> pc :=
  fun t' => if Nat.eqb t' t then p else th t'.

Definition move_to (t : nat) (p : pc) (s : State) : State :=
  mkState (info s) (mutex s) (set_thread t p (threads s)) (calls s) (printed s).
Definition with_info (i : Info) (s : State) : State :=
  mkState i (mutex s) (threads s) (calls s) (printed s).
Definition with_mutex (o : option nat) (s : State) : State :=
  mkState (info s) o (threads s) (calls s) (printed s).

(** What an idle thread does next. *)
Inductive call : Type :=
  | CallUpdate (r : Report)
  | CallPrint.

(** Modelled from the spec: taking the mutex [m] ([std::mutex::lock]): a
    thread gets it only when no thread holds it. *)
Definition lock (guarded : bool) (t : nat) (s : State) : option State :=
  match mutex s with
  | Some _ => if guarded then None else Some (with_mutex (Some t) s)
  | None => Some (with_mutex (Some t) s)
  end.

(** Modelled from the spec: one statement of thread [t], in [update] or in
    [print] (their bodies are missing from the sources). *)
Definition thread_step (guarded : bool) (t : nat) (c : call) (s : State)
    : option State :=
  let i := info s in
  match threads s t with
  | Idle =>
      match c with
      | CallUpdate r =>
          Some (move_to t (UpdLock r)
                  (mkState i (mutex s) (threads s) (r :: calls s) (printed s)))
      | CallPrint => Some (move_to t PrtLock s)
      end
  | UpdLock r => move_to t (UpdDepth r) <$> lock guarded t s
  | UpdDepth r =>
      Some (move_to t (UpdScore r)
              (with_info (mkInfo (_pv i) (r_depth r) (_score i) (_nodes i) (updated i)) s))
  | UpdScore r =>
      Some (move_to t (UpdNodes r)
              (with_info (mkInfo (_pv i) (_depth i) (r_score r) (_nodes i) (updated i)) s))
  | UpdNodes r =>
      Some (move_to t (UpdPv r)
              (with_info (mkInfo (_pv i) (_depth i) (_score i) (r_nodes r) (updated i)) s))
  | UpdPv r =>
      Some (move_to t (UpdFlag r)
              (with_info (mkInfo (r_pv r) (_depth i) (_score i) (_nodes i) (updated i)) s))
  | UpdFlag r =>
      Some (move_to t UpdUnlock
              (with_info (mkInfo (_pv i) (_depth i) (_score i) (_nodes i) true) s))
  | UpdUnlock => Some (move_to t Idle (with_mutex None s))
  | PrtLock => move_to t PrtDepth <$> lock guarded t s
  | PrtDepth => Some (move_to t (PrtScore (_depth i)) s)
  | PrtScore d => Some (move_to t (PrtNodes d (_score i)) s)
  | PrtNodes d sc => Some (move_to t (PrtPv d sc (_nodes i)) s)
  | PrtPv d sc n => Some (move_to t (PrtEmit (mkReport d sc n (_pv i))) s)
  | PrtEmit r =>
      Some (move_to t PrtFlag
              (mkState i (mutex s) (threads s) (calls s) (r :: printed s)))
  | PrtFlag =>
      Some (move_to t PrtUnlock
              (with_info (mkInfo (_pv i) (_depth i) (_score i) (_nodes i) false) s))
  | PrtUnlock => Some (move_to t Idle (with_mutex None s))
  end.

Definition init : State := mkState clear None (fun _ => Idle) [] [].

(** The states of the executions. *)
Inductive run (guarded : bool) : State -> Prop :=
  | run_init : run guarded init
  | run_step (s s' : State) (t : nat) (c : call) :
      run guarded s -> thread_step guarded t c s = Some s' -> run guarded s'.

(** An execution under a given schedule. *)
Fixpoint run_schedule (guarded : bool) (sched : list (nat * call)) (s : State)
    : option State :=
  match sched with
  | [] => Some s
  | (t, c) :: rest =>
      match thread_step guarded t c s with
      | Some s' => run_schedule guarded rest s'
      | None => None
      end
  end.

(** A report is whole when it is what [clear] left or the argument of one
    call of [update]. *)
Definition whole (s : State) (r : Report) : Prop :=
  r = contents clear \/ In r (calls s).

(** What each thread knows at its statement. *)
Definition thread_ok (s : State) (p : pc) : Prop :=
  let i := info s in
  match p with
  | Idle | PrtLock => True
  | UpdLock r | UpdDepth r => In r (calls s)
  | UpdScore r => In r (calls s) /\ _depth i = r_depth r
  | UpdNodes r => In r (calls s) /\ _depth i = r_depth r /\ _score i = r_score r
  | UpdPv r =>
      In r (calls s) /\ _depth i = r_depth r /\ _score i = r_score r
      /\ _nodes i = r_nodes r
  | UpdFlag r => In r (calls s) /\ contents i = r
  | UpdUnlock | PrtDepth | PrtFlag | PrtUnlock => whole s (contents i)
  | PrtScore d => whole s (contents i) /\ d = _depth i
  | PrtNodes d sc => whole s (contents i) /\ d = _depth i /\ sc = _score i
  | PrtPv d sc n =>
      whole s (contents i) /\ d = _depth i /\ sc = _score i /\ n = _nodes i
  | PrtEmit r => whole s (contents i) /\ r = contents i
  end.

Record inv (s : State) : Prop := mkInv {
  inv_printed : forall r, In r (printed s) -> whole s r;
  inv_owner : forall t, holds_lock (threads s t) = true -> mutex s = Some t;
  inv_free : mutex s = None -> whole s (contents (info s));
  inv_threads : forall t, thread_ok s (threads s t)
}.

(** Two reports and schedules for two threads: thread 0 updates, thread 1
    prints afterwards; and, for the unguarded variant, a print that
    overlaps two updates. *)
Definition report1 : Report := mkReport 7 35 1200 [e2e4].
Definition report2 : Report := mkReport 8 (-20) 5100 [e4d5; e1h1].

Definition update_steps (t : nat) (r : Report) : list (nat * call) :=
  repeat (t, CallUpdate r) 8.
Definition print_steps (t : nat) : list (nat * call) :=
  repeat (t, CallPrint) 9.

Definition schedule_update_print : list (nat * call) :=
  update_steps 0 report1 ++ print_steps 1.

Definition schedule_torn : list (nat * call) :=
  update_steps 0 report1
  ++ repeat (1%nat, CallPrint) 3            (* print: lock, read depth *)
  ++ update_steps 0 report2                 (* a whole update in between *)
  ++ repeat (1%nat, CallPrint) 6.           (* print: the other fields *)

(** The state a schedule ends in (the initial state when the schedule asks
    a thread to step that cannot). *)
Definition final_state (guarded : bool) (sched : list (nat * call)) : State :=
  match run_schedule guarded sched init with
  | Some s => s
  | None => init
  end.

End UCI.

(** * Further definitions

    The rest of [position.cc] ([print]), and what the statements about
    [key_ok], [set_pos] and [play] in the last part of the file need. *)

(** The key of the man on a square, for the sum [key_ok] recomputes: the
    Zobrist key of (colour, piece, square) on an occupied square, [0] on an
    empty one. *)
Definition man_key `{Zobrist} (P : Position) (s : Z) : Z :=
  if bb_test (occupied P) s
  then zobrist_key (color_on P s) (piece_on P s) s
  else 0.

(** The fields of a description: [drop_words n] is the stream after [n]
    words have been read with [is >> s], [fen_field n] the next word. *)
Fixpoint drop_words (n : nat) (inp : list ascii) : list ascii :=
  match n with
  | O => inp
  | S n' => drop_words n' (snd (read_word [] inp))
  end.

Definition fen_field (n : nat) (fen : string) : list ascii :=
  fst (read_word [] (drop_words n (list_ascii_of_string fen))).

(** The square a letter of the castling field stands for, as the design
    document reads the field: the letter names a side (upper case for
    white, on the first rank; lower case for black, on the eighth) and a
    rook file, by the king-side or queen-side shorthand ([K] the h-file,
    [Q] the a-file) or by the letter of the file ([A]..[H]). *)
Definition castling_square (c : ascii) : Z :=
  square_from (if isupper c then RANK_1 else RANK_8)
              (if code (toupper c) =? 75 then FILE_H
               else if code (toupper c) =? 81 then FILE_A
               else code (toupper c) - 65).

(** The man a letter of the piece placement stands for, as the design
    document reads it ("letters as pieces with case denoting side"): upper
    case for white, and [N], [B], [R], [Q], [K], [P] for the six pieces. *)
Definition letter_man (c : ascii) : Z * Z :=
  (if isupper c then WHITE else BLACK,
   let u := code (toupper c) in
   if u =? 78 then KNIGHT
   else if u =? 66 then BISHOP
   else if u =? 82 then ROOK
   else if u =? 81 then QUEEN
   else if u =? 75 then KING
   else PAWN).

(** The board a piece placement describes, as the design document reads
    it ("rank-major, [/]-separated, digits as empty-square runs"), by rank
    and file and without the running square index of [set_pos]: a digit
    skips that many files, [/] starts the rank below at its first file, a
    letter puts its man on the current file and moves to the next. *)
Fixpoint placement_view (cs : list ascii) (r f : Z) (v : view) : view :=
  match cs with
  | [] => v
  | c :: rest =>
      if isdigit c then placement_view rest r (f + (code c - 48)) v
      else if code c =? 47 then placement_view rest (r - 1) 0 v
      else placement_view rest r (f + 1)
             (upd v (square_from r f) (Some (letter_man c)))
  end.

(** An en-passant capture and a promotion, for statements evaluated on a
    concrete position. *)
Definition ep_fen : string :=
  "rnbqkbnr/ppp1pppp/8/8/3pP3/8/PPPP1PPP/RNBQKBNR b KQkq e3 0 3".
Definition d4e3 : Move := mkMove 27 20 0.

Definition promotion_fen : string := "4k3/P7/8/8/8/8/8/4K3 w - - 0 1".
Definition a7a8q : Move := mkMove 48 56 QUEEN.

Definition ep_pos : Position := @set_pos sample_zobrist ep_fen.
Definition promotion_pos : Position := @set_pos sample_zobrist promotion_fen.

(** More sample moves: a single pawn step and a black two-square advance;
    a white rook leaving a8; knights that capture and that do not. *)
Definition e2e3 : Move := mkMove 12 20 0.
Definition e7e5 : Move := mkMove 52 36 0.

Definition rook_fen : string := "R7/7k/8/8/8/8/8/4K3 w - - 0 1".
Definition a8b8 : Move := mkMove 56 57 0.
Definition rook_pos : Position := @set_pos sample_zobrist rook_fen.

Definition knights_fen : string :=
  "r1bqkb1r/pppppppp/2n2n2/4N3/8/2N5/PPPPPPPP/R1BQKB1R b KQkq - 5 3".
Definition c6e5 : Move := mkMove 42 36 0.
Definition f6d5 : Move := mkMove 45 35 0.
Definition knights_pos : Position := @set_pos sample_zobrist knights_fen.

(** ** [Position::print]

    The characters written to [std::cout]: for each rank from the eighth
    down, the line [". . . . . . . ."] with the character at [2 * f]
    replaced, for each file [f], by [PieceLabel[color_on(sq)][piece_on(sq)]]
    on an occupied square, by [*] on the empty en-passant square and by [.]
    on any other empty square, then a new line; after the board an empty
    line, [rule50 = ], the counter in decimal (with [-] before a negative
    one) and the new line of [std::endl]. *)
Definition newline : ascii := ascii_of_nat 10.

(** [for (int f = FILE_A; f <= FILE_H; f++)] and
    [for (int r = RANK_8; r >= RANK_1; r--)]. *)
Definition files_up : list Z := [0; 1; 2; 3; 4; 5; 6; 7].
Definition ranks_down : list Z := [7; 6; 5; 4; 3; 2; 1; 0].

Definition print_square (P : Position) (sq : Z) : ascii :=
  if bb_test (occupied P) sq
  then char_at (PieceLabel (color_on P sq)) (Z.to_nat (piece_on P sq))
  else if sq =? epSquare P then "*"%char else "."%char.

Definition print_line (P : Position) (r : Z) : list ascii :=
  fold_left
    (fun line f => <[Z.to_nat (2 * f) := print_square P (square_from r f)]> line)
    files_up (list_ascii_of_string ". . . . . . . .").

Definition print (P : Position) : list ascii :=
  flat_map (fun r => print_line P r ++ [newline]) ranks_down
  ++ newline :: list_ascii_of_string "rule50 = "
  ++ list_ascii_of_string (NilZero.string_of_int (Z.to_int (rule50 P)))
  ++ [newline].

(** The number of men of a board function, and [1] for an occupied
    square. *)
Definition occ (x : option (Z * Z)) : nat :=
  match x with Some _ => 1%nat | None => 0%nat end.
Definition men (v : view) : nat :=
  length (List.filter (fun s => match v s with Some _ => true | None => false end)
            squares).

(** * Properties *)

(** ** Coordinates *)

Lemma square_from_range (r f : Z) :
  0 <= r < 8 -> 0 <= f < 8 -> 0 <= square_from r f < 64.
Proof. unfold square_from, NB_FILE. lia. Qed.

Lemma rank_file_square_from (r f : Z) :
  0 <= r < 8 -> 0 <= f < 8 ->
  rank_of (square_from r f) = r /\ file_of (square_from r f) = f.
Proof.
  intros Hr Hf.
  assert (Hs : square_from r f = f + r * 8) by (unfold square_from, NB_FILE; lia).
  split.
  - unfold rank_of, NB_FILE. rewrite Z.quot_div_nonneg by (rewrite ?Hs; lia).
    rewrite Hs, Z.div_add by lia. rewrite Z.div_small by lia. lia.
  - unfold file_of, NB_FILE. rewrite Z.rem_mod_nonneg by (rewrite ?Hs; lia).
    rewrite Hs, Z.mod_add by lia. apply Z.mod_small; lia.
Qed.

(** C10: for a rank and a file in [[0, 8)], [square_from] gives [8 * r + f],
    a square index in [[0, 64)], from which [rank_of] and [file_of] give the
    rank and the file back. *)
Theorem C10_coordinates_round_trip (r f : Z) :
  0 <= r < 8 -> 0 <= f < 8 ->
  rank_of (square_from r f) = r /\
  file_of (square_from r f) = f /\
  square_from r f = 8 * r + f /\
  0 <= square_from r f < 64 /\
  square_ok (square_from r f) = true.
Proof.
  intros Hr Hf.
  destruct (rank_file_square_from r f Hr Hf) as [H1 H2].
  pose proof (square_from_range r f Hr Hf) as H3.
  repeat split; try assumption; try (unfold square_from, NB_FILE; lia).
  unfold square_ok, BOUNDS, NB_SQUARE.
  apply andb_true_intro; split; [apply Z.leb_le | apply Z.ltb_lt]; lia.
Qed.

Lemma C10_coordinates_round_trip_witness :
  (0 <= 3 < 8 /\ 0 <= 4 < 8) /\
  rank_of (square_from 3 4) = 3 /\
  file_of (square_from 3 4) = 4 /\
  square_from 3 4 = 8 * 3 + 4 /\
  0 <= square_from 3 4 < 64 /\
  square_ok (square_from 3 4) = true.
Proof. split; [lia | apply (C10_coordinates_round_trip 3 4); lia]. Defined.

(** ** Bits of 64-bit words *)

Ltac zbool :=
  repeat match goal with
    | |- context [Z.eqb ?a ?b] => destruct (Z.eqb_spec a b)
    | |- context [Z.leb ?a ?b] => destruct (Z.leb_spec a b)
    | |- context [Z.ltb ?a ?b] => destruct (Z.ltb_spec a b)
    end;
  simpl; try reflexivity; try lia; try discriminate.

Lemma bb_ok_range (b : Z) : bb_ok b = true <-> 0 <= b < 2 ^ 64.
Proof. unfold bb_ok. rewrite andb_true_iff, Z.leb_le, Z.ltb_lt. tauto. Qed.

Lemma bb_ok_high (b s : Z) : bb_ok b = true -> 64 <= s -> Z.testbit b s = false.
Proof.
  intros Hb Hs. apply bb_ok_range in Hb.
  rewrite <- (Z.mod_small b (2 ^ 64)) by lia.
  apply Z.mod_pow2_bits_high. lia.
Qed.

Lemma bb_ok_bits (b : Z) :
  0 <= b -> (forall s, 64 <= s -> Z.testbit b s = false) -> bb_ok b = true.
Proof.
  intros Hb Hhi. apply bb_ok_range. split; [lia|].
  destruct (Z.eq_dec b 0) as [->|Hne]; [lia|].
  apply Z.log2_lt_pow2; [lia|].
  destruct (Z.lt_ge_cases (Z.log2 b) 64) as [Hlt|Hge]; [exact Hlt|].
  pose proof (Z.bit_log2 b ltac:(lia)) as Hbit.
  rewrite (Hhi _ Hge) in Hbit. discriminate.
Qed.

Lemma mask64_bits (s : Z) : Z.testbit mask64 s = (0 <=? s) && (s <? 64).
Proof. unfold mask64. apply Z.testbit_ones; lia. Qed.

Lemma shl64_1_bits (sq s : Z) :
  0 <= sq < 64 -> Z.testbit (shl64 1 sq) s = (s =? sq).
Proof.
  intros Hsq. unfold shl64.
  rewrite Z.land_spec, mask64_bits, Z.shiftl_1_l, Z.pow2_bits_eqb by lia.
  zbool.
Qed.

Lemma not64_bits (x s : Z) :
  Z.testbit (not64 x) s = negb (Z.testbit x s) && ((0 <=? s) && (s <? 64)).
Proof.
  unfold not64. rewrite Z.land_spec, mask64_bits.
  destruct (Z.leb_spec 0 s) as [Hs|Hs].
  - now rewrite Z.lnot_spec by lia.
  - rewrite Z.testbit_neg_r by lia. simpl. now rewrite andb_false_r.
Qed.

Lemma bb_set_bits (b sq s : Z) :
  0 <= sq < 64 -> Z.testbit (bb_set b sq) s = Z.testbit b s || (s =? sq).
Proof.
  intros Hsq. unfold bb_set. now rewrite Z.lor_spec, shl64_1_bits.
Qed.

Lemma bb_clear_bits (b sq s : Z) :
  0 <= sq < 64 -> bb_ok b = true ->
  Z.testbit (bb_clear b sq) s = Z.testbit b s && negb (s =? sq).
Proof.
  intros Hsq Hb. unfold bb_clear.
  rewrite Z.land_spec, not64_bits, shl64_1_bits by lia.
  destruct (Z.leb_spec 0 s) as [Hs|Hs].
  - destruct (Z.ltb_spec s 64) as [Hs'|Hs'].
    + now rewrite andb_true_r.
    + rewrite (bb_ok_high b s Hb Hs'). reflexivity.
  - rewrite !(Z.testbit_neg_r b s) by lia. reflexivity.
Qed.

(** Where [bb::set] finds the bit off and [bb::clear] finds it on, as
    every call made by [set_pos] and [play] does on well-formed input,
    switching the bit is the same as toggling it. *)
Lemma bb_set_toggle (b sq : Z) :
  0 <= sq < 64 -> Z.testbit b sq = false ->
  bb_set b sq = Z.lxor b (shl64 1 sq).
Proof.
  intros Hsq Hbit. apply Z.bits_inj'. intros s _.
  rewrite bb_set_bits, Z.lxor_spec, shl64_1_bits by exact Hsq.
  destruct (Z.eqb_spec s sq) as [->|_].
  - now rewrite Hbit.
  - now rewrite orb_false_r, xorb_false_r.
Qed.

Lemma bb_clear_toggle (b sq : Z) :
  0 <= sq < 64 -> bb_ok b = true -> Z.testbit b sq = true ->
  bb_clear b sq = Z.lxor b (shl64 1 sq).
Proof.
  intros Hsq Hb Hbit. apply Z.bits_inj'. intros s _.
  rewrite bb_clear_bits, Z.lxor_spec, shl64_1_bits by assumption.
  destruct (Z.eqb_spec s sq) as [->|_].
  - now rewrite Hbit.
  - now rewrite andb_true_r, xorb_false_r.
Qed.

Lemma land_not64_bits (b x s : Z) :
  bb_ok b = true ->
  Z.testbit (Z.land b (not64 x)) s = Z.testbit b s && negb (Z.testbit x s).
Proof.
  intros Hb. rewrite Z.land_spec, not64_bits.
  destruct (Z.leb_spec 0 s) as [Hs|Hs].
  - destruct (Z.ltb_spec s 64) as [Hs'|Hs'].
    + now rewrite andb_true_r.
    + rewrite (bb_ok_high b s Hb Hs'). reflexivity.
  - rewrite !(Z.testbit_neg_r b s) by lia. reflexivity.
Qed.

Lemma bb_ok_lor (a b : Z) : bb_ok a = true -> bb_ok b = true -> bb_ok (Z.lor a b) = true.
Proof.
  intros Ha Hb. apply bb_ok_bits.
  - apply Z.lor_nonneg. apply bb_ok_range in Ha, Hb. lia.
  - intros s Hs. now rewrite Z.lor_spec, (bb_ok_high a), (bb_ok_high b).
Qed.

Lemma bb_ok_land_l (a b : Z) : bb_ok a = true -> bb_ok (Z.land a b) = true.
Proof.
  intros Ha. apply bb_ok_bits.
  - apply Z.land_nonneg. apply bb_ok_range in Ha. lia.
  - intros s Hs. now rewrite Z.land_spec, (bb_ok_high a).
Qed.

Lemma bb_ok_shl64 (x n : Z) : bb_ok (shl64 x n) = true.
Proof.
  unfold shl64. rewrite Z.land_comm. apply bb_ok_land_l. reflexivity.
Qed.

Lemma bb_ok_set (b sq : Z) : bb_ok b = true -> bb_ok (bb_set b sq) = true.
Proof. intros Hb. apply bb_ok_lor; [exact Hb | apply bb_ok_shl64]. Qed.

Lemma bb_ok_clear (b sq : Z) : bb_ok b = true -> bb_ok (bb_clear b sq) = true.
Proof. intros Hb. now apply bb_ok_land_l. Qed.

(** ** Arrays *)

Lemma color_ok_cases (c : Z) : color_ok c = true <-> c = 0 \/ c = 1.
Proof.
  unfold color_ok, BOUNDS, NB_COLOR.
  rewrite andb_true_iff, Z.leb_le, Z.ltb_lt. lia.
Qed.

Lemma piece_ok_cases (p : Z) :
  piece_ok p = true <-> p = 0 \/ p = 1 \/ p = 2 \/ p = 3 \/ p = 4 \/ p = 5.
Proof.
  unfold piece_ok, BOUNDS, NB_PIECE.
  rewrite andb_true_iff, Z.leb_le, Z.ltb_lt. lia.
Qed.

Lemma square_ok_range (s : Z) : square_ok s = true <-> 0 <= s < 64.
Proof.
  unfold square_ok, BOUNDS, NB_SQUARE.
  rewrite andb_true_iff, Z.leb_le, Z.ltb_lt. lia.
Qed.

Lemma arr_upd_length (a : list Z) (i : Z) (f : Z -> Z) :
  length (arr_upd a i f) = length a.
Proof. unfold arr_upd. apply length_alter. Qed.

Lemma arr_upd_get (a : list Z) (i j : Z) (f : Z -> Z) :
  0 <= i -> 0 <= j -> (Z.to_nat i < length a)%nat ->
  arr (arr_upd a i f) j = if j =? i then f (arr a i) else arr a j.
Proof.
  intros Hi Hj Hlen. unfold arr, arr_upd. rewrite !nth_lookup.
  destruct (Z.eqb_spec j i) as [->|Hne].
  - rewrite list_lookup_alter_eq.
    destruct (lookup_lt_is_Some_2 a (Z.to_nat i) Hlen) as [x Hx].
    now rewrite Hx.
  - rewrite list_lookup_alter_ne by lia. reflexivity.
Qed.

Section BitSpecs.
Context {ZS : Zobrist}.

Lemma set_color_bit (P : Position) (c0 p0 sq c s : Z) :
  length (byColor P) = 2%nat -> color_ok c0 = true -> color_ok c = true ->
  0 <= sq < 64 ->
  color_bit (set c0 p0 sq P) c s = color_bit P c s || ((c =? c0) && (s =? sq)).
Proof.
  intros Hlen Hc0 Hc Hsq. apply color_ok_cases in Hc0, Hc.
  unfold color_bit, bb_test, set; simpl.
  rewrite arr_upd_get by (rewrite ?Hlen; lia).
  destruct (Z.eqb_spec c c0) as [->|Hne]; simpl.
  - now rewrite bb_set_bits.
  - now rewrite orb_false_r.
Qed.

Lemma set_piece_bit (P : Position) (c0 p0 sq p s : Z) :
  length (byPiece P) = 6%nat -> piece_ok p0 = true -> piece_ok p = true ->
  0 <= sq < 64 ->
  piece_bit (set c0 p0 sq P) p s = piece_bit P p s || ((p =? p0) && (s =? sq)).
Proof.
  intros Hlen Hp0 Hp Hsq. apply piece_ok_cases in Hp0, Hp.
  unfold piece_bit, bb_test, set; simpl.
  rewrite arr_upd_get by (rewrite ?Hlen; lia).
  destruct (Z.eqb_spec p p0) as [->|Hne]; simpl.
  - now rewrite bb_set_bits.
  - now rewrite orb_false_r.
Qed.

Lemma clear_color_bit (P : Position) (c0 p0 sq c s : Z) :
  length (byColor P) = 2%nat -> color_ok c0 = true -> color_ok c = true ->
  bb_ok (arr (byColor P) c0) = true -> 0 <= sq < 64 ->
  color_bit (clear c0 p0 sq P) c s
  = color_bit P c s && negb ((c =? c0) && (s =? sq)).
Proof.
  intros Hlen Hc0 Hc Hok Hsq. apply color_ok_cases in Hc0, Hc.
  unfold color_bit, bb_test, clear; simpl.
  rewrite arr_upd_get by (rewrite ?Hlen; lia).
  destruct (Z.eqb_spec c c0) as [->|Hne]; simpl.
  - now rewrite bb_clear_bits.
  - now rewrite andb_true_r.
Qed.

Lemma clear_piece_bit (P : Position) (c0 p0 sq p s : Z) :
  length (byPiece P) = 6%nat -> piece_ok p0 = true -> piece_ok p = true ->
  bb_ok (arr (byPiece P) p0) = true -> 0 <= sq < 64 ->
  piece_bit (clear c0 p0 sq P) p s
  = piece_bit P p s && negb ((p =? p0) && (s =? sq)).
Proof.
  intros Hlen Hp0 Hp Hok Hsq. apply piece_ok_cases in Hp0, Hp.
  unfold piece_bit, bb_test, clear; simpl.
  rewrite arr_upd_get by (rewrite ?Hlen; lia).
  destruct (Z.eqb_spec p p0) as [->|Hne]; simpl.
  - now rewrite bb_clear_bits.
  - now rewrite andb_true_r.
Qed.

End BitSpecs.

(** ** [set] and [clear] on the board function *)

Section Repr.
Context {ZS : Zobrist}.

Lemma repr_same_board (v : view) (P Q : Position) :
  byColor Q = byColor P -> byPiece Q = byPiece P -> repr v P -> repr v Q.
Proof.
  intros HC HP [H1 H2 H3 H4 H5 H6 H7].
  constructor; unfold color_bit, piece_bit in *; rewrite ?HC, ?HP; assumption.
Qed.

Lemma repr_ext (v w : view) (P : Position) :
  (forall s, v s = w s) -> repr v P -> repr w P.
Proof.
  intros Hvw [H1 H2 H3 H4 H5 H6 H7].
  constructor; try assumption.
  - intros s c p. rewrite <- Hvw. apply H5.
  - intros c s Hc. unfold view_color. rewrite <- Hvw. now apply H6.
  - intros p s Hp. unfold view_piece. rewrite <- Hvw. now apply H7.
Qed.

Lemma set_repr (v : view) (P : Position) (c0 p0 sq : Z) :
  repr v P -> v sq = None ->
  color_ok c0 = true -> piece_ok p0 = true -> square_ok sq = true ->
  repr (upd v sq (Some (c0, p0))) (set c0 p0 sq P).
Proof.
  intros [H1 H2 H3 H4 H5 H6 H7] Hv Hc0 Hp0 Hsq.
  pose proof (proj1 (square_ok_range sq) Hsq) as Hsq'.
  pose proof (proj1 (color_ok_cases c0) Hc0) as Hc0'.
  pose proof (proj1 (piece_ok_cases p0) Hp0) as Hp0'.
  constructor.
  - simpl. now rewrite arr_upd_length.
  - simpl. now rewrite arr_upd_length.
  - intros c Hc. pose proof (proj1 (color_ok_cases c) Hc) as Hc'. simpl.
    rewrite arr_upd_get by (rewrite ?H1; lia).
    destruct (c =? c0); [apply bb_ok_set|]; now apply H3.
  - intros p Hp. pose proof (proj1 (piece_ok_cases p) Hp) as Hp'. simpl.
    rewrite arr_upd_get by (rewrite ?H2; lia).
    destruct (p =? p0); [apply bb_ok_set|]; now apply H4.
  - intros s c p. unfold upd. destruct (Z.eqb_spec s sq) as [->|Hne].
    + intros [= <- <-]. auto.
    + apply H5.
  - intros c s Hc. rewrite set_color_bit, H6 by assumption.
    unfold view_color, upd. destruct (Z.eqb_spec s sq) as [->|Hne].
    + rewrite Hv. simpl. rewrite andb_true_r. apply Z.eqb_sym.
    + now rewrite andb_false_r, orb_false_r.
  - intros p s Hp. rewrite set_piece_bit, H7 by assumption.
    unfold view_piece, upd. destruct (Z.eqb_spec s sq) as [->|Hne].
    + rewrite Hv. simpl. rewrite andb_true_r. apply Z.eqb_sym.
    + now rewrite andb_false_r, orb_false_r.
Qed.

Lemma clear_repr (v : view) (P : Position) (c0 p0 sq : Z) :
  repr v P -> v sq = Some (c0, p0) ->
  repr (upd v sq None) (clear c0 p0 sq P).
Proof.
  intros [H1 H2 H3 H4 H5 H6 H7] Hv.
  destruct (H5 _ _ _ Hv) as (Hc0 & Hp0 & Hsq).
  pose proof (proj1 (square_ok_range sq) Hsq) as Hsq'.
  pose proof (proj1 (color_ok_cases c0) Hc0) as Hc0'.
  pose proof (proj1 (piece_ok_cases p0) Hp0) as Hp0'.
  constructor.
  - simpl. now rewrite arr_upd_length.
  - simpl. now rewrite arr_upd_length.
  - intros c Hc. pose proof (proj1 (color_ok_cases c) Hc) as Hc'. simpl.
    rewrite arr_upd_get by (rewrite ?H1; lia).
    destruct (c =? c0); [apply bb_ok_clear|]; now apply H3.
  - intros p Hp. pose proof (proj1 (piece_ok_cases p) Hp) as Hp'. simpl.
    rewrite arr_upd_get by (rewrite ?H2; lia).
    destruct (p =? p0); [apply bb_ok_clear|]; now apply H4.
  - intros s c p. unfold upd. destruct (Z.eqb_spec s sq) as [->|Hne].
    + discriminate.
    + apply H5.
  - intros c s Hc. rewrite clear_color_bit, H6 by auto.
    unfold view_color, upd. destruct (Z.eqb_spec s sq) as [->|Hne].
    + rewrite Hv, andb_true_r, (Z.eqb_sym c c0). apply andb_negb_r.
    + now rewrite andb_false_r, andb_true_r.
  - intros p s Hp. rewrite clear_piece_bit, H7 by auto.
    unfold view_piece, upd. destruct (Z.eqb_spec s sq) as [->|Hne].
    + rewrite Hv, andb_true_r, (Z.eqb_sym p p0). apply andb_negb_r.
    + now rewrite andb_false_r, andb_true_r.
Qed.

(** [occupied], [color_on] and [piece_on] read the board function. *)
Lemma repr_occupied (v : view) (P : Position) (s : Z) :
  repr v P -> bb_test (occupied P) s = match v s with Some _ => true | None => false end.
Proof.
  intros [H1 H2 H3 H4 H5 H6 H7]. unfold occupied, bb_test.
  rewrite Z.lor_spec.
  change (Z.testbit (arr (byColor P) WHITE) s) with (color_bit P WHITE s).
  change (Z.testbit (arr (byColor P) BLACK) s) with (color_bit P BLACK s).
  rewrite !H6 by reflexivity. unfold view_color.
  destruct (v s) as [[c p]|] eqn:Hv; [|reflexivity].
  destruct (H5 _ _ _ Hv) as (Hc & _). apply color_ok_cases in Hc.
  destruct Hc as [-> | ->]; reflexivity.
Qed.

Lemma repr_color_on (v : view) (P : Position) (s c p : Z) :
  repr v P -> v s = Some (c, p) -> color_on P s = c.
Proof.
  intros Hr Hv. destruct Hr as [H1 H2 H3 H4 H5 H6 H7]. unfold color_on.
  change (bb_test (arr (byColor P) WHITE) s) with (color_bit P WHITE s).
  rewrite H6 by reflexivity. unfold view_color. rewrite Hv.
  destruct (H5 _ _ _ Hv) as (Hc & _). apply color_ok_cases in Hc.
  destruct Hc as [-> | ->]; reflexivity.
Qed.

Lemma repr_piece_on (v : view) (P : Position) (s c p : Z) :
  repr v P -> v s = Some (c, p) -> piece_on P s = p.
Proof.
  intros Hr Hv. destruct Hr as [H1 H2 H3 H4 H5 H6 H7].
  unfold piece_on, piece_scan, all_pieces.
  repeat match goal with
  | |- context [bb_test (arr (byPiece P) ?q) s] =>
      change (bb_test (arr (byPiece P) q) s) with (piece_bit P q s);
      rewrite (H7 q s) by reflexivity
  end.
  unfold view_piece. rewrite Hv.
  destruct (H5 _ _ _ Hv) as (_ & Hp & _). apply piece_ok_cases in Hp.
  destruct Hp as [-> | [-> | [-> | [-> | [-> | ->]]]]]; reflexivity.
Qed.

Lemma repr_piece_at (v : view) (P : Position) (s : Z) :
  repr v P -> piece_at P s = v s.
Proof.
  intros Hr. unfold piece_at. rewrite (repr_occupied v P s Hr).
  destruct (v s) as [[c p]|] eqn:Hv; [|reflexivity].
  now rewrite (repr_color_on v P s c p Hr Hv), (repr_piece_on v P s c p Hr Hv).
Qed.

End Repr.

(** ** [board_ok] and the board function *)

Lemma in_squares (s : Z) : In s squares <-> 0 <= s < 64.
Proof.
  unfold squares. rewrite in_map_iff. split.
  - intros (n & <- & Hn). apply in_seq in Hn. lia.
  - intros Hs. exists (Z.to_nat s). split; [lia | apply in_seq; lia].
Qed.

Lemma bb_ok_outside (b s : Z) :
  bb_ok b = true -> ~ 0 <= s < 64 -> Z.testbit b s = false.
Proof.
  intros Hb Hs. destruct (Z.lt_ge_cases s 0).
  - now apply Z.testbit_neg_r.
  - apply bb_ok_high; [exact Hb | lia].
Qed.

Lemma board_ok_unfold (P : Position) :
  board_ok P = true <->
  (length (byColor P) = 2%nat /\ length (byPiece P) = 6%nat
   /\ (forall b, In b (byColor P) -> bb_ok b = true)
   /\ (forall b, In b (byPiece P) -> bb_ok b = true)
   /\ (forall s, 0 <= s < 64 -> cell_ok P s = true)).
Proof.
  unfold board_ok. rewrite !andb_true_iff, !Nat.eqb_eq, !forallb_forall.
  split.
  - intros ((((H1 & H2) & H3) & H4) & H5). repeat split; try assumption.
    intros s Hs. apply H5, in_squares, Hs.
  - intros (H1 & H2 & H3 & H4 & H5). repeat split; try assumption.
    intros s Hs. apply H5, in_squares, Hs.
Qed.

Ltac unfold_consts :=
  unfold piece_on, all_colors, all_pieces, WHITE, BLACK, KNIGHT, BISHOP, ROOK,
    QUEEN, KING, PAWN, NB_PIECE, NB_COLOR, NB_SQUARE in *;
  cbn [piece_scan map count_true fold_right] in *;
  cbv [bb_test arr nth Z.to_nat Pos.to_nat Pos.iter_op Nat.add] in *.

Ltac bits8 w b n bi r q k p s :=
  destruct (Z.testbit w s), (Z.testbit b s), (Z.testbit n s), (Z.testbit bi s),
    (Z.testbit r s), (Z.testbit q s), (Z.testbit k s), (Z.testbit p s);
  cbn; intros; try discriminate; try reflexivity.

Lemma board_ok_repr (P : Position) : board_ok P = true -> repr (piece_at P) P.
Proof.
  rewrite board_ok_unfold.
  destruct P as [bc bp cr k t e r]. cbn [byColor byPiece].
  intros (HlC & HlP & HokC & HokP & Hcells).
  destruct bc as [|w [|b [|]]]; try discriminate.
  destruct bp as [|n [|bi [|r' [|q [|k' [|p [|]]]]]]]; try discriminate.
  assert (Hw : bb_ok w = true) by (apply HokC; cbn; auto).
  assert (Hb : bb_ok b = true) by (apply HokC; cbn; auto).
  assert (Hn : bb_ok n = true) by (apply HokP; cbn; auto).
  assert (Hbi : bb_ok bi = true) by (apply HokP; cbn; auto).
  assert (Hr : bb_ok r' = true) by (apply HokP; cbn; auto).
  assert (Hq : bb_ok q = true) by (apply HokP; cbn; auto).
  assert (Hk : bb_ok k' = true) by (apply HokP; cbn; auto 10).
  assert (Hp : bb_ok p = true) by (apply HokP; cbn; auto 10).
  clear HokC HokP.
  set (P := mkPosition [w; b] [n; bi; r'; q; k'; p] cr k t e r) in *.
  assert (Hcell : forall s, cell_ok P s = true).
  { intros s. destruct (Z.le_gt_cases 0 s) as [H0|H0];
      [destruct (Z.lt_ge_cases s 64) as [H1|H1]|].
    - apply Hcells. lia.
    - unfold cell_ok, color_bit, piece_bit, bb_test, P; unfold_consts; cbn.
      rewrite !bb_ok_high by assumption. reflexivity.
    - unfold cell_ok, color_bit, piece_bit, bb_test, P; unfold_consts; cbn.
      rewrite !Z.testbit_neg_r by lia. reflexivity. }
  assert (Hin : forall s, bb_test (occupied P) s = true -> 0 <= s < 64).
  { intros s Hs. destruct (Z.le_gt_cases 0 s) as [H0|H0];
      [destruct (Z.lt_ge_cases s 64) as [H1|H1]; [lia|]|];
      unfold occupied, bb_test, P in Hs; unfold_consts; cbn in Hs;
      rewrite Z.lor_spec in Hs.
    - rewrite !bb_ok_high in Hs by assumption. discriminate.
    - rewrite !Z.testbit_neg_r in Hs by lia. discriminate. }
  constructor.
  - reflexivity.
  - reflexivity.
  - intros c Hc. apply color_ok_cases in Hc. destruct Hc as [-> | ->]; assumption.
  - intros p' Hp'. apply piece_ok_cases in Hp'.
    destruct Hp' as [-> | [-> | [-> | [-> | [-> | ->]]]]]; assumption.
  - intros s c p' Hv. specialize (Hcell s). specialize (Hin s).
    unfold piece_at in Hv. destruct (bb_test (occupied P) s) eqn:Hocc; [|discriminate].
    injection Hv as <- <-. specialize (Hin eq_refl).
    split; [|split]; [| |apply square_ok_range; exact Hin].
    + unfold color_on. destruct (bb_test (arr (byColor P) WHITE) s); reflexivity.
    + revert Hcell Hocc.
      unfold cell_ok, color_bit, piece_bit, piece_on, occupied, bb_test, P;
    unfold_consts; cbn.
      rewrite Z.lor_spec.
      bits8 w b n bi r' q k' p s.
  - intros c s Hc. apply color_ok_cases in Hc. specialize (Hcell s). revert Hcell.
    unfold view_color, piece_at, color_on.
    unfold cell_ok, color_bit, piece_bit, piece_on, occupied, bb_test, P;
    unfold_consts; cbn.
    rewrite Z.lor_spec.
    destruct Hc as [-> | ->]; bits8 w b n bi r' q k' p s.
  - intros p' s Hp'. apply piece_ok_cases in Hp'. specialize (Hcell s). revert Hcell.
    unfold view_piece, piece_at, color_on.
    unfold cell_ok, color_bit, piece_bit, piece_on, occupied, bb_test, P;
    unfold_consts; cbn.
    rewrite Z.lor_spec.
    destruct Hp' as [-> | [-> | [-> | [-> | [-> | ->]]]]]; cbn;
      bits8 w b n bi r' q k' p s.
Qed.

Section ReprBoard.
Context {ZS : Zobrist}.

Lemma repr_board_ok (v : view) (P : Position) : repr v P -> board_ok P = true.
Proof.
  intros [H1 H2 H3 H4 H5 H6 H7]. apply board_ok_unfold.
  split; [exact H1|]. split; [exact H2|].
  destruct P as [bc bp cr k t e r]. cbn [byColor byPiece] in *.
  destruct bc as [|w [|b [|]]]; try discriminate.
  destruct bp as [|n [|bi [|r' [|q [|k' [|p [|]]]]]]]; try discriminate.
  split; [|split].
  - intros x Hx. cbn in Hx.
    destruct Hx as [<- | [<- | []]];
      [apply (H3 0) | apply (H3 1)]; reflexivity.
  - intros x Hx. cbn in Hx.
    destruct Hx as [<- | [<- | [<- | [<- | [<- | [<- | []]]]]]];
      [apply (H4 0) | apply (H4 1) | apply (H4 2) | apply (H4 3)
      | apply (H4 4) | apply (H4 5)]; reflexivity.
  - intros s _. unfold cell_ok, all_colors, all_pieces.
    cbn [map count_true fold_right].
    rewrite !H6, !H7 by reflexivity. unfold view_color, view_piece.
    destruct (v s) as [[c p']|] eqn:Hv; [|reflexivity].
    destruct (H5 _ _ _ Hv) as (Hc & Hp & _).
    apply color_ok_cases in Hc. apply piece_ok_cases in Hp.
    destruct Hc as [-> | ->];
      destruct Hp as [-> | [-> | [-> | [-> | [-> | ->]]]]]; reflexivity.
Qed.

Lemma repr_color_at (v : view) (P : Position) (c s : Z) :
  repr v P -> color_ok c = true -> color_bit P c s = true ->
  v s = Some (c, piece_on P s).
Proof.
  intros Hr Hc Hbit. pose proof (repr_color v P Hr c s Hc) as H.
  rewrite Hbit in H. unfold view_color in H.
  destruct (v s) as [[c' p']|] eqn:Hv; [|discriminate].
  symmetry in H. apply Z.eqb_eq in H. subst c'.
  now rewrite (repr_piece_on v P s c p' Hr Hv).
Qed.

Lemma repr_unoccupied (v : view) (P : Position) (s : Z) :
  repr v P -> bb_test (occupied P) s = false -> v s = None.
Proof.
  intros Hr Hocc. rewrite (repr_occupied v P s Hr) in Hocc.
  now destruct (v s).
Qed.

Lemma repr_get (v : view) (P : Position) (c p s : Z) :
  repr v P -> color_ok c = true -> piece_ok p = true ->
  bb_test (get P c p) s = true -> v s = Some (c, p).
Proof.
  intros Hr Hc Hp Hbit. unfold get, bb_test in Hbit.
  rewrite Z.land_spec in Hbit. apply andb_true_iff in Hbit.
  destruct Hbit as [HC HP].
  rewrite (repr_color_at v P c s Hr Hc HC).
  pose proof (repr_piece v P Hr p s Hp) as H. unfold piece_bit, bb_test in H.
  rewrite HP in H. unfold view_piece in H.
  rewrite (repr_color_at v P c s Hr Hc HC) in H.
  symmetry in H. apply Z.eqb_eq in H. now rewrite H.
Qed.

End ReprBoard.

(** ** The key recomputed from the board *)

(** Equations between exclusive ors, decided bit by bit. *)
Ltac xor_ring :=
  apply Z.bits_inj'; intros ?n _; rewrite ?Z.lxor_spec, ?Z.bits_0; btauto.

Lemma NoDup_squares : List.NoDup squares.
Proof.
  unfold squares. apply Finite.Injective_map_NoDup; [|apply List.seq_NoDup].
  intros x y H. lia.
Qed.

Lemma xor_list_change (g g' : Z -> Z) (l : list Z) (s0 z : Z) :
  List.NoDup l -> In s0 l ->
  (forall s, s <> s0 -> g' s = g s) -> g' s0 = Z.lxor (g s0) z ->
  xor_list (map g' l) = Z.lxor (xor_list (map g l)) z.
Proof.
  intros Hnd Hin Hoth Hat. induction l as [|a l IH]; [destruct Hin|].
  apply List.NoDup_cons_iff in Hnd. destruct Hnd as [Hna Hnd].
  cbn [map xor_list fold_right]. fold (xor_list (map g' l)) (xor_list (map g l)).
  destruct (Z.eq_dec a s0) as [->|Hne].
  - assert (E : map g' l = map g l).
    { apply map_ext_in. intros s Hs. apply Hoth. intros ->. contradiction. }
    rewrite E, Hat. xor_ring.
  - destruct Hin as [E|Hin]; [contradiction|].
    rewrite (IH Hnd Hin), (Hoth a Hne). xor_ring.
Qed.

Lemma xor_bits_clear (f : Z -> Z) (b s0 : Z) :
  bb_ok b = true -> 0 <= s0 < 64 -> Z.testbit b s0 = true ->
  xor_bits f (bb_clear b s0) = Z.lxor (xor_bits f b) (f s0).
Proof.
  intros Hb Hs Hbit. unfold xor_bits.
  apply xor_list_change with (s0 := s0).
  - apply NoDup_squares.
  - now apply in_squares.
  - intros s Hne. unfold bit_term. rewrite bb_clear_bits by assumption.
    rewrite (proj2 (Z.eqb_neq s s0) Hne). now rewrite andb_true_r.
  - unfold bit_term. rewrite bb_clear_bits by assumption.
    rewrite Hbit, Z.eqb_refl. cbn. now rewrite Z.lxor_nilpotent.
Qed.

Lemma xor_bits_set (f : Z -> Z) (b s0 : Z) :
  0 <= s0 < 64 -> Z.testbit b s0 = false ->
  xor_bits f (bb_set b s0) = Z.lxor (xor_bits f b) (f s0).
Proof.
  intros Hs Hbit. unfold xor_bits.
  apply xor_list_change with (s0 := s0).
  - apply NoDup_squares.
  - now apply in_squares.
  - intros s Hne. unfold bit_term. rewrite bb_set_bits by assumption.
    rewrite (proj2 (Z.eqb_neq s s0) Hne). now rewrite orb_false_r.
  - unfold bit_term. rewrite bb_set_bits by assumption.
    rewrite Hbit, Z.eqb_refl. reflexivity.
Qed.

Lemma xor_bits_ext (f : Z -> Z) (a b : Z) :
  (forall s, 0 <= s < 64 -> Z.testbit a s = Z.testbit b s) ->
  xor_bits f a = xor_bits f b.
Proof.
  intros H. unfold xor_bits. f_equal. apply map_ext_in.
  intros s Hs%in_squares. unfold bit_term. now rewrite H.
Qed.

Lemma xor_bits_0 (f : Z -> Z) : xor_bits f 0 = 0.
Proof.
  unfold xor_bits.
  assert (E : map (bit_term f 0) squares = map (fun _ => 0) squares).
  { apply map_ext. intros s. unfold bit_term. now rewrite Z.bits_0. }
  rewrite E. generalize squares. induction l; [reflexivity|]. cbn. exact IHl.
Qed.

Lemma filter_length_change (p p' : Z -> bool) (l : list Z) (s0 : Z) :
  List.NoDup l -> In s0 l ->
  (forall s, s <> s0 -> p' s = p s) -> p s0 = true -> p' s0 = false ->
  S (length (List.filter p' l)) = length (List.filter p l).
Proof.
  intros Hnd Hin Hoth Ht Hf. induction l as [|a l IH]; [destruct Hin|].
  apply List.NoDup_cons_iff in Hnd. destruct Hnd as [Hna Hnd].
  cbn [List.filter].
  destruct (Z.eq_dec a s0) as [->|Hne].
  - rewrite Ht, Hf. cbn [length]. f_equal.
    f_equal. apply List.filter_ext_in. intros s Hs. apply Hoth.
    intros ->. contradiction.
  - destruct Hin as [E|Hin]; [contradiction|].
    rewrite (Hoth a Hne). destruct (p a); cbn [length]; now rewrite (IH Hnd Hin).
Qed.

Lemma popcount_clear (b s0 : Z) :
  bb_ok b = true -> 0 <= s0 < 64 -> Z.testbit b s0 = true ->
  S (popcount (bb_clear b s0)) = popcount b.
Proof.
  intros Hb Hs Hbit. unfold popcount.
  apply filter_length_change with (s0 := s0).
  - apply NoDup_squares.
  - now apply in_squares.
  - intros s Hne. rewrite bb_clear_bits by assumption.
    rewrite (proj2 (Z.eqb_neq s s0) Hne). now rewrite andb_true_r.
  - exact Hbit.
  - rewrite bb_clear_bits by assumption. now rewrite Z.eqb_refl, andb_false_r.
Qed.

Lemma popcount_le (b : Z) : (popcount b <= 64)%nat.
Proof.
  unfold popcount.
  pose proof (List.filter_length_le (Z.testbit b) squares) as H.
  replace (length squares) with 64%nat in H by reflexivity. exact H.
Qed.

Lemma lsb_scan_spec (n : nat) (i b : Z) :
  (exists s, i <= s < i + Z.of_nat n /\ Z.testbit b s = true) ->
  i <= lsb_scan n i b < i + Z.of_nat n /\ Z.testbit b (lsb_scan n i b) = true.
Proof.
  revert i. induction n as [|n IH]; intros i (s & Hs & Hbit); [lia|].
  cbn [lsb_scan]. destruct (Z.testbit b i) eqn:Hi; [split; [lia|exact Hi]|].
  destruct (IH (i + 1)) as [H1 H2].
  - exists s. split; [|exact Hbit].
    destruct (Z.eq_dec s i) as [->|]; [congruence|lia].
  - split; [lia|exact H2].
Qed.

Lemma bb_nonzero_bit (b : Z) :
  bb_ok b = true -> b <> 0 -> exists s, 0 <= s < 64 /\ Z.testbit b s = true.
Proof.
  intros Hb Hne. apply bb_ok_range in Hb. exists (Z.log2 b). split.
  - split; [apply Z.log2_nonneg | apply Z.log2_lt_pow2; lia].
  - apply Z.bit_log2. lia.
Qed.

Lemma bb_lsb_spec (b : Z) :
  bb_ok b = true -> b <> 0 ->
  0 <= bb_lsb b < 64 /\ Z.testbit b (bb_lsb b) = true.
Proof.
  intros Hb Hne. unfold bb_lsb.
  destruct (lsb_scan_spec 64 0 b) as [H1 H2].
  - destruct (bb_nonzero_bit b Hb Hne) as (s & Hs & Hbit). exists s. split; [lia|exact Hbit].
  - split; [lia|exact H2].
Qed.

Section KeySquares.
Context {ZS : Zobrist}.

(** The [while (b)] loop of [key_ok] ends within 64 iterations, with the
    exclusive or of the keys of the squares of [b]. *)
Lemma key_squares_spec (n : nat) (c p b k : Z) :
  bb_ok b = true -> (popcount b <= n)%nat ->
  key_squares n c p b k = Z.lxor k (xor_bits (zobrist_key c p) b).
Proof.
  revert b k. induction n as [|n IH]; intros b k Hb Hpop.
  - cbn [key_squares].
    destruct (Z.eq_dec b 0) as [->|Hne]; [now rewrite xor_bits_0, Z.lxor_0_r|].
    destruct (bb_lsb_spec b Hb Hne) as [Hs Hbit].
    pose proof (popcount_clear b _ Hb Hs Hbit). lia.
  - cbn [key_squares]. destruct (Z.eqb_spec b 0) as [->|Hne].
    + now rewrite xor_bits_0, Z.lxor_0_r.
    + destruct (bb_lsb_spec b Hb Hne) as [Hs Hbit].
      unfold bb_pop_lsb.
      rewrite IH.
      * rewrite xor_bits_clear by assumption. xor_ring.
      * now apply bb_ok_clear.
      * pose proof (popcount_clear b _ Hb Hs Hbit). lia.
Qed.

Lemma key_squares_64 (c p b k : Z) :
  bb_ok b = true ->
  key_squares 64 c p b k = Z.lxor k (xor_bits (zobrist_key c p) b).
Proof. intros Hb. apply key_squares_spec; [exact Hb | apply popcount_le]. Qed.

End KeySquares.

Section KeyBoard.
Context {ZS : Zobrist}.

Lemma repr_get_ok (v : view) (P : Position) (c p : Z) :
  repr v P -> color_ok c = true -> bb_ok (get P c p) = true.
Proof.
  intros Hr Hc. unfold get. apply bb_ok_land_l. now apply (repr_okC v P Hr).
Qed.

Lemma repr_get_bits (v : view) (P : Position) (c p s : Z) :
  repr v P -> color_ok c = true -> piece_ok p = true ->
  Z.testbit (get P c p) s = view_color v c s && view_piece v p s.
Proof.
  intros Hr Hc Hp. unfold get. rewrite Z.land_spec.
  pose proof (repr_color v P Hr c s Hc) as H1.
  pose proof (repr_piece v P Hr p s Hp) as H2.
  unfold color_bit, piece_bit, bb_test in H1, H2. now rewrite H1, H2.
Qed.

Lemma key_board_change (v w : view) (P Q : Position) (c0 p0 z : Z) :
  repr v P -> repr w Q -> color_ok c0 = true -> piece_ok p0 = true ->
  (forall c p, color_ok c = true -> piece_ok p = true ->
     xor_bits (zobrist_key c p) (get Q c p)
     = Z.lxor (xor_bits (zobrist_key c p) (get P c p))
              (if (c =? c0) && (p =? p0) then z else 0)) ->
  key_board Q = Z.lxor (key_board P) z.
Proof.
  intros HP HQ Hc0 Hp0 H.
  unfold key_board, key_pieces, all_colors, all_pieces,
    WHITE, BLACK, KNIGHT, BISHOP, ROOK, QUEEN, KING, PAWN.
  cbn [fold_left].
  rewrite !key_squares_64
    by (first [apply (repr_get_ok v P) | apply (repr_get_ok w Q)];
        [assumption | reflexivity]).
  rewrite !H by reflexivity.
  apply color_ok_cases in Hc0. apply piece_ok_cases in Hp0.
  destruct Hc0 as [-> | ->];
    destruct Hp0 as [-> | [-> | [-> | [-> | [-> | ->]]]]];
    cbn [Z.eqb Pos.eqb andb]; xor_ring.
Qed.

Lemma key_board_set (v : view) (P : Position) (c0 p0 sq : Z) :
  repr v P -> v sq = None ->
  color_ok c0 = true -> piece_ok p0 = true -> square_ok sq = true ->
  key_board (set c0 p0 sq P) = Z.lxor (key_board P) (zobrist_key c0 p0 sq).
Proof.
  intros Hr Hv Hc0 Hp0 Hsq.
  pose proof (set_repr v P c0 p0 sq Hr Hv Hc0 Hp0 Hsq) as Hr'.
  pose proof (proj1 (square_ok_range sq) Hsq) as Hsq'.
  apply (key_board_change v _ P _ c0 p0 _ Hr Hr' Hc0 Hp0).
  intros c p Hc Hp.
  destruct ((c =? c0) && (p =? p0)) eqn:E.
  - apply andb_true_iff in E. destruct E as [->%Z.eqb_eq ->%Z.eqb_eq].
    rewrite <- xor_bits_set.
    + apply xor_bits_ext. intros s _.
      rewrite bb_set_bits by exact Hsq'.
      rewrite (repr_get_bits _ _ _ _ _ Hr') by assumption.
      rewrite (repr_get_bits _ _ _ _ _ Hr) by assumption.
      unfold view_color, view_piece, upd.
      destruct (Z.eqb_spec s sq) as [->|Hne].
      * now rewrite !Z.eqb_refl, orb_true_r.
      * now rewrite orb_false_r.
    + exact Hsq'.
    + rewrite (repr_get_bits _ _ _ _ _ Hr) by assumption.
      unfold view_color. now rewrite Hv.
  - rewrite Z.lxor_0_r. apply xor_bits_ext. intros s _.
    rewrite (repr_get_bits _ _ _ _ _ Hr') by assumption.
    rewrite (repr_get_bits _ _ _ _ _ Hr) by assumption.
    unfold view_color, view_piece, upd.
    destruct (Z.eqb_spec s sq) as [->|Hne]; [|reflexivity].
    rewrite Hv. rewrite (Z.eqb_sym c0 c), (Z.eqb_sym p0 p). exact E.
Qed.

Lemma key_board_clear (v : view) (P : Position) (c0 p0 sq : Z) :
  repr v P -> v sq = Some (c0, p0) ->
  key_board (clear c0 p0 sq P) = Z.lxor (key_board P) (zobrist_key c0 p0 sq).
Proof.
  intros Hr Hv.
  destruct (repr_dom v P Hr _ _ _ Hv) as (Hc0 & Hp0 & Hsq).
  pose proof (clear_repr v P c0 p0 sq Hr Hv) as Hr'.
  pose proof (proj1 (square_ok_range sq) Hsq) as Hsq'.
  apply (key_board_change v _ P _ c0 p0 _ Hr Hr' Hc0 Hp0).
  intros c p Hc Hp.
  destruct ((c =? c0) && (p =? p0)) eqn:E.
  - apply andb_true_iff in E. destruct E as [->%Z.eqb_eq ->%Z.eqb_eq].
    rewrite <- xor_bits_clear.
    + apply xor_bits_ext. intros s _.
      rewrite bb_clear_bits by (try apply (repr_get_ok v P); assumption).
      rewrite (repr_get_bits _ _ _ _ _ Hr') by assumption.
      rewrite (repr_get_bits _ _ _ _ _ Hr) by assumption.
      unfold view_color, view_piece, upd.
      destruct (Z.eqb_spec s sq) as [->|Hne].
      * cbn [negb andb]. now rewrite ?andb_false_r.
      * cbn [negb]. now rewrite ?andb_true_r.
    + now apply (repr_get_ok v P).
    + exact Hsq'.
    + rewrite (repr_get_bits _ _ _ _ _ Hr) by assumption.
      unfold view_color, view_piece. now rewrite Hv, !Z.eqb_refl.
  - rewrite Z.lxor_0_r. apply xor_bits_ext. intros s _.
    rewrite (repr_get_bits _ _ _ _ _ Hr') by assumption.
    rewrite (repr_get_bits _ _ _ _ _ Hr) by assumption.
    unfold view_color, view_piece, upd.
    destruct (Z.eqb_spec s sq) as [->|Hne]; [|reflexivity].
    rewrite Hv. rewrite (Z.eqb_sym c0 c), (Z.eqb_sym p0 p). now rewrite E.
Qed.

Lemma key_board_same (P Q : Position) :
  byColor Q = byColor P -> byPiece Q = byPiece P -> key_board Q = key_board P.
Proof.
  intros HC HP. unfold key_board, key_pieces, get. now rewrite HC, HP.
Qed.

(** [set] and [clear] keep the key in step with the board. *)
Lemma hrepr_set (v : view) (d : Z) (P : Position) (c0 p0 sq : Z) :
  hrepr v d P -> v sq = None ->
  color_ok c0 = true -> piece_ok p0 = true -> square_ok sq = true ->
  hrepr (upd v sq (Some (c0, p0))) d (set c0 p0 sq P).
Proof.
  intros [Hr Hd] Hv Hc0 Hp0 Hsq. split; [now apply set_repr|].
  unfold key_delta. rewrite (key_board_set v P c0 p0 sq Hr Hv Hc0 Hp0 Hsq).
  cbn [key set]. rewrite <- Hd. unfold key_delta. xor_ring.
Qed.

Lemma hrepr_clear (v : view) (d : Z) (P : Position) (c0 p0 sq : Z) :
  hrepr v d P -> v sq = Some (c0, p0) ->
  hrepr (upd v sq None) d (clear c0 p0 sq P).
Proof.
  intros [Hr Hd] Hv. split; [now apply clear_repr|].
  unfold key_delta. rewrite (key_board_clear v P c0 p0 sq Hr Hv).
  cbn [key clear]. rewrite <- Hd. unfold key_delta. xor_ring.
Qed.

Lemma hrepr_same_board (v : view) (d : Z) (P Q : Position) :
  byColor Q = byColor P -> byPiece Q = byPiece P -> key Q = key P ->
  hrepr v d P -> hrepr v d Q.
Proof.
  intros HC HP HK [Hr Hd]. split; [now apply (repr_same_board v P)|].
  unfold key_delta. now rewrite HK, (key_board_same P Q HC HP).
Qed.

Lemma hrepr_ext (v w : view) (d : Z) (P : Position) :
  (forall s, v s = w s) -> hrepr v d P -> hrepr w d P.
Proof. intros Hvw [Hr Hd]. split; [now apply (repr_ext v)|exact Hd]. Qed.

End KeyBoard.

(** ** [play] on the board function *)

Section PlayBoard.
Context {ZS : Zobrist}.

Lemma upd_same (v : view) (sq : Z) (x : option (Z * Z)) : upd v sq x sq = x.
Proof. unfold upd. now rewrite Z.eqb_refl. Qed.

Lemma upd_other (v : view) (sq s : Z) (x : option (Z * Z)) :
  s <> sq -> upd v sq x s = v s.
Proof. intros H. unfold upd. now rewrite (proj2 (Z.eqb_neq s sq) H). Qed.

Lemma piece_ok_not_none (p : Z) : piece_ok p = true -> (p =? NB_PIECE) = false.
Proof. intros H. apply piece_ok_cases in H. apply Z.eqb_neq. unfold NB_PIECE. lia. Qed.

Lemma play_capture_repr (v : view) (d : Z) (P : Position) (m : Move) :
  hrepr v d P ->
  hrepr (upd v (tsq m) None) d
       (play_capture (if bb_test (occupied P) (tsq m) then piece_on P (tsq m)
                      else NB_PIECE) m P).
Proof.
  intros Hh. pose proof (proj1 Hh) as Hr.
  rewrite (repr_occupied v P (tsq m) Hr).
  destruct (v (tsq m)) as [[c0 p0]|] eqn:Hv.
  - rewrite (repr_piece_on v P _ c0 p0 Hr Hv).
    destruct (repr_dom v P Hr _ _ _ Hv) as (Hc0 & Hp0 & Hsq).
    unfold play_capture. rewrite (piece_ok_not_none p0 Hp0).
    change (color_on (with_rule50 0 P) (tsq m)) with (color_on P (tsq m)).
    rewrite (repr_color_on v P _ c0 p0 Hr Hv).
    assert (Hr' : hrepr (upd v (tsq m) None) d
                        (clear c0 p0 (tsq m) (with_rule50 0 P))).
    { apply hrepr_clear; [|exact Hv].
      eapply hrepr_same_board; [| | |exact Hh]; reflexivity. }
    destruct (p0 =? ROOK); [|exact Hr'].
    eapply hrepr_same_board; [| | |exact Hr']; reflexivity.
  - unfold play_capture. rewrite Z.eqb_refl.
    apply (hrepr_ext v); [|exact Hh].
    intros s. unfold upd. destruct (Z.eqb_spec s (tsq m)) as [->|]; congruence.
Qed.

Lemma push_inc_cases (c : Z) :
  color_ok c = true -> push_inc c = 8 \/ push_inc c = -8.
Proof.
  intros H. apply color_ok_cases in H. destruct H as [-> | ->]; cbn; auto.
Qed.

Lemma opposite_ok (c : Z) : color_ok c = true -> color_ok (opposite c) = true.
Proof. intros H. apply color_ok_cases in H. destruct H as [-> | ->]; reflexivity. Qed.

Lemma opposite_neq (c : Z) : color_ok c = true -> opposite c <> c.
Proof. intros H. apply color_ok_cases in H. destruct H as [-> | ->]; discriminate. Qed.

Lemma play_pawn_repr (v : view) (d : Z) (before P : Position) (us : Z) (m : Move) :
  hrepr v d P -> color_ok us = true ->
  v (tsq m) = Some (us, PAWN) ->
  (tsq m =? get_epsq before) = true -> v (tsq m - push_inc us) = Some (opposite us, PAWN) ->
  hrepr (upd v (tsq m - push_inc us) None) d
        (play_pawn before us (opposite us) PAWN m P).
Proof.
  intros Hr Hus Ht Hep Hpawn. unfold play_pawn. rewrite Hep.
  apply hrepr_clear; [|exact Hpawn].
  eapply hrepr_same_board; [| | |exact Hr]; reflexivity.
Qed.

Lemma play_pawn_repr_prom (v : view) (d : Z) (before P : Position) (us : Z) (m : Move) :
  hrepr v d P -> color_ok us = true ->
  v (tsq m) = Some (us, PAWN) ->
  (tsq m =? get_epsq before) = false ->
  (rank_of (tsq m) =? RANK_8) || (rank_of (tsq m) =? RANK_1) = true ->
  piece_ok (prom m) = true ->
  hrepr (upd v (tsq m) (Some (us, prom m))) d
        (play_pawn before us (opposite us) PAWN m P).
Proof.
  intros Hr Hus Ht Hep Hrank Hprom. unfold play_pawn. rewrite Hep, Hrank.
  destruct (repr_dom v P (proj1 Hr) _ _ _ Ht) as (_ & _ & Hsq).
  eapply hrepr_ext; [|apply hrepr_set; [apply hrepr_clear| | | |]].
  - intros s. unfold upd. destruct (s =? tsq m); reflexivity.
  - eapply hrepr_same_board; [| | |exact Hr]; reflexivity.
  - exact Ht.
  - apply upd_same.
  - exact Hus.
  - exact Hprom.
  - exact Hsq.
Qed.

Lemma play_pawn_repr_plain (v : view) (d : Z) (before P : Position) (us : Z) (m : Move) :
  hrepr v d P ->
  (tsq m =? get_epsq before) = false ->
  (rank_of (tsq m) =? RANK_8) || (rank_of (tsq m) =? RANK_1) = false ->
  hrepr v d (play_pawn before us (opposite us) PAWN m P).
Proof.
  intros Hr Hep Hrank. unfold play_pawn. rewrite Hep, Hrank.
  eapply hrepr_same_board; [| | |exact Hr]; reflexivity.
Qed.

Lemma play_piece_repr_plain (v : view) (d : Z) (before P : Position)
    (us piece : Z) (m : Move) :
  hrepr v d P ->
  (piece =? KING) && bb_test (arr (byColor before) us) (tsq m) = false ->
  hrepr v d (play_piece before us piece m P).
Proof.
  intros Hr Hc. unfold play_piece.
  destruct (piece =? ROOK).
  - eapply hrepr_same_board; [| | |exact Hr]; reflexivity.
  - destruct (piece =? KING); cbn in Hc.
    + rewrite Hc. eapply hrepr_same_board; [| | |exact Hr]; reflexivity.
    + eapply hrepr_same_board; [| | |exact Hr]; reflexivity.
Qed.

Lemma play_piece_repr_castle (v : view) (d : Z) (before P : Position)
    (us : Z) (m : Move) :
  hrepr v d P -> color_ok us = true ->
  bb_test (arr (byColor before) us) (tsq m) = true ->
  v (tsq m) = Some (us, KING) ->
  square_ok (castle_ksq m) = true -> square_ok (castle_rsq m) = true ->
  castle_ksq m <> castle_rsq m ->
  (castle_ksq m = tsq m \/ v (castle_ksq m) = None) ->
  (castle_rsq m = tsq m \/ v (castle_rsq m) = None) ->
  hrepr (upd (upd (upd v (tsq m) None) (castle_ksq m) (Some (us, KING)))
             (castle_rsq m) (Some (us, ROOK))) d
        (play_piece before us KING m P).
Proof.
  intros Hr Hus Hown Ht Hk Hrk Hne Hkv Hrv. unfold play_piece.
  change (KING =? ROOK) with false. change (KING =? KING) with true.
  cbv iota. rewrite Hown.
  fold (castle_ksq m). fold (castle_rsq m).
  apply hrepr_set; [apply hrepr_set; [apply hrepr_clear| | | |]| | | |];
    try assumption; try reflexivity.
  - eapply hrepr_same_board; [| | |exact Hr]; reflexivity.
  - unfold upd. destruct (Z.eqb_spec (castle_ksq m) (tsq m)); [reflexivity|].
    destruct Hkv; congruence.
  - unfold upd. rewrite (proj2 (Z.eqb_neq (castle_rsq m) (castle_ksq m))) by congruence.
    destruct (Z.eqb_spec (castle_rsq m) (tsq m)); [reflexivity|].
    destruct Hrv; congruence.
Qed.

End PlayBoard.

Section PlayRepr.
Context {ZS : Zobrist}.

Lemma rank_of_range (s : Z) : 0 <= s < 64 -> 0 <= rank_of s < 8.
Proof.
  intros Hs. unfold rank_of, NB_FILE. rewrite Z.quot_div_nonneg by lia.
  split; [apply Z.div_pos; lia | apply Z.div_lt_upper_bound; lia].
Qed.

Lemma castle_squares (m : Move) :
  0 <= fsq m < 64 ->
  square_ok (castle_ksq m) = true /\ square_ok (castle_rsq m) = true
  /\ castle_ksq m <> castle_rsq m.
Proof.
  intros Hf. pose proof (rank_of_range _ Hf) as Hr.
  unfold castle_ksq, castle_rsq, square_from, NB_FILE, FILE_G, FILE_C, FILE_F, FILE_D.
  rewrite !square_ok_range.
  destruct (fsq m <? tsq m); lia.
Qed.

Ltac upd_solve :=
  intros ?s; unfold upd;
  repeat match goal with
    | |- context [Z.eqb ?a ?b] => destruct (Z.eqb_spec a b)
    end;
  subst; try reflexivity; try congruence; try lia.

Lemma pos_ok_unfold (P : Position) :
  pos_ok P = true <->
  board_ok P = true /\ color_ok (turn P) = true /\ bb_ok (castlableRooks P) = true.
Proof. unfold pos_ok. rewrite !andb_true_iff. tauto. Qed.

(** Up to its last four statements, [play] turns the board into the board
    of [play_view] and keeps the key in step with it. *)
Lemma play_hrepr (P : Position) (m : Move) :
  pos_ok P = true -> move_ok P m = true ->
  exists X, play P m = play_finish P (opposite (turn P)) X
            /\ hrepr (play_view P m) (key_delta P) X.
Proof.
  intros Hpos Hmv. apply pos_ok_unfold in Hpos. destruct Hpos as (Hb & Hus & Hcr).
  pose proof (board_ok_repr P Hb) as Hr.
  assert (Hh : hrepr (piece_at P) (key_delta P) P) by (split; [exact Hr|reflexivity]).
  unfold move_ok in Hmv. rewrite !andb_true_iff in Hmv.
  destruct Hmv as (((((Hf & Ht) & Hne) & Hown) & Hcastle) & Hpawn).
  apply square_ok_range in Hf. pose proof Ht as Ht'. apply square_ok_range in Ht.
  apply negb_true_iff, Z.eqb_neq in Hne.
  pose proof (repr_color_at _ P _ _ Hr Hus Hown) as Hvf.
  destruct (repr_dom _ P Hr _ _ _ Hvf) as (_ & Hpc & _).
  unfold play, play_view.
  set (P0 := with_rule50 (wrap32 (rule50 P + 1)) P).
  change (turn P0) with (turn P).
  change (piece_on P0 (fsq m)) with (piece_on P (fsq m)).
  set (v := piece_at P) in *. set (us := turn P) in *.
  set (piece := piece_on P (fsq m)) in *. clearbody piece.
  set (d := key_delta P) in *. clearbody d.
  assert (Hr0 : hrepr v d P0)
    by (eapply hrepr_same_board; [| | |exact Hh]; reflexivity).
  pose proof (play_capture_repr v d P0 m Hr0) as H1.
  set (P1 := play_capture _ m P0) in *.
  assert (H2 : hrepr (upd (upd v (tsq m) None) (fsq m) None) d
                     (clear us piece (fsq m) P1)).
  { apply hrepr_clear; [exact H1|]. rewrite upd_other by exact Hne. exact Hvf. }
  set (P2 := clear us piece (fsq m) P1) in *.
  assert (H3 : hrepr (upd (upd (upd v (tsq m) None) (fsq m) None) (tsq m)
                          (Some (us, piece))) d
                     (set us piece (tsq m) P2)).
  { apply hrepr_set; try assumption.
    rewrite upd_other by congruence. apply upd_same. }
  set (P3 := set us piece (tsq m) P2) in *.
  set (v3 := upd (upd (upd v (tsq m) None) (fsq m) None) (tsq m) (Some (us, piece))) in *.
  eexists. split; [reflexivity|].
  match goal with |- hrepr ?w _ _ => set (w' := w) end.
  assert (H4 : hrepr w' d
                 (if piece =? PAWN then play_pawn P us (opposite us) piece m P3
                  else play_piece P us piece m P3)).
  { destruct (Z.eqb_spec piece PAWN) as [Hp|Hp].
    - subst piece.
      destruct (tsq m =? get_epsq P) eqn:Hep.
      + apply andb_true_iff in Hpawn. destruct Hpawn as [Hemp Hbehind].
        apply (repr_get v P (opposite us) PAWN _ Hr (opposite_ok _ Hus) eq_refl) in Hbehind.
        fold us in Hbehind.
        pose proof (opposite_neq _ Hus) as Hopp.
        pose proof (push_inc_cases _ Hus) as Hpush.
        eapply hrepr_ext; [|apply (play_pawn_repr v3 d P P3 us m H3 Hus)].
        * unfold v3, w'. upd_solve.
        * apply upd_same.
        * exact Hep.
        * unfold v3. rewrite !upd_other; [exact Hbehind | lia | congruence | lia].
      + destruct ((rank_of (tsq m) =? RANK_8) || (rank_of (tsq m) =? RANK_1)) eqn:Hrank.
        * eapply hrepr_ext;
            [|apply (play_pawn_repr_prom v3 d P P3 us m H3 Hus); try assumption].
          -- unfold v3, w'. upd_solve.
          -- apply upd_same.
          -- apply andb_true_iff in Hpawn. destruct Hpawn as [Hlo Hhi].
             apply Z.leb_le in Hlo, Hhi. apply piece_ok_cases.
             unfold QUEEN in Hhi. lia.
        * eapply hrepr_ext;
            [|apply (play_pawn_repr_plain v3 d P P3 us m H3); assumption].
          unfold v3, w'. upd_solve.
    - fold (color_bit P us (tsq m)).
      destruct ((piece =? KING) && color_bit P us (tsq m)) eqn:Hc.
      + apply andb_true_iff in Hc. destruct Hc as [Hk Hown2].
        apply Z.eqb_eq in Hk. subst piece.
        rewrite Hown2 in Hcastle. rewrite !andb_true_iff in Hcastle.
        destruct Hcastle as (((_ & Hrook) & Hkv) & Hrv).
        destruct (castle_squares m Hf) as (Hks & Hrs & Hkr).
        eapply hrepr_ext;
          [|apply (play_piece_repr_castle v3 d P P3 us m H3 Hus); try assumption].
        * unfold v3, w'. upd_solve.
        * apply upd_same.
        * unfold vacant_for_castling in Hkv. rewrite !orb_true_iff in Hkv.
          destruct Hkv as [[Hkv|Hkv]|Hkv].
          -- apply Z.eqb_eq in Hkv. right. unfold v3. rewrite Hkv.
             rewrite upd_other by congruence. apply upd_same.
          -- apply Z.eqb_eq in Hkv. now left.
          -- apply negb_true_iff in Hkv.
             pose proof (repr_unoccupied v P _ Hr Hkv) as Hn.
             destruct (Z.eq_dec (castle_ksq m) (tsq m)) as [|Hn1]; [now left|right].
             unfold v3. rewrite upd_other by exact Hn1.
             unfold upd. destruct (_ =? fsq m); [reflexivity|].
             destruct (_ =? tsq m); [reflexivity|exact Hn].
        * unfold vacant_for_castling in Hrv. rewrite !orb_true_iff in Hrv.
          destruct Hrv as [[Hrv|Hrv]|Hrv].
          -- apply Z.eqb_eq in Hrv. right. unfold v3. rewrite Hrv.
             rewrite upd_other by congruence. apply upd_same.
          -- apply Z.eqb_eq in Hrv. now left.
          -- apply negb_true_iff in Hrv.
             pose proof (repr_unoccupied v P _ Hr Hrv) as Hn.
             destruct (Z.eq_dec (castle_rsq m) (tsq m)) as [|Hn1]; [now left|right].
             unfold v3. rewrite upd_other by exact Hn1.
             unfold upd. destruct (_ =? fsq m); [reflexivity|].
             destruct (_ =? tsq m); [reflexivity|exact Hn].
      + eapply hrepr_ext;
          [|apply (play_piece_repr_plain v3 d P P3 us piece m H3 Hc)].
        unfold v3, w'. upd_solve. }
  exact H4.
Qed.

(** The board after [play] is the board of [play_view]. *)
Theorem play_repr (P : Position) (m : Move) :
  pos_ok P = true -> move_ok P m = true ->
  repr (play_view P m) (play P m).
Proof.
  intros Hpos Hmv. destruct (play_hrepr P m Hpos Hmv) as (X & -> & [Hr _]).
  eapply repr_same_board; [| |exact Hr]; reflexivity.
Qed.


End PlayRepr.

(** ** The scalar fields after [play] *)

Section PlayFields.
Context {ZS : Zobrist}.

Lemma play_epSquare (P : Position) (m : Move) :
  epSquare (play P m)
  = if is_double_push P m then fsq m + push_inc (turn P) else NB_SQUARE.
Proof.
  unfold play, play_finish, play_pawn, play_piece, is_double_push, is_pawn_move.
  change (piece_on (with_rule50 (wrap32 (rule50 P + 1)) P) (fsq m))
    with (piece_on P (fsq m)).
  change (turn (with_rule50 (wrap32 (rule50 P + 1)) P)) with (turn P).
  destruct (piece_on P (fsq m) =? PAWN); cbn [andb].
  - destruct (tsq m =? get_epsq P); [reflexivity|].
    destruct ((rank_of (tsq m) =? RANK_8) || (rank_of (tsq m) =? RANK_1));
      reflexivity.
  - destruct (piece_on P (fsq m) =? ROOK); [reflexivity|].
    destruct (piece_on P (fsq m) =? KING); [|reflexivity].
    destruct (bb_test (arr (byColor P) (turn P)) (tsq m)); reflexivity.
Qed.

Lemma play_capture_rule50 (cap : Z) (m : Move) (P : Position) :
  rule50 (play_capture cap m P) = if cap =? NB_PIECE then rule50 P else 0.
Proof.
  unfold play_capture. destruct (cap =? NB_PIECE); [reflexivity|].
  destruct (cap =? ROOK); reflexivity.
Qed.

Lemma play_rule50_raw (P : Position) (m : Move) :
  rule50 (play P m)
  = if is_pawn_move P m then 0
    else if (if bb_test (occupied P) (tsq m) then piece_on P (tsq m)
             else NB_PIECE) =? NB_PIECE
         then wrap32 (rule50 P + 1) else 0.
Proof.
  unfold play, play_finish, play_pawn, play_piece, is_pawn_move.
  change (piece_on (with_rule50 (wrap32 (rule50 P + 1)) P)) with (piece_on P).
  change (occupied (with_rule50 (wrap32 (rule50 P + 1)) P)) with (occupied P).
  change (turn (with_rule50 (wrap32 (rule50 P + 1)) P)) with (turn P).
  destruct (piece_on P (fsq m) =? PAWN).
  - destruct (tsq m =? get_epsq P); [reflexivity|].
    destruct ((rank_of (tsq m) =? RANK_8) || (rank_of (tsq m) =? RANK_1));
      reflexivity.
  - assert (forall Q, rule50 (play_piece P (turn P) (piece_on P (fsq m)) m Q) = rule50 Q)
      as Hpp.
    { intros Q. unfold play_piece.
      destruct (piece_on P (fsq m) =? ROOK); [reflexivity|].
      destruct (piece_on P (fsq m) =? KING); [|reflexivity].
      destruct (bb_test (arr (byColor P) (turn P)) (tsq m)); reflexivity. }
    cbn [rule50 with_key with_turn]. unfold play_piece in *.
    rewrite Hpp. cbn [rule50 set clear]. apply play_capture_rule50.
Qed.

Lemma play_capture_castlableRooks (cap : Z) (m : Move) (P : Position) :
  castlableRooks (play_capture cap m P)
  = if negb (cap =? NB_PIECE) && (cap =? ROOK)
    then Z.land (castlableRooks P) (not64 (shl64 1 (tsq m)))
    else castlableRooks P.
Proof.
  unfold play_capture. destruct (cap =? NB_PIECE); [reflexivity|].
  destruct (cap =? ROOK); reflexivity.
Qed.

Lemma play_castlableRooks (P : Position) (m : Move) :
  let cap := if bb_test (occupied P) (tsq m) then piece_on P (tsq m)
             else NB_PIECE in
  let cr1 := if negb (cap =? NB_PIECE) && (cap =? ROOK)
             then Z.land (castlableRooks P) (not64 (shl64 1 (tsq m)))
             else castlableRooks P in
  castlableRooks (play P m)
  = if is_pawn_move P m then cr1
    else if piece_on P (fsq m) =? ROOK
         then Z.land cr1 (not64 (shl64 1 (fsq m)))
    else if piece_on P (fsq m) =? KING
         then Z.land cr1 (not64 (bb_rank (turn P * RANK_8)))
    else cr1.
Proof.
  intros cap cr1.
  unfold play, play_finish, play_pawn, play_piece, is_pawn_move.
  change (piece_on (with_rule50 (wrap32 (rule50 P + 1)) P)) with (piece_on P).
  change (occupied (with_rule50 (wrap32 (rule50 P + 1)) P)) with (occupied P).
  change (turn (with_rule50 (wrap32 (rule50 P + 1)) P)) with (turn P).
  fold cap.
  pose proof (play_capture_castlableRooks cap m
                (with_rule50 (wrap32 (rule50 P + 1)) P)) as Hc.
  change (castlableRooks (with_rule50 (wrap32 (rule50 P + 1)) P))
    with (castlableRooks P) in Hc. fold cr1 in Hc.
  destruct (piece_on P (fsq m) =? PAWN).
  - destruct (tsq m =? get_epsq P); [exact Hc|].
    destruct ((rank_of (tsq m) =? RANK_8) || (rank_of (tsq m) =? RANK_1));
      exact Hc.
  - destruct (piece_on P (fsq m) =? ROOK).
    + cbn. cbn in Hc. now rewrite Hc.
    + destruct (piece_on P (fsq m) =? KING); [|exact Hc].
      destruct (bb_test (arr (byColor P) (turn P)) (tsq m));
        cbn; cbn in Hc; now rewrite Hc.
Qed.

Lemma play_turn (P : Position) (m : Move) : turn (play P m) = opposite (turn P).
Proof. reflexivity. Qed.

End PlayFields.

(** ** Castling rights, en-passant square and the reversible-move counter *)

Section PlayScalars.
Context {ZS : Zobrist}.

Lemma land_bit_l (a b i : Z) :
  Z.testbit (Z.land a b) i = true -> Z.testbit a i = true.
Proof. rewrite Z.land_spec. now intros [H _]%andb_true_iff. Qed.

(** C5: the castling rights of the child are a subset of the castling
    rights of the parent: [play] clears bits of [castlableRooks] and sets
    none. *)
Theorem C5_castling_rights_monotone (P : Position) (m : Move) :
  (forall s, bb_test (castlableRooks (play P m)) s = true ->
             bb_test (castlableRooks P) s = true)
  /\ Z.land (castlableRooks (play P m)) (castlableRooks P)
     = castlableRooks (play P m).
Proof.
  assert (H : forall s, bb_test (castlableRooks (play P m)) s = true ->
                        bb_test (castlableRooks P) s = true).
  { intros s. unfold bb_test. rewrite play_castlableRooks. cbv zeta.
    match goal with
    | |- context [if negb ?a && ?b then ?x else ?y] =>
        set (cr1 := if negb a && b then x else y)
    end.
    assert (H1 : Z.testbit cr1 s = true -> Z.testbit (castlableRooks P) s = true).
    { unfold cr1.
      match goal with |- context [if ?c then _ else _] => destruct c end;
        [apply land_bit_l | auto]. }
    destruct (is_pawn_move P m); [exact H1|].
    destruct (piece_on P (fsq m) =? ROOK);
      [intros H%land_bit_l; auto|].
    destruct (piece_on P (fsq m) =? KING);
      [intros H%land_bit_l; auto | exact H1]. }
  split; [exact H|].
  apply Z.bits_inj'. intros s _. rewrite Z.land_spec.
  specialize (H s). unfold bb_test in H.
  destruct (Z.testbit (castlableRooks (play P m)) s); [|reflexivity].
  now rewrite H.
Qed.

Lemma piece_on_pawn_bit (P : Position) (s : Z) :
  (piece_on P s =? PAWN) = piece_bit P PAWN s.
Proof.
  unfold piece_on, piece_bit.
  destruct (bb_test (arr (byPiece P) PAWN) s) eqn:E; [reflexivity|].
  unfold all_pieces. cbn [piece_scan]. rewrite E.
  repeat match goal with
  | |- context [if ?b then _ else _] => destruct b; [reflexivity|]
  end.
  reflexivity.
Qed.

Lemma destination_occupied_eq (P : Position) (m : Move) :
  destination_occupied P m = bb_test (occupied P) (tsq m).
Proof.
  unfold destination_occupied, color_bit, occupied, bb_test.
  now rewrite Z.lor_spec.
Qed.

Lemma forward_push_inc (c : Z) : color_ok c = true -> push_inc c = forward c.
Proof.
  intros Hc. apply color_ok_cases in Hc. destruct Hc as [-> | ->]; reflexivity.
Qed.

Lemma two_square_advance_eq (P : Position) (m : Move) :
  color_ok (turn P) = true -> is_double_push P m = two_square_advance P m.
Proof.
  intros Hc. unfold is_double_push, is_pawn_move, two_square_advance, pawn_moves.
  now rewrite piece_on_pawn_bit, (forward_push_inc _ Hc).
Qed.

(** C7 (corrected): after [play] the en-passant square is the square
    passed over, one rank forward of the origin and a square of the board,
    exactly when a pawn advanced two squares, and the sentinel [NB_SQUARE]
    after every other move.  The pawn and the two-square advance are read
    off the parent's bitboards.  That the number [epSquare] equals origin
    plus one push increment does not by itself tell a two-square advance:
    the sentinel is that number for a white man leaving a8. *)
Theorem C7_en_passant_square (P : Position) (m : Move) :
  pos_ok P = true -> move_ok P m = true ->
  epSquare (play P m)
  = (if two_square_advance P m then fsq m + forward (turn P) else NB_SQUARE)
  /\ (two_square_advance P m = true ->
        square_ok (fsq m + forward (turn P)) = true)
  /\ ((epSquare (play P m) = fsq m + forward (turn P)
       /\ square_ok (epSquare (play P m)) = true)
      <-> two_square_advance P m = true)
  /\ (epSquare (play P m) <> NB_SQUARE <-> two_square_advance P m = true).
Proof.
  intros Hpos Hmv. apply pos_ok_unfold in Hpos. destruct Hpos as (_ & Hus & _).
  unfold move_ok in Hmv. rewrite !andb_true_iff in Hmv.
  destruct Hmv as (((((Hf & Ht) & _) & _) & _) & _).
  apply square_ok_range in Hf, Ht.
  rewrite play_epSquare, (two_square_advance_eq P m Hus),
    (forward_push_inc _ Hus).
  assert (Hfw : forward (turn P) = 8 \/ forward (turn P) = -8).
  { apply color_ok_cases in Hus. destruct Hus as [-> | ->]; auto. }
  destruct (two_square_advance P m) eqn:Hd.
  - assert (Hsq : 0 <= fsq m + forward (turn P) < 64).
    { unfold two_square_advance in Hd. apply andb_true_iff in Hd.
      destruct Hd as [_ Hd]. apply Z.eqb_eq in Hd. lia. }
    split; [reflexivity|].
    split; [intros _; now apply square_ok_range|].
    split; [split; [reflexivity | intros _; split;
                                  [reflexivity | now apply square_ok_range]]|].
    split; [reflexivity | intros _]. unfold NB_SQUARE. lia.
  - split; [reflexivity|].
    split; [discriminate|].
    split; split; try discriminate.
    + intros [_ H]. discriminate H.
    + intros H. now destruct H.
Qed.

Lemma repr_occupied_piece (P : Position) (s : Z) :
  board_ok P = true -> bb_test (occupied P) s = true ->
  piece_ok (piece_on P s) = true.
Proof.
  intros Hb Hocc. pose proof (board_ok_repr P Hb) as Hr.
  pose proof (repr_occupied _ P s Hr) as Ho. rewrite Hocc in Ho.
  destruct (piece_at P s) as [[c p]|] eqn:Hv; [|discriminate].
  rewrite (repr_piece_on _ P s c p Hr Hv).
  destruct (repr_dom (piece_at P) P Hr s c p Hv) as (_ & Hp & _). exact Hp.
Qed.

(** C8: after [play] the counter [rule50] is [0] when the destination was
    occupied in the parent (a capture) or the moving piece is a pawn, and the
    parent's counter plus one after every other move.  The occupied
    destination and the pawn are read off the parent's bitboards. *)
Theorem C8_rule50 (P : Position) (m : Move) :
  pos_ok P = true -> INT_MIN <= rule50 P < INT_MAX ->
  rule50 (play P m)
  = if destination_occupied P m || pawn_moves P m then 0 else rule50 P + 1.
Proof.
  intros Hpos Hr50. apply pos_ok_unfold in Hpos. destruct Hpos as (Hb & _ & _).
  rewrite play_rule50_raw, destination_occupied_eq.
  unfold is_pawn_move, pawn_moves. rewrite piece_on_pawn_bit.
  destruct (piece_bit P PAWN (fsq m)); [now rewrite orb_true_r|].
  rewrite orb_false_r.
  destruct (bb_test (occupied P) (tsq m)) eqn:Hocc.
  - now rewrite (piece_ok_not_none _ (repr_occupied_piece P _ Hb Hocc)).
  - rewrite Z.eqb_refl. unfold wrap32, INT_MIN, INT_MAX in *.
    rewrite Z.mod_small; lia.
Qed.

End PlayScalars.

(** ** The board after [play] *)

Section PlayBoardFacts.
Context {ZS : Zobrist}.

Lemma repr_get_bit (v : view) (P : Position) (c p s : Z) :
  repr v P -> v s = Some (c, p) -> bb_test (get P c p) s = true.
Proof.
  intros Hr Hv. destruct (repr_dom v P Hr _ _ _ Hv) as (Hc & Hp & _).
  unfold get, bb_test. rewrite Z.land_spec.
  pose proof (repr_color v P Hr c s Hc) as HC.
  pose proof (repr_piece v P Hr p s Hp) as HP.
  unfold color_bit, piece_bit, bb_test, view_color, view_piece in HC, HP.
  rewrite Hv, Z.eqb_refl in HC, HP. now rewrite HC, HP.
Qed.

Lemma play_piece_at (P : Position) (m : Move) (s : Z) :
  pos_ok P = true -> move_ok P m = true ->
  piece_at (play P m) s = play_view P m s.
Proof. intros Hpos Hmv. apply repr_piece_at, play_repr; assumption. Qed.

Lemma play_board_ok (P : Position) (m : Move) :
  pos_ok P = true -> move_ok P m = true -> board_ok (play P m) = true.
Proof.
  intros Hpos Hmv. apply (repr_board_ok (play_view P m)), play_repr; assumption.
Qed.

Lemma play_pos_ok (P : Position) (m : Move) :
  pos_ok P = true -> move_ok P m = true -> pos_ok (play P m) = true.
Proof.
  intros Hpos Hmv. apply pos_ok_unfold. split; [now apply play_board_ok|].
  apply pos_ok_unfold in Hpos. destruct Hpos as (_ & Hus & Hcr).
  split; [rewrite play_turn; now apply opposite_ok|].
  rewrite play_castlableRooks. cbv zeta.
  match goal with
  | |- context [if negb ?a && ?b then ?x else ?y] =>
      set (cr1 := if negb a && b then x else y)
  end.
  assert (H1 : bb_ok cr1 = true).
  { unfold cr1.
    match goal with |- context [if ?c then _ else _] => destruct c end;
      [now apply bb_ok_land_l | exact Hcr]. }
  destruct (is_pawn_move P m); [exact H1|].
  destruct (piece_on P (fsq m) =? ROOK); [now apply bb_ok_land_l|].
  destruct (piece_on P (fsq m) =? KING); [now apply bb_ok_land_l | exact H1].
Qed.

(** C6: when the king moves onto a man of its own side (the castling
    encoding), the child has the king on file G (destination greater than
    origin) or file C, and the rook on file F or file D, both on the rank the
    king started from; the origin and the destination are otherwise empty
    and every other square is as in the parent. *)
Theorem C6_castling (P : Position) (m : Move) :
  pos_ok P = true -> move_ok P m = true ->
  piece_on P (fsq m) = KING -> color_bit P (turn P) (tsq m) = true ->
  let us := turn P in
  let ksq := castle_ksq m in
  let rsq := castle_rsq m in
  piece_at (play P m) ksq = Some (us, KING)
  /\ piece_at (play P m) rsq = Some (us, ROOK)
  /\ bb_test (get (play P m) us KING) ksq = true
  /\ bb_test (get (play P m) us ROOK) rsq = true
  /\ rank_of ksq = rank_of (fsq m) /\ rank_of rsq = rank_of (fsq m)
  /\ file_of ksq = (if fsq m <? tsq m then FILE_G else FILE_C)
  /\ file_of rsq = (if fsq m <? tsq m then FILE_F else FILE_D)
  /\ (forall s, s <> ksq -> s <> rsq ->
        piece_at (play P m) s
        = if (s =? fsq m) || (s =? tsq m) then None else piece_at P s).
Proof.
  intros Hpos Hmv Hking Hown us ksq rsq.
  pose proof (play_repr P m Hpos Hmv) as Hr.
  assert (Hf : 0 <= fsq m < 64).
  { unfold move_ok in Hmv. rewrite !andb_true_iff in Hmv.
    destruct Hmv as (((((Hf & _) & _) & _) & _) & _).
    now apply square_ok_range. }
  destruct (castle_squares m Hf) as (Hks & Hrs & Hkr).
  pose proof (rank_of_range _ Hf) as Hrank.
  assert (Hview : forall s, play_view P m s
            = upd (upd (upd (upd (piece_at P) (fsq m) None) (tsq m) None)
                       ksq (Some (us, KING))) rsq (Some (us, ROOK)) s).
  { intros s. unfold play_view. rewrite Hking.
    change (KING =? PAWN) with false. change (KING =? KING) with true.
    cbv iota. cbn [andb]. now rewrite Hown. }
  assert (Hk : play_view P m ksq = Some (us, KING)).
  { rewrite Hview. rewrite upd_other by exact Hkr. apply upd_same. }
  assert (Hrk : play_view P m rsq = Some (us, ROOK)).
  { rewrite Hview. apply upd_same. }
  split; [rewrite (repr_piece_at _ _ _ Hr); exact Hk|].
  split; [rewrite (repr_piece_at _ _ _ Hr); exact Hrk|].
  split; [exact (repr_get_bit _ _ _ _ _ Hr Hk)|].
  split; [exact (repr_get_bit _ _ _ _ _ Hr Hrk)|].
  unfold ksq, rsq, castle_ksq, castle_rsq.
  assert (HG : 0 <= FILE_G < 8) by (unfold FILE_G; lia).
  assert (HC : 0 <= FILE_C < 8) by (unfold FILE_C; lia).
  assert (HF : 0 <= FILE_F < 8) by (unfold FILE_F; lia).
  assert (HD : 0 <= FILE_D < 8) by (unfold FILE_D; lia).
  destruct (rank_file_square_from _ _ Hrank HG) as [HG1 HG2].
  destruct (rank_file_square_from _ _ Hrank HC) as [HC1 HC2].
  destruct (rank_file_square_from _ _ Hrank HF) as [HF1 HF2].
  destruct (rank_file_square_from _ _ Hrank HD) as [HD1 HD2].
  split; [destruct (fsq m <? tsq m); assumption|].
  split; [destruct (fsq m <? tsq m); assumption|].
  split; [destruct (fsq m <? tsq m); assumption|].
  split; [destruct (fsq m <? tsq m); assumption|].
  intros s Hsk Hsr. rewrite (repr_piece_at _ _ _ Hr), Hview.
  fold (castle_ksq m) in Hsk. fold (castle_rsq m) in Hsr.
  rewrite !upd_other by assumption.
  unfold upd. destruct (s =? tsq m), (s =? fsq m); reflexivity.
Qed.

End PlayBoardFacts.

(** ** Captures *)

Section Capture.
Context {ZS : Zobrist}.

Lemma play_split (P : Position) (m : Move) :
  play P m = play_after_capture P m (play_captured P m).
Proof. reflexivity. Qed.

Lemma repr_color_eq (v w : view) (P Q : Position) (c : Z) :
  repr v P -> repr w Q -> color_ok c = true ->
  (forall s, view_color w c s = view_color v c s) ->
  arr (byColor Q) c = arr (byColor P) c.
Proof.
  intros HP HQ Hc Hvw. apply Z.bits_inj'. intros s _.
  pose proof (repr_color v P HP c s Hc) as H1.
  pose proof (repr_color w Q HQ c s Hc) as H2.
  unfold color_bit, bb_test in H1, H2. now rewrite H1, H2.
Qed.

Lemma repr_color_cleared (v w : view) (P Q : Position) (c sq : Z) :
  repr v P -> repr w Q -> color_ok c = true -> 0 <= sq < 64 ->
  (forall s, view_color w c s = view_color v c s && negb (s =? sq)) ->
  arr (byColor Q) c = bb_clear (arr (byColor P) c) sq.
Proof.
  intros HP HQ Hc Hsq Hvw. apply Z.bits_inj'. intros s _.
  rewrite bb_clear_bits by (try apply (repr_okC v P HP c Hc); lia).
  pose proof (repr_color v P HP c s Hc) as H1.
  pose proof (repr_color w Q HQ c s Hc) as H2.
  unfold color_bit, bb_test in H1, H2. now rewrite H1, H2.
Qed.

Lemma play_captured_eq (P : Position) (m : Move) (c0 p0 : Z) :
  board_ok P = true -> piece_at P (tsq m) = Some (c0, p0) ->
  play_captured P m
  = (if p0 =? ROOK
     then with_castlableRooks
            (Z.land (castlableRooks P) (not64 (shl64 1 (tsq m))))
     else fun Q => Q)
      (clear c0 p0 (tsq m) (with_rule50 0 P)).
Proof.
  intros Hb Hv. pose proof (board_ok_repr P Hb) as Hr.
  destruct (repr_dom _ P Hr _ _ _ Hv) as (_ & Hp0 & _).
  unfold play_captured.
  change (occupied (with_rule50 (wrap32 (rule50 P + 1)) P)) with (occupied P).
  change (piece_on (with_rule50 (wrap32 (rule50 P + 1)) P)) with (piece_on P).
  rewrite (repr_occupied _ P _ Hr), Hv, (repr_piece_on _ P _ _ _ Hr Hv).
  unfold play_capture. rewrite (piece_ok_not_none _ Hp0).
  change (color_on (with_rule50 0 (with_rule50 (wrap32 (rule50 P + 1)) P)) (tsq m))
    with (color_on P (tsq m)).
  rewrite (repr_color_on _ P _ _ _ Hr Hv).
  destruct (p0 =? ROOK); reflexivity.
Qed.


End Capture.

(** ** [play] writes [*this] and nothing else *)

Section PlayObj.
Context {ZS : Zobrist}.
Implicit Types (h : gmap nat Position) (this before : nat).

Lemma stmt_step this before f h t b :
  this <> before -> h !! before = Some b ->
  stmt this before f (<[this := t]> h) = Some (<[this := f t b]> h).
Proof.
  intros Hne Hb. unfold stmt.
  rewrite lookup_insert_eq. cbn.
  rewrite lookup_insert_ne by exact Hne. rewrite Hb. cbn.
  now rewrite insert_insert_eq.
Qed.

Lemma play_capture_obj_step this before cap m h t b :
  this <> before -> h !! before = Some b ->
  play_capture_obj this before cap m (<[this := t]> h)
  = Some (<[this := play_capture cap m t]> h).
Proof.
  intros Hne Hb. unfold play_capture_obj, play_capture.
  destruct (cap =? NB_PIECE); [reflexivity|].
  rewrite (stmt_step _ _ _ _ _ b Hne Hb). cbn.
  rewrite (stmt_step _ _ _ _ _ b Hne Hb). cbn.
  destruct (cap =? ROOK); [|reflexivity].
  now rewrite (stmt_step _ _ _ _ _ b Hne Hb).
Qed.

Lemma play_pawn_obj_step this before us them piece m h t b :
  this <> before -> h !! before = Some b ->
  play_pawn_obj this before us them piece m (<[this := t]> h)
  = Some (<[this := play_pawn b us them piece m t]> h).
Proof.
  intros Hne Hb. unfold play_pawn_obj, play_pawn.
  rewrite (stmt_step _ _ _ _ _ b Hne Hb). cbn.
  rewrite (stmt_step _ _ _ _ _ b Hne Hb). cbn.
  rewrite lookup_insert_ne by exact Hne. rewrite Hb. cbn.
  destruct (tsq m =? get_epsq b).
  - now rewrite (stmt_step _ _ _ _ _ b Hne Hb).
  - destruct ((rank_of (tsq m) =? RANK_8) || (rank_of (tsq m) =? RANK_1));
      [|reflexivity].
    rewrite (stmt_step _ _ _ _ _ b Hne Hb). cbn.
    now rewrite (stmt_step _ _ _ _ _ b Hne Hb).
Qed.

Lemma play_piece_obj_step this before us piece m h t b :
  this <> before -> h !! before = Some b ->
  play_piece_obj this before us piece m (<[this := t]> h)
  = Some (<[this := play_piece b us piece m t]> h).
Proof.
  intros Hne Hb. unfold play_piece_obj, play_piece.
  rewrite (stmt_step _ _ _ _ _ b Hne Hb). cbn.
  destruct (piece =? ROOK).
  - now rewrite (stmt_step _ _ _ _ _ b Hne Hb).
  - destruct (piece =? KING); [|reflexivity].
    rewrite (stmt_step _ _ _ _ _ b Hne Hb). cbn.
    rewrite lookup_insert_ne by exact Hne. rewrite Hb. cbn.
    destruct (bb_test (arr (byColor b) us) (tsq m)); [|reflexivity].
    rewrite (stmt_step _ _ _ _ _ b Hne Hb). cbn.
    rewrite (stmt_step _ _ _ _ _ b Hne Hb). cbn.
    now rewrite (stmt_step _ _ _ _ _ b Hne Hb).
Qed.

Lemma play_obj_distinct this before m h t0 P :
  this <> before -> h !! before = Some P -> h !! this = Some t0 ->
  play_obj this before m h = Some (<[this := play P m]> h).
Proof.
  intros Hne Hb Ht. unfold play_obj, play.
  rewrite <- (insert_id h this t0 Ht) at 1.
  rewrite (stmt_step _ _ _ _ _ P Hne Hb). cbn.
  rewrite (stmt_step _ _ _ _ _ P Hne Hb). cbn.
  rewrite lookup_insert_eq. cbn.
  rewrite (play_capture_obj_step _ _ _ _ _ _ P Hne Hb). cbn.
  rewrite (stmt_step _ _ _ _ _ P Hne Hb). cbn.
  rewrite (stmt_step _ _ _ _ _ P Hne Hb). cbn.
  set (piece := piece_on _ (fsq m)).
  assert (Hbr : forall t,
    (if piece =? PAWN
     then play_pawn_obj this before (turn P) (opposite (turn P)) piece m (<[this := t]> h)
     else play_piece_obj this before (turn P) piece m (<[this := t]> h))
    = Some (<[this := if piece =? PAWN
                      then play_pawn P (turn P) (opposite (turn P)) piece m t
                      else play_piece P (turn P) piece m t]> h)).
  { intros t. destruct (piece =? PAWN).
    - apply play_pawn_obj_step; assumption.
    - apply play_piece_obj_step; assumption. }
  rewrite Hbr. cbn.
  rewrite (stmt_step _ _ _ _ _ P Hne Hb). cbn.
  rewrite (stmt_step _ _ _ _ _ P Hne Hb). cbn.
  rewrite (stmt_step _ _ _ _ _ P Hne Hb). cbn.
  rewrite (stmt_step _ _ _ _ _ P Hne Hb).
  reflexivity.
Qed.

(** C3: [play] called on an object other than [before] gives that object
    the new position and leaves [before], with all its fields, and every
    other object as they were. *)
Theorem C3_play_frame this before m h (t0 P : Position) :
  this <> before -> h !! before = Some P -> h !! this = Some t0 ->
  exists h',
    play_obj this before m h = Some h'
    /\ h' !! before = Some P
    /\ h' !! this = Some (play P m)
    /\ (forall a, a <> this -> h' !! a = h !! a).
Proof.
  intros Hne Hb Ht. exists (<[this := play P m]> h).
  split; [exact (play_obj_distinct this before m h t0 P Hne Hb Ht)|].
  split; [now rewrite lookup_insert_ne|].
  split; [apply lookup_insert_eq|].
  intros a Ha. now rewrite lookup_insert_ne.
Qed.

End PlayObj.

(** ** The key after [play] *)

Section PlayKey.
Context {ZS : Zobrist}.

Lemma key_scratch_eq (P : Position) :
  key_scratch P
  = Z.lxor (key_board P) (if turn P =? BLACK then zobrist_turn else 0).
Proof.
  unfold key_scratch. destruct (turn P =? BLACK); [reflexivity|].
  now rewrite Z.lxor_0_r.
Qed.

Lemma key_ok_residual (P : Position) : key_ok P = true <-> key_residual P = 0.
Proof.
  unfold key_ok, key_residual. rewrite Z.eqb_eq, Z.lxor_eq_0_iff.
  split; congruence.
Qed.

(** [play] moves the key along with the board and the turn, and adds the
    en-passant and castling terms of the parent and of the child. *)
Theorem play_key_residual (P : Position) (m : Move) :
  pos_ok P = true -> move_ok P m = true ->
  key_residual (play P m)
  = Z.lxor (key_residual P)
      (Z.lxor
         (Z.lxor (zobrist_ep (get_epsq P)) (zobrist_ep (epSquare (play P m))))
         (zobrist_castling
            (Z.lxor (castlableRooks P) (castlableRooks (play P m))))).
Proof.
  intros Hpos Hmv.
  destruct (play_hrepr P m Hpos Hmv) as (X & HX & [Hr Hd]).
  apply pos_ok_unfold in Hpos. destruct Hpos as (_ & Hus & _).
  rewrite HX. unfold key_residual. rewrite !key_scratch_eq.
  rewrite (key_board_same X (play_finish P (opposite (turn P)) X)) by reflexivity.
  cbn [play_finish key turn epSquare castlableRooks with_key with_turn].
  unfold key_delta in Hd.
  assert (Hk : key X = Z.lxor (Z.lxor (key P) (key_board P)) (key_board X)).
  { rewrite <- Hd. xor_ring. }
  rewrite Hk.
  apply color_ok_cases in Hus. destruct Hus as [-> | ->].
  - change (opposite 0 =? BLACK) with true. change (0 =? BLACK) with false.
    xor_ring.
  - change (opposite 1 =? BLACK) with false. change (1 =? BLACK) with true.
    xor_ring.
Qed.

(** The assertion [key_ok()] at the end of [play] holds exactly when the
    en-passant and castling terms [play] adds cancel. *)
Corollary play_key_ok (P : Position) (m : Move) :
  pos_ok P = true -> move_ok P m = true -> key_ok P = true ->
  (key_ok (play P m) = true <->
   Z.lxor
     (Z.lxor (zobrist_ep (get_epsq P)) (zobrist_ep (epSquare (play P m))))
     (zobrist_castling (Z.lxor (castlableRooks P) (castlableRooks (play P m))))
   = 0).
Proof.
  intros Hpos Hmv Hk. apply key_ok_residual in Hk.
  rewrite key_ok_residual, (play_key_residual P m Hpos Hmv), Hk.
  now rewrite Z.lxor_0_l.
Qed.

End PlayKey.

(** ** [set_pos] *)

Lemma wrap32_small (x : Z) : - 2 ^ 31 <= x < 2 ^ 31 -> wrap32 x = x.
Proof. intros H. unfold wrap32. rewrite Z.mod_small; lia. Qed.

Lemma read_word_nonempty (s : list ascii) (inp : list ascii) :
  fst (read_word [] inp) <> [] -> read_word s inp = read_word [] inp.
Proof.
  unfold read_word. destruct (skip_ws inp); [intros H; now destruct H|reflexivity].
Qed.

Lemma piece_letter_one_color (c : ascii) :
  piece_ok (find (PieceLabel WHITE) c) && piece_ok (find (PieceLabel BLACK) c)
  = false.
Proof. destruct c as [[] [] [] [] [] [] [] []]; vm_compute; reflexivity. Qed.

Lemma piece_letter_not_digit (c : ascii) :
  is_piece_letter c = true -> isdigit c = false /\ (code c =? 47) = false.
Proof. destruct c as [[] [] [] [] [] [] [] []]; vm_compute; auto; discriminate. Qed.

Lemma digit_range (c : ascii) : isdigit c = true -> 0 <= code c - 48 <= 9.
Proof.
  unfold isdigit. rewrite andb_true_iff, !Z.leb_le. lia.
Qed.

Section SetPos.
Context {ZS : Zobrist}.

Lemma board_ok_repr_empty : repr (fun _ => None) clear_all.
Proof.
  apply (repr_ext (piece_at clear_all)).
  - intros s. unfold piece_at, occupied, bb_test, clear_all, arr. cbn.
    now rewrite Z.bits_0.
  - apply board_ok_repr. vm_compute. reflexivity.
Qed.

Lemma place_piece_step (v : view) (P : Position) (r f : Z) (c : ascii) :
  hrepr v 0 P -> 0 <= r <= 7 -> 0 <= f < 8 -> placed_above v r f ->
  is_piece_letter c = true ->
  exists v' P',
    fold_left (place_piece c) all_colors (P, 8 * r + f) = (P', 8 * r + (f + 1))
    /\ hrepr v' 0 P' /\ placed_above v' r (f + 1)
    /\ turn P' = turn P /\ castlableRooks P' = castlableRooks P.
Proof.
  intros Hh Hr Hf Hpl Hc.
  assert (Hfree : v (8 * r + f) = None).
  { destruct (v (8 * r + f)) as [[c' p']|] eqn:E; [|reflexivity].
    destruct (Hpl _ _ _ E); lia. }
  assert (Hsq : square_ok (8 * r + f) = true) by (apply square_ok_range; lia).
  assert (Hw : wrap32 (8 * r + f + 1) = 8 * r + (f + 1)).
  { rewrite wrap32_small; lia. }
  assert (Hpl' : forall c0 p0,
            placed_above (upd v (8 * r + f) (Some (c0, p0))) r (f + 1)).
  { intros c0 p0 s c' p'. unfold upd.
    destruct (Z.eqb_spec s (8 * r + f)) as [->|Hne]; [lia|].
    intros E. destruct (Hpl _ _ _ E); lia. }
  pose proof (piece_letter_one_color c) as Hone.
  unfold is_piece_letter in Hc.
  unfold all_colors. cbn [fold_left]. unfold place_piece at 2.
  destruct (piece_ok (find (PieceLabel WHITE) c)) eqn:HW.
  - rewrite ?HW in Hone. cbn [andb] in Hone. unfold place_piece. rewrite Hone, Hw.
    eexists _, _. split; [reflexivity|].
    split; [apply (hrepr_set v 0 P); auto|]. split; [apply Hpl'|].
    split; reflexivity.
  - rewrite ?HW in Hc. cbn [orb] in Hc. unfold place_piece. rewrite Hc, Hw.
    eexists _, _. split; [reflexivity|].
    split; [apply (hrepr_set v 0 P); auto|]. split; [apply Hpl'|].
    split; reflexivity.
Qed.

Lemma placement_fold (cs : list ascii) :
  forall (v : view) (P : Position) (r f : Z),
  placement_ok cs r f = true ->
  hrepr v 0 P -> 0 <= r <= 7 -> 0 <= f <= 8 -> placed_above v r f ->
  exists v' P',
    fold_left place_char cs (P, 8 * r + f) = (P', 8)
    /\ hrepr v' 0 P'
    /\ turn P' = turn P /\ castlableRooks P' = castlableRooks P.
Proof.
  induction cs as [|c cs IH]; intros v P r f Hok Hh Hr Hf Hpl.
  - cbn in Hok. apply andb_true_iff in Hok. destruct Hok as [Hr0 Hf8].
    apply Z.eqb_eq in Hr0, Hf8. subst r f.
    exists v, P. cbn. auto.
  - cbn [placement_ok] in Hok. cbn [fold_left]. unfold place_char at 2.
    destruct (isdigit c) eqn:Hd.
    + rewrite !andb_true_iff in Hok. destruct Hok as ((Hlo & Hhi) & Hok).
      apply Z.leb_le in Hlo, Hhi.
      rewrite wrap32_small by lia.
      replace (8 * r + f + (code c - 48)) with (8 * r + (f + (code c - 48))) by lia.
      apply (IH v P r _ Hok Hh Hr); [lia|].
      intros s c' p' E. destruct (Hpl _ _ _ E); lia.
    + destruct (code c =? 47) eqn:Hs.
      * rewrite !andb_true_iff in Hok. destruct Hok as ((Hf8 & Hr1) & Hok).
        apply Z.eqb_eq in Hf8. apply Z.leb_le in Hr1. subst f.
        rewrite wrap32_small by lia.
        replace (8 * r + 8 - 16) with (8 * (r - 1) + 0) by lia.
        apply (IH v P (r - 1) 0 Hok Hh); [lia | lia |].
        intros s c' p' E. destruct (Hpl _ _ _ E); lia.
      * rewrite !andb_true_iff in Hok. destruct Hok as ((Hlet & Hf7) & Hok).
        apply Z.ltb_lt in Hf7.
        destruct (place_piece_step v P r f c Hh Hr ltac:(lia) Hpl Hlet)
          as (v1 & P1 & E1 & Hh1 & Hpl1 & Ht1 & Hc1).
        rewrite E1.
        destruct (IH v1 P1 r (f + 1) Hok Hh1 Hr ltac:(lia) Hpl1)
          as (v2 & P2 & E2 & Hh2 & Ht2 & Hc2).
        exists v2, P2. rewrite E2.
        split; [reflexivity|]. split; [exact Hh2|]. split; congruence.
Qed.

Lemma castle_fold (s : list ascii) :
  forall (P : Position) (sq : Z),
  let '(P', sq') := fold_left castle_char s (P, sq) in
  byColor P' = byColor P /\ byPiece P' = byPiece P /\ key P' = key P
  /\ turn P' = turn P
  /\ (bb_ok (castlableRooks P) = true -> bb_ok (castlableRooks P') = true).
Proof.
  induction s as [|c s IH]; intros P sq; [cbn; auto 6|].
  cbn [fold_left]. unfold castle_char at 2.
  match goal with
  | |- context [fold_left castle_char s (?Q, ?q)] =>
      specialize (IH Q q); destruct (fold_left castle_char s (Q, q)) as [P' sq']
  end.
  cbn [byColor byPiece key turn castlableRooks with_castlableRooks] in IH.
  destruct IH as (H1 & H2 & H3 & H4 & H5).
  repeat split; try assumption.
  intros Hcr. apply H5. now apply bb_ok_set.
Qed.

(** [set_pos] on a well-formed description: the bitboards are consistent
    and the key is the key [key_ok] recomputes from the board and the turn. *)
Theorem set_pos_ok (fen : string) :
  fen_ok fen = true ->
  pos_ok (set_pos fen) = true /\ key_residual (set_pos fen) = 0.
Proof.
  unfold fen_ok, set_pos.
  destruct (read_word [] (list_ascii_of_string fen)) as [s1 inp1].
  destruct (read_word [] inp1) as [s2 inp2] eqn:E2.
  destruct (read_word [] inp2) as [s3 inp3] eqn:E3.
  destruct (read_word [] inp3) as [s4 inp4] eqn:E4.
  destruct (read_word [] inp4) as [s5 inp5] eqn:E5.
  rewrite !andb_true_iff. intros ((((Hpl & Htu) & Hca) & Hep) & Hco).
  assert (Hinit : hrepr (fun _ => None) 0 clear_all).
  { split; [|reflexivity]. apply board_ok_repr_empty. }
  destruct (placement_fold s1 (fun _ => None) clear_all 7 0 Hpl Hinit)
    as (v1 & P1 & E1 & Hh1 & Ht1 & Hc1); [lia | lia | intros s c p; discriminate |].
  change (8 * 7 + 0) with A8 in E1. rewrite E1.
  rewrite (read_word_nonempty s1 inp1), E2
    by (rewrite E2; cbn [fst]; intros ->; discriminate Htu).
  match goal with
  | |- context [fold_left castle_char _ (?Q, 8)] => set (P2 := Q)
  end.
  rewrite (read_word_nonempty s2 inp2), E3
    by (rewrite E3; cbn [fst]; intros ->; discriminate Hca).
  pose proof (castle_fold s3 P2 8) as Hcf.
  destruct (fold_left castle_char s3 (P2, 8)) as [P3 sq3].
  destruct Hcf as (HC & HP & HK & HT & Hcr).
  rewrite (read_word_nonempty s3 inp3), E4
    by (rewrite E4; cbn [fst]; intros ->; discriminate Hep).
  assert (H2 : hrepr v1 0 (with_turn (turn P2) P1))
    by (eapply hrepr_same_board; [| | |exact Hh1]; reflexivity).
  assert (H2' : color_ok (turn P2) = true
               /\ key P2 = Z.lxor (key P1)
                             (if turn P2 =? BLACK then zobrist_turn else 0)
               /\ byColor P2 = byColor P1 /\ byPiece P2 = byPiece P1
               /\ castlableRooks P2 = castlableRooks P1).
  { unfold P2.
    match goal with |- context [if ?c then _ else _] => destruct c end;
      cbn; rewrite ?Z.lxor_0_r; auto 10. }
  destruct H2 as [Hr2 Hd2]. destruct H2' as (Hcol & Hkey & HC2 & HP2 & Hcr2).
  split.
  - apply pos_ok_unfold. cbn [turn castlableRooks with_rule50 with_epSquare].
    split; [|split].
    + apply (repr_board_ok v1). eapply repr_same_board; [| |exact Hr2].
      * cbn. congruence.
      * cbn. congruence.
    + now rewrite HT.
    + apply Hcr. rewrite Hcr2, Hc1. reflexivity.
  - unfold key_residual. rewrite key_scratch_eq.
    cbn [key turn with_rule50 with_epSquare].
    rewrite (key_board_same P1) by (cbn; congruence).
    rewrite HK, HT, Hkey.
    destruct Hh1 as [_ Hd1]. unfold key_delta in Hd1.
    assert (Hd : key P1 = key_board P1) by (apply Z.lxor_eq_0_iff; exact Hd1).
    rewrite Hd. xor_ring.
Qed.

Corollary set_pos_key_ok (fen : string) :
  fen_ok fen = true -> key_ok (set_pos fen) = true.
Proof. intros H. apply key_ok_residual. now apply set_pos_ok. Qed.

End SetPos.

(** ** Reachable positions *)

Section Reachable.
Context {ZS : Zobrist}.

Lemma reachable_pos_ok (P : Position) : reachable P -> pos_ok P = true.
Proof.
  induction 1 as [fen Hfen | P m _ IH Hmv].
  - now apply set_pos_ok.
  - now apply play_pos_ok.
Qed.

(** C4: in every position reached from a well-formed description by moves
    [play] accepts, the two colour bitboards are disjoint, and every occupied
    square is set in exactly one colour bitboard and in exactly one piece
    bitboard. *)
Theorem C4_board_invariant (P : Position) :
  reachable P ->
  Z.land (arr (byColor P) WHITE) (arr (byColor P) BLACK) = 0
  /\ (forall s, bb_test (occupied P) s = true ->
        (exists! c, color_ok c = true /\ color_bit P c s = true)
        /\ (exists! p, piece_ok p = true /\ piece_bit P p s = true))
  /\ board_ok P = true.
Proof.
  intros Hreach. pose proof (reachable_pos_ok P Hreach) as Hpos.
  apply pos_ok_unfold in Hpos. destruct Hpos as (Hb & _ & _).
  pose proof (board_ok_repr P Hb) as Hr.
  split; [|split; [|exact Hb]].
  - apply Z.bits_inj'. intros s _. rewrite Z.land_spec, Z.bits_0.
    pose proof (repr_color _ P Hr WHITE s eq_refl) as HW.
    pose proof (repr_color _ P Hr BLACK s eq_refl) as HB.
    unfold color_bit, bb_test in HW, HB. rewrite HW, HB.
    unfold view_color. destruct (piece_at P s) as [[c p]|]; [|reflexivity].
    unfold WHITE, BLACK. destruct (Z.eqb_spec c 0), (Z.eqb_spec c 1);
      try reflexivity; lia.
  - intros s Hocc. rewrite (repr_occupied _ P s Hr) in Hocc.
    destruct (piece_at P s) as [[c0 p0]|] eqn:Hv; [|discriminate].
    destruct (repr_dom _ P Hr _ _ _ Hv) as (Hc0 & Hp0 & _).
    split.
    + exists c0. split.
      * split; [exact Hc0|]. rewrite (repr_color _ P Hr c0 s Hc0).
        unfold view_color. now rewrite Hv, Z.eqb_refl.
      * intros c [Hc Hbit]. rewrite (repr_color _ P Hr c s Hc) in Hbit.
        unfold view_color in Hbit. rewrite Hv in Hbit. now apply Z.eqb_eq.
    + exists p0. split.
      * split; [exact Hp0|]. rewrite (repr_piece _ P Hr p0 s Hp0).
        unfold view_piece. now rewrite Hv, Z.eqb_refl.
      * intros p [Hp Hbit]. rewrite (repr_piece _ P Hr p s Hp) in Hbit.
        unfold view_piece in Hbit. rewrite Hv in Hbit. now apply Z.eqb_eq.
Qed.

(** The key after one move from a position whose key is the key of the
    board and the turn, as [set_pos] leaves it. *)
Lemma key_after_first_move (P : Position) (m : Move) :
  pos_ok P = true -> key_residual P = 0 -> move_ok P m = true ->
  castlableRooks (play P m) = castlableRooks P ->
  key P = key_scratch P
  /\ Z.lxor (key P) (key_full P)
     = Z.lxor (zobrist_ep (epSquare P)) (zobrist_castling (castlableRooks P))
  /\ Z.lxor (key (play P m)) (key_scratch (play P m))
     = Z.lxor (Z.lxor (zobrist_ep (epSquare P))
                      (zobrist_ep (epSquare (play P m))))
              (zobrist_castling 0)
  /\ Z.lxor (key (play P m)) (key_full (play P m))
     = Z.lxor (Z.lxor (zobrist_ep (epSquare P)) (zobrist_castling 0))
              (zobrist_castling (castlableRooks P)).
Proof.
  intros Hpos Hres Hmv Hcr.
  pose proof (play_key_residual P m Hpos Hmv) as Hplay.
  unfold get_epsq in Hplay.
  rewrite Hres, Hcr, Z.lxor_nilpotent, Z.lxor_0_l in Hplay.
  unfold key_residual in Hres, Hplay.
  assert (Hk0 : key P = key_scratch P) by (apply Z.lxor_eq_0_iff; exact Hres).
  split; [exact Hk0|].
  split; [unfold key_full; rewrite Hk0; xor_ring|].
  split; [exact Hplay|].
  unfold key_full. rewrite Hcr.
  assert (Hk1 : key (play P m)
                = Z.lxor (key_scratch (play P m))
                    (Z.lxor (Z.lxor (zobrist_ep (epSquare P))
                                    (zobrist_ep (epSquare (play P m))))
                            (zobrist_castling 0))).
  { rewrite <- Hplay. xor_ring. }
  rewrite Hk1. xor_ring.
Qed.

(** C1 (what the code does): [set_pos] leaves in [key] the key of the men
    and the turn only; [play] then adds the en-passant and castling terms of
    parent and child.  From the start position, after e2-e4 (en-passant
    square e3, square 20), [key] is neither the key [key_ok] recomputes (they
    differ by the en-passant terms of [NB_SQUARE] and of e3 and a castling
    term) nor the key recomputed with the en-passant and castling terms of
    the position. *)
Theorem C1_key_after_e2e4 :
  reachable (play (set_pos start_fen) e2e4)
  /\ epSquare (set_pos start_fen) = NB_SQUARE
  /\ epSquare (play (set_pos start_fen) e2e4) = 20
  /\ key (set_pos start_fen) = key_scratch (set_pos start_fen)
  /\ Z.lxor (key (set_pos start_fen)) (key_full (set_pos start_fen))
     = Z.lxor (zobrist_ep (epSquare (set_pos start_fen)))
              (zobrist_castling (castlableRooks (set_pos start_fen)))
  /\ Z.lxor (key (play (set_pos start_fen) e2e4))
            (key_scratch (play (set_pos start_fen) e2e4))
     = Z.lxor (Z.lxor (zobrist_ep (epSquare (set_pos start_fen)))
                      (zobrist_ep (epSquare (play (set_pos start_fen) e2e4))))
              (zobrist_castling 0)
  /\ Z.lxor (key (play (set_pos start_fen) e2e4))
            (key_full (play (set_pos start_fen) e2e4))
     = Z.lxor (Z.lxor (zobrist_ep (epSquare (set_pos start_fen)))
                      (zobrist_castling 0))
              (zobrist_castling (castlableRooks (set_pos start_fen))).
Proof.
  assert (Hfen : fen_ok start_fen = true) by (vm_compute; reflexivity).
  assert (Hmv : move_ok (set_pos start_fen) e2e4 = true)
    by (vm_compute; reflexivity).
  split; [apply reach_play; [apply reach_set_pos; exact Hfen | exact Hmv]|].
  split; [vm_compute; reflexivity|].
  split; [vm_compute; reflexivity|].
  apply key_after_first_move.
  - exact (proj1 (set_pos_ok start_fen Hfen)).
  - exact (proj2 (set_pos_ok start_fen Hfen)).
  - exact Hmv.
  - vm_compute; reflexivity.
Qed.

End Reachable.

(** ** The theorems on concrete positions *)


Lemma C3_play_frame_witness :
  (1%nat <> 0%nat /\ two_objects !! 0%nat = Some start_pos
   /\ two_objects !! 1%nat = Some clear_all)
  /\ exists h',
       @play_obj sample_zobrist 1 0 e2e4 two_objects = Some h'
       /\ h' !! 0%nat = Some start_pos
       /\ h' !! 1%nat = Some (@play sample_zobrist start_pos e2e4)
       /\ (forall a, a <> 1%nat -> h' !! a = two_objects !! a).
Proof.
  assert (H1 : 1%nat <> 0%nat) by lia.
  assert (H2 : two_objects !! 0%nat = Some start_pos) by reflexivity.
  assert (H3 : two_objects !! 1%nat = Some clear_all) by reflexivity.
  split; [auto|].
  exact (@C3_play_frame sample_zobrist 1%nat 0%nat e2e4 two_objects clear_all
           start_pos H1 H2 H3).
Defined.

Lemma C4_board_invariant_witness :
  @reachable sample_zobrist (@play sample_zobrist start_pos e2e4)
  /\ let P := @play sample_zobrist start_pos e2e4 in
     Z.land (arr (byColor P) WHITE) (arr (byColor P) BLACK) = 0
     /\ (forall s, bb_test (occupied P) s = true ->
           (exists! c, color_ok c = true /\ color_bit P c s = true)
           /\ (exists! p, piece_ok p = true /\ piece_bit P p s = true))
     /\ board_ok P = true.
Proof.
  assert (H : @reachable sample_zobrist (@play sample_zobrist start_pos e2e4)).
  { apply reach_play; [apply reach_set_pos|]; vm_compute; reflexivity. }
  split; [exact H|].
  exact (@C4_board_invariant sample_zobrist _ H).
Defined.

Lemma C6_castling_witness :
  (pos_ok castle_pos = true /\ move_ok castle_pos e1h1 = true
   /\ piece_on castle_pos (fsq e1h1) = KING
   /\ color_bit castle_pos (turn castle_pos) (tsq e1h1) = true)
  /\ let P := castle_pos in
     let m := e1h1 in
     let us := turn P in
     let ksq := castle_ksq m in
     let rsq := castle_rsq m in
     piece_at (@play sample_zobrist P m) ksq = Some (us, KING)
     /\ piece_at (@play sample_zobrist P m) rsq = Some (us, ROOK)
     /\ bb_test (get (@play sample_zobrist P m) us KING) ksq = true
     /\ bb_test (get (@play sample_zobrist P m) us ROOK) rsq = true
     /\ rank_of ksq = rank_of (fsq m) /\ rank_of rsq = rank_of (fsq m)
     /\ file_of ksq = (if fsq m <? tsq m then FILE_G else FILE_C)
     /\ file_of rsq = (if fsq m <? tsq m then FILE_F else FILE_D)
     /\ (forall s, s <> ksq -> s <> rsq ->
           piece_at (@play sample_zobrist P m) s
           = if (s =? fsq m) || (s =? tsq m) then None else piece_at P s).
Proof.
  assert (H1 : pos_ok castle_pos = true) by (vm_compute; reflexivity).
  assert (H2 : move_ok castle_pos e1h1 = true) by (vm_compute; reflexivity).
  assert (H3 : piece_on castle_pos (fsq e1h1) = KING) by (vm_compute; reflexivity).
  assert (H4 : color_bit castle_pos (turn castle_pos) (tsq e1h1) = true)
    by (vm_compute; reflexivity).
  split; [auto|].
  exact (@C6_castling sample_zobrist castle_pos e1h1 H1 H2 H3 H4).
Defined.

Lemma C7_en_passant_square_witness :
  ((pos_ok start_pos = true /\ move_ok start_pos e2e4 = true)
   /\ (epSquare (@play sample_zobrist start_pos e2e4)
       = (if two_square_advance start_pos e2e4
          then fsq e2e4 + forward (turn start_pos) else NB_SQUARE)
       /\ (two_square_advance start_pos e2e4 = true ->
             square_ok (fsq e2e4 + forward (turn start_pos)) = true)
       /\ ((epSquare (@play sample_zobrist start_pos e2e4)
            = fsq e2e4 + forward (turn start_pos)
            /\ square_ok (epSquare (@play sample_zobrist start_pos e2e4)) = true)
           <-> two_square_advance start_pos e2e4 = true)
       /\ (epSquare (@play sample_zobrist start_pos e2e4) <> NB_SQUARE
           <-> two_square_advance start_pos e2e4 = true))
   /\ two_square_advance start_pos e2e4 = true
   /\ epSquare (@play sample_zobrist start_pos e2e4) = 20)
  /\ ((pos_ok ep_pos = true /\ move_ok ep_pos e7e5 = true)
      /\ (epSquare (@play sample_zobrist ep_pos e7e5)
          = (if two_square_advance ep_pos e7e5
             then fsq e7e5 + forward (turn ep_pos) else NB_SQUARE)
          /\ (two_square_advance ep_pos e7e5 = true ->
                square_ok (fsq e7e5 + forward (turn ep_pos)) = true)
          /\ ((epSquare (@play sample_zobrist ep_pos e7e5)
               = fsq e7e5 + forward (turn ep_pos)
               /\ square_ok (epSquare (@play sample_zobrist ep_pos e7e5)) = true)
              <-> two_square_advance ep_pos e7e5 = true)
          /\ (epSquare (@play sample_zobrist ep_pos e7e5) <> NB_SQUARE
              <-> two_square_advance ep_pos e7e5 = true))
      /\ two_square_advance ep_pos e7e5 = true
      /\ epSquare (@play sample_zobrist ep_pos e7e5) = 44)
  /\ ((pos_ok start_pos = true /\ move_ok start_pos e2e3 = true)
      /\ (epSquare (@play sample_zobrist start_pos e2e3)
          = (if two_square_advance start_pos e2e3
             then fsq e2e3 + forward (turn start_pos) else NB_SQUARE)
          /\ (two_square_advance start_pos e2e3 = true ->
                square_ok (fsq e2e3 + forward (turn start_pos)) = true)
          /\ ((epSquare (@play sample_zobrist start_pos e2e3)
               = fsq e2e3 + forward (turn start_pos)
               /\ square_ok (epSquare (@play sample_zobrist start_pos e2e3)) = true)
              <-> two_square_advance start_pos e2e3 = true)
          /\ (epSquare (@play sample_zobrist start_pos e2e3) <> NB_SQUARE
              <-> two_square_advance start_pos e2e3 = true))
      /\ pawn_moves start_pos e2e3 = true
      /\ two_square_advance start_pos e2e3 = false
      /\ epSquare (@play sample_zobrist start_pos e2e3) = NB_SQUARE)
  /\ ((pos_ok start_pos = true /\ move_ok start_pos g1f3 = true)
      /\ (epSquare (@play sample_zobrist start_pos g1f3)
          = (if two_square_advance start_pos g1f3
             then fsq g1f3 + forward (turn start_pos) else NB_SQUARE)
          /\ (two_square_advance start_pos g1f3 = true ->
                square_ok (fsq g1f3 + forward (turn start_pos)) = true)
          /\ ((epSquare (@play sample_zobrist start_pos g1f3)
               = fsq g1f3 + forward (turn start_pos)
               /\ square_ok (epSquare (@play sample_zobrist start_pos g1f3)) = true)
              <-> two_square_advance start_pos g1f3 = true)
          /\ (epSquare (@play sample_zobrist start_pos g1f3) <> NB_SQUARE
              <-> two_square_advance start_pos g1f3 = true))
      /\ pawn_moves start_pos g1f3 = false
      /\ epSquare (@play sample_zobrist start_pos g1f3) = NB_SQUARE).
Proof.
  assert (H1 : pos_ok start_pos = true) by (vm_compute; reflexivity).
  assert (H2 : move_ok start_pos e2e4 = true) by (vm_compute; reflexivity).
  assert (H3 : pos_ok ep_pos = true) by (vm_compute; reflexivity).
  assert (H4 : move_ok ep_pos e7e5 = true) by (vm_compute; reflexivity).
  assert (H5 : move_ok start_pos e2e3 = true) by (vm_compute; reflexivity).
  assert (H6 : move_ok start_pos g1f3 = true) by (vm_compute; reflexivity).
  split; [|split; [|split]].
  - split; [auto|].
    split; [exact (@C7_en_passant_square sample_zobrist start_pos e2e4 H1 H2)|].
    split; vm_compute; reflexivity.
  - split; [auto|].
    split; [exact (@C7_en_passant_square sample_zobrist ep_pos e7e5 H3 H4)|].
    split; vm_compute; reflexivity.
  - split; [auto|].
    split; [exact (@C7_en_passant_square sample_zobrist start_pos e2e3 H1 H5)|].
    split; [|split]; vm_compute; reflexivity.
  - split; [auto|].
    split; [exact (@C7_en_passant_square sample_zobrist start_pos g1f3 H1 H6)|].
    split; vm_compute; reflexivity.
Defined.

(** The literal reading of C7 fails for a white rook that leaves a8: it is
    no pawn, [play] leaves the sentinel in [epSquare], and the sentinel is
    the number origin plus one push increment. *)
Lemma C7_en_passant_square_counterexample :
  pos_ok rook_pos = true /\ move_ok rook_pos a8b8 = true
  /\ piece_at rook_pos (fsq a8b8) = Some (WHITE, ROOK)
  /\ epSquare (@play sample_zobrist rook_pos a8b8) = NB_SQUARE
  /\ fsq a8b8 + push_inc (turn rook_pos) = NB_SQUARE
  /\ ~ (epSquare (@play sample_zobrist rook_pos a8b8)
        = fsq a8b8 + push_inc (turn rook_pos)
        <-> piece_on rook_pos (fsq a8b8) = PAWN
            /\ tsq a8b8 = fsq a8b8 + 2 * push_inc (turn rook_pos)).
Proof.
  split; [vm_compute; reflexivity|].
  split; [vm_compute; reflexivity|].
  split; [vm_compute; reflexivity|].
  split; [vm_compute; reflexivity|].
  split; [vm_compute; reflexivity|].
  intros [H _].
  assert (E : epSquare (@play sample_zobrist rook_pos a8b8)
              = fsq a8b8 + push_inc (turn rook_pos))
    by (vm_compute; reflexivity).
  destruct (H E) as [Hp _]. vm_compute in Hp. discriminate Hp.
Defined.

Lemma C8_rule50_witness :
  ((pos_ok knights_pos = true /\ INT_MIN <= rule50 knights_pos < INT_MAX)
   /\ rule50 (@play sample_zobrist knights_pos c6e5)
      = (if destination_occupied knights_pos c6e5 || pawn_moves knights_pos c6e5
         then 0 else rule50 knights_pos + 1)
   /\ destination_occupied knights_pos c6e5 = true
   /\ pawn_moves knights_pos c6e5 = false
   /\ rule50 knights_pos = 5
   /\ rule50 (@play sample_zobrist knights_pos c6e5) = 0)
  /\ ((pos_ok knights_pos = true /\ INT_MIN <= rule50 knights_pos < INT_MAX)
      /\ rule50 (@play sample_zobrist knights_pos f6d5)
         = (if destination_occupied knights_pos f6d5 || pawn_moves knights_pos f6d5
            then 0 else rule50 knights_pos + 1)
      /\ destination_occupied knights_pos f6d5 = false
      /\ pawn_moves knights_pos f6d5 = false
      /\ rule50 (@play sample_zobrist knights_pos f6d5) = 6)
  /\ ((pos_ok ep_pos = true /\ INT_MIN <= rule50 ep_pos < INT_MAX)
      /\ rule50 (@play sample_zobrist ep_pos e7e5)
         = (if destination_occupied ep_pos e7e5 || pawn_moves ep_pos e7e5
            then 0 else rule50 ep_pos + 1)
      /\ destination_occupied ep_pos e7e5 = false
      /\ pawn_moves ep_pos e7e5 = true
      /\ rule50 (@play sample_zobrist ep_pos e7e5) = 0).
Proof.
  assert (H1 : pos_ok knights_pos = true) by (vm_compute; reflexivity).
  assert (H2 : INT_MIN <= rule50 knights_pos < INT_MAX)
    by (vm_compute; split; [discriminate | reflexivity]).
  assert (H3 : pos_ok ep_pos = true) by (vm_compute; reflexivity).
  assert (H4 : INT_MIN <= rule50 ep_pos < INT_MAX)
    by (vm_compute; split; [discriminate | reflexivity]).
  split; [|split].
  - split; [auto|].
    split; [exact (@C8_rule50 sample_zobrist knights_pos c6e5 H1 H2)|].
    split; [|split; [|split]]; vm_compute; reflexivity.
  - split; [auto|].
    split; [exact (@C8_rule50 sample_zobrist knights_pos f6d5 H1 H2)|].
    split; [|split]; vm_compute; reflexivity.
  - split; [auto|].
    split; [exact (@C8_rule50 sample_zobrist ep_pos e7e5 H3 H4)|].
    split; [|split]; vm_compute; reflexivity.
Defined.

(** ** The search info aggregator *)

Lemma set_thread_same (t : nat) (p : UCI.pc) (th : nat -> UCI.pc) :
  UCI.set_thread t p th t = p.
Proof. unfold UCI.set_thread. now rewrite Nat.eqb_refl. Qed.

Lemma set_thread_other (t t' : nat) (p : UCI.pc) (th : nat -> UCI.pc) :
  t' <> t -> UCI.set_thread t p th t' = th t'.
Proof.
  intros H. unfold UCI.set_thread. now rewrite (proj2 (Nat.eqb_neq t' t) H).
Qed.

Lemma whole_mono (s s' : UCI.State) (r : UCI.Report) :
  (forall x, In x (UCI.calls s) -> In x (UCI.calls s')) ->
  UCI.whole s r -> UCI.whole s' r.
Proof. intros Hc [H|H]; [now left | right; auto]. Qed.

Lemma thread_ok_mono (s s' : UCI.State) (p : UCI.pc) :
  UCI.info s' = UCI.info s ->
  (forall x, In x (UCI.calls s) -> In x (UCI.calls s')) ->
  UCI.thread_ok s p -> UCI.thread_ok s' p.
Proof.
  intros Hi Hc. unfold UCI.thread_ok. rewrite Hi.
  pose proof (whole_mono s s' (UCI.contents (UCI.info s)) Hc) as Hw.
  destruct p; intuition auto.
Qed.

Lemma thread_ok_nolock (s s' : UCI.State) (p : UCI.pc) :
  UCI.holds_lock p = false ->
  (forall x, In x (UCI.calls s) -> In x (UCI.calls s')) ->
  UCI.thread_ok s p -> UCI.thread_ok s' p.
Proof.
  intros Hl Hc. unfold UCI.thread_ok.
  destruct p; try discriminate Hl; auto.
Qed.

Lemma inv_init : UCI.inv UCI.init.
Proof.
  constructor; cbn.
  - intros r [].
  - discriminate.
  - intros _. now left.
  - intros _. exact I.
Qed.

(** A step of the thread that owns the mutex, or of a thread that needs
    none: the other threads keep what they know. *)
Lemma inv_others (s s' : UCI.State) (t : nat) (p' : UCI.pc) :
  UCI.inv s ->
  UCI.threads s' = UCI.set_thread t p' (UCI.threads s) ->
  (forall x, In x (UCI.calls s) -> In x (UCI.calls s')) ->
  (UCI.info s' = UCI.info s
   \/ forall t', t' <> t -> UCI.holds_lock (UCI.threads s t') = false) ->
  UCI.thread_ok s' p' ->
  forall t', UCI.thread_ok s' (UCI.threads s' t').
Proof.
  intros Hinv Hth Hc Hcase Hp' t'. rewrite Hth.
  destruct (Nat.eq_dec t' t) as [->|Hne].
  - now rewrite set_thread_same.
  - rewrite set_thread_other by exact Hne.
    pose proof (UCI.inv_threads s Hinv t') as Hok.
    destruct Hcase as [Hi|Hno].
    + now apply (thread_ok_mono s).
    + apply (thread_ok_nolock s); auto.
Qed.

Lemma owner_excludes (s : UCI.State) (t : nat) :
  UCI.inv s -> UCI.mutex s = Some t ->
  forall t', t' <> t -> UCI.holds_lock (UCI.threads s t') = false.
Proof.
  intros Hinv Hm t' Hne.
  destruct (UCI.holds_lock (UCI.threads s t')) eqn:E; [|reflexivity].
  pose proof (UCI.inv_owner s Hinv t' E). congruence.
Qed.

Lemma free_excludes (s : UCI.State) :
  UCI.inv s -> UCI.mutex s = None ->
  forall t', UCI.holds_lock (UCI.threads s t') = false.
Proof.
  intros Hinv Hm t'.
  destruct (UCI.holds_lock (UCI.threads s t')) eqn:E; [|reflexivity].
  pose proof (UCI.inv_owner s Hinv t' E). congruence.
Qed.

Lemma owner_after (s : UCI.State) (t : nat) (p' : UCI.pc) (m : option nat) :
  UCI.inv s ->
  (UCI.holds_lock p' = true -> m = Some t) ->
  (forall t', t' <> t -> UCI.holds_lock (UCI.threads s t') = true ->
              m = Some t') ->
  forall t', UCI.holds_lock (UCI.set_thread t p' (UCI.threads s) t') = true ->
             m = Some t'.
Proof.
  intros Hinv Hp' Hoth t'. destruct (Nat.eq_dec t' t) as [->|Hne].
  - rewrite set_thread_same. exact Hp'.
  - rewrite set_thread_other by exact Hne. now apply Hoth.
Qed.

Lemma inv_step (s s' : UCI.State) (t : nat) (c : UCI.call) :
  UCI.inv s -> UCI.thread_step true t c s = Some s' -> UCI.inv s'.
Proof.
  intros Hinv Hstep.
  pose proof (UCI.inv_threads s Hinv t) as Hme.
  pose proof (UCI.inv_owner s Hinv t) as Hown.
  unfold UCI.thread_step in Hstep.
  destruct (UCI.threads s t) eqn:Ht; cbn in Hme, Hown.
  - (* Idle *)
    destruct c as [r|]; injection Hstep as <-.
    + constructor; [cbn | cbn | cbn |].
      * intros x Hx. apply (whole_mono s); [cbn; auto|].
        now apply (UCI.inv_printed s Hinv).
      * apply (owner_after s t); [exact Hinv | discriminate |].
        intros t' _. apply (UCI.inv_owner s Hinv).
      * intros Hm. apply (whole_mono s); [cbn; auto|].
        now apply (UCI.inv_free s Hinv).
      * apply (inv_others s _ t (UCI.UpdLock r) Hinv); cbn; auto.
    + constructor; [cbn | cbn | cbn |].
      * apply (UCI.inv_printed s Hinv).
      * apply (owner_after s t); [exact Hinv | discriminate |].
        intros t' _. apply (UCI.inv_owner s Hinv).
      * apply (UCI.inv_free s Hinv).
      * apply (inv_others s _ t UCI.PrtLock Hinv); cbn; auto.
  - (* UpdLock *)
    unfold UCI.lock in Hstep. destruct (UCI.mutex s) eqn:Hm; [discriminate|].
    injection Hstep as <-.
    constructor; [cbn | cbn | cbn |].
    + apply (UCI.inv_printed s Hinv).
    + apply (owner_after s t); [exact Hinv | reflexivity |].
      intros t' _ Hh. rewrite (free_excludes s Hinv Hm t') in Hh. discriminate.
    + discriminate.
    + apply (inv_others s _ t (UCI.UpdDepth r) Hinv); cbn; auto.
  - (* UpdDepth *)
    injection Hstep as <-. specialize (Hown eq_refl).
    constructor; [cbn | cbn | cbn |].
    + apply (UCI.inv_printed s Hinv).
    + apply (owner_after s t); [exact Hinv | auto |].
      intros t' _. apply (UCI.inv_owner s Hinv).
    + congruence.
    + apply (inv_others s _ t (UCI.UpdScore r) Hinv); cbn; auto.
      right. now apply owner_excludes.
  - (* UpdScore *)
    injection Hstep as <-. specialize (Hown eq_refl).
    constructor; [cbn | cbn | cbn |].
    + apply (UCI.inv_printed s Hinv).
    + apply (owner_after s t); [exact Hinv | auto |].
      intros t' _. apply (UCI.inv_owner s Hinv).
    + congruence.
    + apply (inv_others s _ t (UCI.UpdNodes r) Hinv); cbn; auto.
      * right. now apply owner_excludes.
      * tauto.
  - (* UpdNodes *)
    injection Hstep as <-. specialize (Hown eq_refl).
    constructor; [cbn | cbn | cbn |].
    + apply (UCI.inv_printed s Hinv).
    + apply (owner_after s t); [exact Hinv | auto |].
      intros t' _. apply (UCI.inv_owner s Hinv).
    + congruence.
    + apply (inv_others s _ t (UCI.UpdPv r) Hinv); cbn; auto.
      * right. now apply owner_excludes.
      * tauto.
  - (* UpdPv *)
    injection Hstep as <-. specialize (Hown eq_refl).
    constructor; [cbn | cbn | cbn |].
    + apply (UCI.inv_printed s Hinv).
    + apply (owner_after s t); [exact Hinv | auto |].
      intros t' _. apply (UCI.inv_owner s Hinv).
    + congruence.
    + apply (inv_others s _ t (UCI.UpdFlag r) Hinv); cbn; auto.
      * right. now apply owner_excludes.
      * destruct Hme as (Hin & Hd & Hs & Hn). split; [exact Hin|].
        unfold UCI.contents; cbn. rewrite Hd, Hs, Hn. now destruct r.
  - (* UpdFlag *)
    injection Hstep as <-. specialize (Hown eq_refl).
    constructor; [cbn | cbn | cbn |].
    + apply (UCI.inv_printed s Hinv).
    + apply (owner_after s t); [exact Hinv | auto |].
      intros t' _. apply (UCI.inv_owner s Hinv).
    + congruence.
    + apply (inv_others s _ t UCI.UpdUnlock Hinv); cbn; auto.
      * right. now apply owner_excludes.
      * destruct Hme as (Hin & Hc). right.
        unfold UCI.contents in *; cbn. now rewrite Hc.
  - (* UpdUnlock *)
    injection Hstep as <-. specialize (Hown eq_refl).
    constructor; [cbn | cbn | cbn |].
    + apply (UCI.inv_printed s Hinv).
    + apply (owner_after s t); [exact Hinv | discriminate |].
      intros t' Hne Hh. rewrite (owner_excludes s t Hinv Hown t' Hne) in Hh.
      discriminate.
    + intros _. exact Hme.
    + apply (inv_others s _ t UCI.Idle Hinv); cbn; auto.
  - (* PrtLock *)
    unfold UCI.lock in Hstep. destruct (UCI.mutex s) eqn:Hm; [discriminate|].
    injection Hstep as <-.
    constructor; [cbn | cbn | cbn |].
    + apply (UCI.inv_printed s Hinv).
    + apply (owner_after s t); [exact Hinv | reflexivity |].
      intros t' _ Hh. rewrite (free_excludes s Hinv Hm t') in Hh. discriminate.
    + discriminate.
    + apply (inv_others s _ t UCI.PrtDepth Hinv); cbn; auto.
      now apply (UCI.inv_free s Hinv).
  - (* PrtDepth *)
    injection Hstep as <-. specialize (Hown eq_refl).
    constructor; [cbn | cbn | cbn |].
    + apply (UCI.inv_printed s Hinv).
    + apply (owner_after s t); [exact Hinv | auto |].
      intros t' _. apply (UCI.inv_owner s Hinv).
    + apply (UCI.inv_free s Hinv).
    + eapply (inv_others s _ t _ Hinv);
        [reflexivity | cbn; auto | cbn; auto | cbn; auto].
  - (* PrtScore *)
    injection Hstep as <-. specialize (Hown eq_refl).
    constructor; [cbn | cbn | cbn |].
    + apply (UCI.inv_printed s Hinv).
    + apply (owner_after s t); [exact Hinv | auto |].
      intros t' _. apply (UCI.inv_owner s Hinv).
    + apply (UCI.inv_free s Hinv).
    + eapply (inv_others s _ t _ Hinv);
        [reflexivity | cbn; auto | cbn; auto | cbn; tauto].
  - (* PrtNodes *)
    injection Hstep as <-. specialize (Hown eq_refl).
    constructor; [cbn | cbn | cbn |].
    + apply (UCI.inv_printed s Hinv).
    + apply (owner_after s t); [exact Hinv | auto |].
      intros t' _. apply (UCI.inv_owner s Hinv).
    + apply (UCI.inv_free s Hinv).
    + eapply (inv_others s _ t _ Hinv);
        [reflexivity | cbn; auto | cbn; auto | cbn; tauto].
  - (* PrtPv *)
    injection Hstep as <-. specialize (Hown eq_refl).
    constructor; [cbn | cbn | cbn |].
    + apply (UCI.inv_printed s Hinv).
    + apply (owner_after s t); [exact Hinv | auto |].
      intros t' _. apply (UCI.inv_owner s Hinv).
    + apply (UCI.inv_free s Hinv).
    + eapply (inv_others s _ t _ Hinv);
        [reflexivity | cbn; auto | cbn; auto | cbn].
      destruct Hme as (Hw & -> & -> & ->). split; [exact Hw|reflexivity].
  - (* PrtEmit *)
    injection Hstep as <-. specialize (Hown eq_refl).
    destruct Hme as (Hw & ->).
    constructor; [cbn | cbn | cbn |].
    + intros x [<-|Hx]; [exact Hw | now apply (UCI.inv_printed s Hinv)].
    + apply (owner_after s t); [exact Hinv | auto |].
      intros t' _. apply (UCI.inv_owner s Hinv).
    + apply (UCI.inv_free s Hinv).
    + apply (inv_others s _ t UCI.PrtFlag Hinv); cbn; auto.
  - (* PrtFlag *)
    injection Hstep as <-. specialize (Hown eq_refl).
    constructor; [cbn | cbn | cbn |].
    + apply (UCI.inv_printed s Hinv).
    + apply (owner_after s t); [exact Hinv | auto |].
      intros t' _. apply (UCI.inv_owner s Hinv).
    + congruence.
    + apply (inv_others s _ t UCI.PrtUnlock Hinv); cbn; auto.
      right. now apply owner_excludes.
  - (* PrtUnlock *)
    injection Hstep as <-. specialize (Hown eq_refl).
    constructor; [cbn | cbn | cbn |].
    + apply (UCI.inv_printed s Hinv).
    + apply (owner_after s t); [exact Hinv | discriminate |].
      intros t' Hne Hh. rewrite (owner_excludes s t Hinv Hown t' Hne) in Hh.
      discriminate.
    + intros _. exact Hme.
    + apply (inv_others s _ t UCI.Idle Hinv); cbn; auto.
Qed.

Lemma run_inv (s : UCI.State) : UCI.run true s -> UCI.inv s.
Proof.
  induction 1 as [|s s' t c _ IH Hstep]; [apply inv_init|].
  exact (inv_step s s' t c IH Hstep).
Qed.

Lemma run_schedule_run (g : bool) (sched : list (nat * UCI.call))
    (s s' : UCI.State) :
  UCI.run g s -> UCI.run_schedule g sched s = Some s' -> UCI.run g s'.
Proof.
  revert s. induction sched as [|[t c] rest IH]; intros s Hrun Hs; cbn in Hs.
  - now injection Hs as <-.
  - destruct (UCI.thread_step g t c s) as [s1|] eqn:E; [|discriminate].
    apply (IH s1); [|exact Hs]. exact (UCI.run_step g s s1 t c Hrun E).
Qed.

(** C9: in every execution of any number of threads calling [update] and
    [print], at most one thread is inside [update] or [print] at a time, and
    every report [print] emits is whole: the four fields are the arguments of
    one single call of [update] (or what [clear] left, when no [update] came
    before), never fields of two calls. *)
Theorem C9_aggregator_atomic (s : UCI.State) :
  UCI.run true s ->
  (forall r, In r (UCI.printed s) ->
     r = UCI.contents UCI.clear \/ In r (UCI.calls s))
  /\ (forall t1 t2,
        UCI.holds_lock (UCI.threads s t1) = true ->
        UCI.holds_lock (UCI.threads s t2) = true -> t1 = t2).
Proof.
  intros Hrun. pose proof (run_inv s Hrun) as Hinv. split.
  - exact (UCI.inv_printed s Hinv).
  - intros t1 t2 H1 H2.
    pose proof (UCI.inv_owner s Hinv t1 H1).
    pose proof (UCI.inv_owner s Hinv t2 H2). congruence.
Qed.

Lemma final_state_run (g : bool) (sched : list (nat * UCI.call)) :
  UCI.run g (UCI.final_state g sched).
Proof.
  unfold UCI.final_state.
  destruct (UCI.run_schedule g sched UCI.init) as [s|] eqn:E.
  - exact (run_schedule_run g sched UCI.init s (UCI.run_init g) E).
  - apply UCI.run_init.
Qed.

Lemma C9_aggregator_atomic_witness :
  UCI.run true (UCI.final_state true UCI.schedule_update_print)
  /\ UCI.printed (UCI.final_state true UCI.schedule_update_print) = [UCI.report1]
  /\ (forall r, In r (UCI.printed (UCI.final_state true UCI.schedule_update_print)) ->
        r = UCI.contents UCI.clear
        \/ In r (UCI.calls (UCI.final_state true UCI.schedule_update_print)))
  /\ (forall t1 t2,
        UCI.holds_lock
          (UCI.threads (UCI.final_state true UCI.schedule_update_print) t1) = true ->
        UCI.holds_lock
          (UCI.threads (UCI.final_state true UCI.schedule_update_print) t2) = true ->
        t1 = t2).
Proof.
  assert (H : UCI.run true (UCI.final_state true UCI.schedule_update_print))
    by apply final_state_run.
  split; [exact H|]. split; [vm_compute; reflexivity|].
  exact (C9_aggregator_atomic _ H).
Defined.

(** Without the mutex the claim fails: a [print] that overlaps an [update]
    emits the depth of one call with the score, nodes and line of another.
    With the mutex the same schedule cannot run: the second [update] waits. *)
Lemma torn_print_without_mutex :
  UCI.run false (UCI.final_state false UCI.schedule_torn)
  /\ UCI.calls (UCI.final_state false UCI.schedule_torn)
     = [UCI.report2; UCI.report1]
  /\ UCI.printed (UCI.final_state false UCI.schedule_torn)
     = [UCI.mkReport (UCI.r_depth UCI.report1) (UCI.r_score UCI.report2)
          (UCI.r_nodes UCI.report2) (UCI.r_pv UCI.report2)]
  /\ UCI.run_schedule true UCI.schedule_torn UCI.init = None.
Proof.
  split; [apply final_state_run|].
  repeat split; vm_compute; reflexivity.
Qed.

(** ** Further evaluations *)

(** A quiet knight move adds one to the counter and clears the en-passant
    square. *)
Example play_g1f3 :
  rule50 (@play sample_zobrist start_pos g1f3) = 1
  /\ epSquare (@play sample_zobrist start_pos g1f3) = NB_SQUARE
  /\ piece_at (@play sample_zobrist start_pos g1f3) 21 = Some (WHITE, KNIGHT)
  /\ piece_at (@play sample_zobrist start_pos g1f3) 6 = None.
Proof. repeat split; vm_compute; reflexivity. Qed.

(** Castling on the queen side: the king lands on c1, the rook on d1, the
    corner and e1 are empty, and White has no castling right left. *)
Example play_e1a1 :
  piece_at (@play sample_zobrist castle_pos e1a1) 2 = Some (WHITE, KING)
  /\ piece_at (@play sample_zobrist castle_pos e1a1) 3 = Some (WHITE, ROOK)
  /\ piece_at (@play sample_zobrist castle_pos e1a1) 0 = None
  /\ piece_at (@play sample_zobrist castle_pos e1a1) 4 = None
  /\ castlableRooks (@play sample_zobrist castle_pos e1a1)
     = Z.lor (Z.shiftl 1 56) (Z.shiftl 1 63)
  /\ rule50 (@play sample_zobrist castle_pos e1a1) = 0.
Proof. repeat split; vm_compute; reflexivity. Qed.

(** With the sample key service [set_pos] passes [key_ok], and [play] fails
    it as soon as the en-passant square changes. *)
Example key_ok_start_pos :
  @key_ok sample_zobrist start_pos = true
  /\ @key_ok sample_zobrist (@play sample_zobrist start_pos g1f3) = true
  /\ @key_ok sample_zobrist (@play sample_zobrist start_pos e2e4) = false.
Proof. repeat split; vm_compute; reflexivity. Qed.

(** The castling field [-] is no letter of the castling loop: the loop sets
    the bit of the square the placement loop stopped at (square 8). *)
Example set_pos_no_castling :
  castlableRooks (@set_pos sample_zobrist empty_fen) = 256.
Proof. vm_compute. reflexivity. Qed.

(** [play] called on its own argument ([this] is [before]) reads the
    en-passant square and the castling rights it has just written, and leaves
    a key other than that of [play] on two objects. *)
Example play_obj_aliased :
  (key <$> (@play_obj sample_zobrist 0 0 e2e4 two_objects ≫= (.!! 0%nat)))
  <> Some (key (@play sample_zobrist start_pos e2e4))
  /\ (byColor <$> (@play_obj sample_zobrist 0 0 e2e4 two_objects ≫= (.!! 0%nat)))
     = Some (byColor (@play sample_zobrist start_pos e2e4)).
Proof. split; vm_compute; [discriminate | reflexivity]. Qed.

(** * Further properties of the code *)

(** ** Colours, pushes and ranks ([types.c]) *)

Lemma lxor_7_mirror (r : Z) : 0 <= r < 8 -> Z.lxor r 7 = 7 - r.
Proof.
  intros Hr.
  assert (H : r = 0 \/ r = 1 \/ r = 2 \/ r = 3 \/ r = 4 \/ r = 5 \/ r = 6 \/ r = 7)
    by lia.
  repeat destruct H as [H | H]; subst; reflexivity.
Qed.

Lemma relative_rank_cases (c r : Z) :
  color_ok c = true -> 0 <= r < 8 ->
  relative_rank c r = if c =? WHITE then r else RANK_8 - r.
Proof.
  intros Hc Hr. apply color_ok_cases in Hc. unfold relative_rank, RANK_8.
  destruct Hc; subst; cbn [Z.eqb WHITE Z.mul].
  - apply Z.lxor_0_r.
  - now apply lxor_7_mirror.
Qed.

Lemma rank_file_range (s : Z) :
  0 <= s < 64 ->
  0 <= rank_of s < 8 /\ 0 <= file_of s < 8 /\ s = 8 * rank_of s + file_of s.
Proof.
  intros Hs. unfold rank_of, file_of, NB_FILE.
  rewrite Z.quot_div_nonneg, Z.rem_mod_nonneg by lia.
  pose proof (Z.div_mod s 8). pose proof (Z.mod_pos_bound s 8). lia.
Qed.

(** X1.  [opposite] maps each of the two colours to the other one: the
    result is again a colour, differs from the argument, and applying
    [opposite] twice gives the argument back. *)
Theorem X1_opposite_other_colour (c : Z) :
  color_ok c = true ->
  color_ok (opposite c) = true
  /\ opposite c <> c
  /\ (c = WHITE -> opposite c = BLACK)
  /\ (c = BLACK -> opposite c = WHITE)
  /\ opposite (opposite c) = c.
Proof.
  intros Hc. apply color_ok_cases in Hc.
  destruct Hc; subst; repeat split; try reflexivity; try discriminate.
Qed.

Lemma X1_opposite_other_colour_witness :
  color_ok BLACK = true
  /\ color_ok (opposite BLACK) = true
  /\ opposite BLACK <> BLACK
  /\ (BLACK = WHITE -> opposite BLACK = BLACK)
  /\ (BLACK = BLACK -> opposite BLACK = WHITE)
  /\ opposite (opposite BLACK) = BLACK.
Proof.
  split; [reflexivity|].
  exact (X1_opposite_other_colour BLACK eq_refl).
Defined.

(** X2.  A push of one step: from a square that is not on the last rank as
    the colour sees it, [sq + push_inc(color)] is a square of the board, on
    the same file and one rank further from that colour's side; the two
    colours push in opposite directions. *)
Theorem X2_push_advances_one_rank (c s : Z) :
  color_ok c = true -> square_ok s = true -> relative_rank_of c s < RANK_8 ->
  square_ok (s + push_inc c) = true
  /\ file_of (s + push_inc c) = file_of s
  /\ relative_rank_of c (s + push_inc c) = relative_rank_of c s + 1
  /\ push_inc (opposite c) = - push_inc c.
Proof.
  intros Hc Hs Hr. apply square_ok_range in Hs.
  destruct (rank_file_range s Hs) as (Hq & Hf & Hsq).
  unfold relative_rank_of in *.
  rewrite (relative_rank_cases c (rank_of s) Hc Hq) in Hr |- *.
  apply color_ok_cases in Hc. unfold RANK_8 in *.
  destruct Hc; subst c; cbn [Z.eqb WHITE] in *.
  - change (push_inc 0) with 8. change (push_inc (opposite 0)) with (-8).
    assert (Hs' : 0 <= s + 8 < 64) by lia.
    destruct (rank_file_range (s + 8) Hs') as (Hq' & Hf' & Hsq').
    assert (rank_of (s + 8) = rank_of s + 1 /\ file_of (s + 8) = file_of s)
      as [Hr1 Hf1] by lia.
    split; [apply square_ok_range; lia|].
    split; [exact Hf1|]. split; [|reflexivity].
    rewrite relative_rank_cases by (try reflexivity; lia).
    cbn [Z.eqb WHITE]. exact Hr1.
  - change (push_inc 1) with (-8). change (push_inc (opposite 1)) with 8.
    assert (Hs' : 0 <= s + -8 < 64) by lia.
    destruct (rank_file_range (s + -8) Hs') as (Hq' & Hf' & Hsq').
    assert (rank_of (s + -8) = rank_of s - 1 /\ file_of (s + -8) = file_of s)
      as [Hr1 Hf1] by lia.
    split; [apply square_ok_range; lia|].
    split; [exact Hf1|]. split; [|reflexivity].
    rewrite relative_rank_cases by (try reflexivity; lia).
    cbn [Z.eqb WHITE]. unfold RANK_8. lia.
Qed.

Lemma X2_push_advances_one_rank_witness :
  (color_ok BLACK = true /\ square_ok 52 = true
   /\ relative_rank_of BLACK 52 < RANK_8)
  /\ square_ok (52 + push_inc BLACK) = true
  /\ file_of (52 + push_inc BLACK) = file_of 52
  /\ relative_rank_of BLACK (52 + push_inc BLACK) = relative_rank_of BLACK 52 + 1
  /\ push_inc (opposite BLACK) = - push_inc BLACK.
Proof.
  split; [repeat split; reflexivity|].
  exact (X2_push_advances_one_rank BLACK 52 eq_refl eq_refl eq_refl).
Defined.

(** X3.  Every square is the square of its rank and its file: [rank_of]
    and [file_of] of a square of the board are in range, and [square_from]
    puts them together again.  (With the truncating division and remainder
    of C the last equation holds for every [int].) *)
Theorem X3_square_decomposition (s : Z) :
  square_ok s = true ->
  0 <= rank_of s < NB_RANK
  /\ 0 <= file_of s < NB_FILE
  /\ square_from (rank_of s) (file_of s) = s
  /\ (forall x, square_from (rank_of x) (file_of x) = x).
Proof.
  intros Hs. apply square_ok_range in Hs.
  destruct (rank_file_range s Hs) as (Hq & Hf & Hsq).
  unfold NB_RANK, NB_FILE. repeat split; try lia.
  - unfold square_from, NB_FILE. lia.
  - intros x. unfold square_from, rank_of, file_of, NB_FILE.
    symmetry. apply Z.quot_rem'.
Qed.

Lemma X3_square_decomposition_witness :
  square_ok 28 = true
  /\ 0 <= rank_of 28 < NB_RANK
  /\ 0 <= file_of 28 < NB_FILE
  /\ square_from (rank_of 28) (file_of 28) = 28
  /\ (forall x, square_from (rank_of x) (file_of x) = x).
Proof.
  split; [reflexivity|].
  exact (X3_square_decomposition 28 eq_refl).
Defined.

(** X4.  [relative_rank] is the rank as the colour sees it: the rank itself
    for white, its mirror image [RANK_8 - rank] for black.  It stays on the
    board, is its own inverse, the two colours see mirrored ranks, and
    [relative_rank_of] of a square is the relative rank of its rank. *)
Theorem X4_relative_rank_mirror (c r : Z) :
  color_ok c = true -> 0 <= r < NB_RANK ->
  relative_rank c r = (if c =? WHITE then r else RANK_8 - r)
  /\ 0 <= relative_rank c r < NB_RANK
  /\ relative_rank c (relative_rank c r) = r
  /\ relative_rank (opposite c) r = RANK_8 - relative_rank c r
  /\ (forall f, 0 <= f < NB_FILE ->
        relative_rank_of c (square_from r f) = relative_rank c r).
Proof.
  intros Hc Hr. unfold NB_RANK, NB_FILE in *.
  pose proof (relative_rank_cases c r Hc Hr) as E.
  pose proof (opposite_ok c Hc) as Ho.
  pose proof (relative_rank_cases (opposite c) r Ho Hr) as Eo.
  split; [exact E|].
  assert (Hrange : 0 <= relative_rank c r < 8).
  { rewrite E. unfold RANK_8. destruct (c =? WHITE); lia. }
  split; [exact Hrange|].
  split.
  - rewrite (relative_rank_cases c _ Hc Hrange), E.
    unfold RANK_8. destruct (c =? WHITE); lia.
  - split.
    + rewrite Eo, E. apply color_ok_cases in Hc.
      destruct Hc; subst c; [change (opposite 0) with 1 | change (opposite 1) with 0];
        cbn; unfold RANK_8; lia.
    + intros f Hf. unfold relative_rank_of.
      now destruct (rank_file_square_from r f Hr Hf) as [-> _].
Qed.

Lemma X4_relative_rank_mirror_witness :
  (color_ok BLACK = true /\ 0 <= 1 < NB_RANK)
  /\ relative_rank BLACK 1 = (if BLACK =? WHITE then 1 else RANK_8 - 1)
  /\ 0 <= relative_rank BLACK 1 < NB_RANK
  /\ relative_rank BLACK (relative_rank BLACK 1) = 1
  /\ relative_rank (opposite BLACK) 1 = RANK_8 - relative_rank BLACK 1
  /\ (forall f, 0 <= f < NB_FILE ->
        relative_rank_of BLACK (square_from 1 f) = relative_rank BLACK 1).
Proof.
  assert (H : 0 <= 1 < NB_RANK) by (unfold NB_RANK; lia).
  split; [split; [reflexivity | exact H]|].
  exact (X4_relative_rank_mirror BLACK 1 eq_refl H).
Defined.

(** ** Looking men up ([occupied], [get], [get_RQ], [get_BQ], [color_on],
    [piece_on]) *)

Lemma get_lookup (P : Position) (c p s : Z) :
  board_ok P = true -> color_ok c = true -> piece_ok p = true ->
  (bb_test (get P c p) s = true <-> piece_at P s = Some (c, p)).
Proof.
  intros Hb Hc Hp. pose proof (board_ok_repr P Hb) as Hr. split.
  - now apply repr_get.
  - intros Hv. now apply (repr_get_bit (piece_at P)).
Qed.

Lemma piece_at_some (P : Position) (c p s : Z) :
  piece_at P s = Some (c, p)
  <-> bb_test (occupied P) s = true /\ color_on P s = c /\ piece_on P s = p.
Proof.
  unfold piece_at. destruct (bb_test (occupied P) s); split.
  - intros H. injection H as <- <-. auto.
  - intros (_ & <- & <-). reflexivity.
  - discriminate.
  - intros (H & _). discriminate.
Qed.

Lemma view_bits_cases (v : view) (P : Position) (s : Z) :
  repr v P ->
  match v s with
  | Some (c, p) => color_ok c = true /\ piece_ok p = true
  | None => True
  end.
Proof.
  intros Hr. destruct (v s) as [[c p]|] eqn:Hv; [|exact I].
  destruct (repr_dom v P Hr s c p Hv) as (Hc & Hp & _). auto.
Qed.

(** On a consistent board the bit of [get P c p] at [s] is decided by the
    man on [s]. *)
Lemma get_bits_piece_at (P : Position) (c p s : Z) :
  board_ok P = true -> color_ok c = true -> piece_ok p = true ->
  Z.testbit (get P c p) s
  = match piece_at P s with
    | Some (c', p') => (c' =? c) && (p' =? p)
    | None => false
    end.
Proof.
  intros Hb Hc Hp. pose proof (board_ok_repr P Hb) as Hr.
  rewrite (repr_get_bits (piece_at P) P c p s Hr Hc Hp).
  unfold view_color, view_piece. now destruct (piece_at P s) as [[c' p']|].
Qed.

(** X5.  [get], [color_on] and [piece_on] agree on a consistent position:
    square [s] is in [get(color, piece)] exactly when it is occupied and
    [color_on] and [piece_on] return that colour and that piece; and on an
    occupied square the two return a colour and a piece whose bitboard
    holds the square, which is one of the 64 squares. *)
Theorem X5_get_agrees_with_lookup (P : Position) (c p s : Z) :
  board_ok P = true -> color_ok c = true -> piece_ok p = true ->
  (bb_test (get P c p) s = true
   <-> bb_test (occupied P) s = true /\ color_on P s = c /\ piece_on P s = p)
  /\ (bb_test (occupied P) s = true ->
        color_ok (color_on P s) = true
        /\ piece_ok (piece_on P s) = true
        /\ bb_test (get P (color_on P s) (piece_on P s)) s = true
        /\ square_ok s = true).
Proof.
  intros Hb Hc Hp. split.
  - rewrite <- piece_at_some. now apply get_lookup.
  - intros Hocc. pose proof (board_ok_repr P Hb) as Hr.
    assert (Hv : piece_at P s = Some (color_on P s, piece_on P s))
      by (apply piece_at_some; auto).
    destruct (repr_dom _ P Hr s _ _ Hv) as (Hc' & Hp' & Hs).
    repeat split; try assumption.
    now apply (repr_get_bit (piece_at P)).
Qed.

Lemma X5_get_agrees_with_lookup_witness :
  (board_ok start_pos = true /\ color_ok WHITE = true /\ piece_ok KNIGHT = true)
  /\ (bb_test (get start_pos WHITE KNIGHT) 6 = true
      <-> bb_test (occupied start_pos) 6 = true /\ color_on start_pos 6 = WHITE
          /\ piece_on start_pos 6 = KNIGHT)
  /\ (bb_test (occupied start_pos) 6 = true ->
        color_ok (color_on start_pos 6) = true
        /\ piece_ok (piece_on start_pos 6) = true
        /\ bb_test (get start_pos (color_on start_pos 6) (piece_on start_pos 6)) 6
           = true
        /\ square_ok 6 = true).
Proof.
  assert (H : board_ok start_pos = true) by (vm_compute; reflexivity).
  split; [split; [exact H | split; reflexivity]|].
  exact (X5_get_agrees_with_lookup start_pos WHITE KNIGHT 6 H eq_refl eq_refl).
Defined.

Lemma slider_bits (P : Position) (c p s : Z) :
  board_ok P = true -> color_ok c = true -> piece_ok p = true ->
  bb_test (Z.land (arr (byColor P) c)
                  (Z.lor (arr (byPiece P) p) (arr (byPiece P) QUEEN))) s = true
  <-> bb_test (occupied P) s = true /\ color_on P s = c
      /\ (piece_on P s = p \/ piece_on P s = QUEEN).
Proof.
  intros Hb Hc Hp.
  rewrite Z.land_lor_distr_r. fold (get P c p). fold (get P c QUEEN).
  unfold bb_test at 1. rewrite Z.lor_spec, orb_true_iff.
  change (Z.testbit (get P c p) s) with (bb_test (get P c p) s).
  change (Z.testbit (get P c QUEEN) s) with (bb_test (get P c QUEEN) s).
  rewrite (get_lookup P c p s Hb Hc Hp), (get_lookup P c QUEEN s Hb Hc eq_refl).
  rewrite !piece_at_some. tauto.
Qed.

(** X6.  The slider sets of a consistent position: [get_RQ(color)] holds
    the squares of the rooks and queens of that colour, [get_BQ(color)]
    those of its bishops and queens; each is the union of two sets of [get],
    and a square is in both exactly when a queen stands on it. *)
Theorem X6_slider_sets (P : Position) (c s : Z) :
  board_ok P = true -> color_ok c = true ->
  (bb_test (get_RQ P c) s = true
   <-> bb_test (occupied P) s = true /\ color_on P s = c
       /\ (piece_on P s = ROOK \/ piece_on P s = QUEEN))
  /\ (bb_test (get_BQ P c) s = true
      <-> bb_test (occupied P) s = true /\ color_on P s = c
          /\ (piece_on P s = BISHOP \/ piece_on P s = QUEEN))
  /\ get_RQ P c = Z.lor (get P c ROOK) (get P c QUEEN)
  /\ get_BQ P c = Z.lor (get P c BISHOP) (get P c QUEEN)
  /\ Z.land (get_RQ P c) (get_BQ P c) = get P c QUEEN.
Proof.
  intros Hb Hc.
  split; [apply (slider_bits P c ROOK s Hb Hc eq_refl)|].
  split; [apply (slider_bits P c BISHOP s Hb Hc eq_refl)|].
  assert (HRQ : get_RQ P c = Z.lor (get P c ROOK) (get P c QUEEN))
    by (unfold get_RQ, get; apply Z.land_lor_distr_r).
  assert (HBQ : get_BQ P c = Z.lor (get P c BISHOP) (get P c QUEEN))
    by (unfold get_BQ, get; apply Z.land_lor_distr_r).
  split; [exact HRQ|]. split; [exact HBQ|].
  rewrite HRQ, HBQ. apply Z.bits_inj'. intros n _.
  rewrite Z.land_spec, !Z.lor_spec.
  rewrite (get_bits_piece_at P c ROOK n Hb Hc eq_refl),
    (get_bits_piece_at P c BISHOP n Hb Hc eq_refl),
    (get_bits_piece_at P c QUEEN n Hb Hc eq_refl).
  destruct (piece_at P n) as [[c' p']|]; [|reflexivity].
  destruct (c' =? c); [|reflexivity]. cbn [andb].
  destruct (Z.eqb_spec p' ROOK), (Z.eqb_spec p' BISHOP), (Z.eqb_spec p' QUEEN);
    subst; try reflexivity; discriminate.
Qed.

Lemma X6_slider_sets_witness :
  (board_ok start_pos = true /\ color_ok BLACK = true)
  /\ (bb_test (get_RQ start_pos BLACK) 59 = true
      <-> bb_test (occupied start_pos) 59 = true /\ color_on start_pos 59 = BLACK
          /\ (piece_on start_pos 59 = ROOK \/ piece_on start_pos 59 = QUEEN))
  /\ (bb_test (get_BQ start_pos BLACK) 59 = true
      <-> bb_test (occupied start_pos) 59 = true /\ color_on start_pos 59 = BLACK
          /\ (piece_on start_pos 59 = BISHOP \/ piece_on start_pos 59 = QUEEN))
  /\ get_RQ start_pos BLACK
     = Z.lor (get start_pos BLACK ROOK) (get start_pos BLACK QUEEN)
  /\ get_BQ start_pos BLACK
     = Z.lor (get start_pos BLACK BISHOP) (get start_pos BLACK QUEEN)
  /\ Z.land (get_RQ start_pos BLACK) (get_BQ start_pos BLACK)
     = get start_pos BLACK QUEEN.
Proof.
  assert (H : board_ok start_pos = true) by (vm_compute; reflexivity).
  split; [split; [exact H | reflexivity]|].
  exact (X6_slider_sets start_pos BLACK 59 H eq_refl).
Defined.

(** X7.  The twelve sets [get(color, piece)] of a consistent position
    partition the occupied squares: two different ones share no square, and
    [occupied] is their union, a set of squares of the board. *)
Theorem X7_occupied_partition (P : Position) :
  board_ok P = true ->
  (forall c p c' p',
     color_ok c = true -> piece_ok p = true ->
     color_ok c' = true -> piece_ok p' = true ->
     (c, p) <> (c', p') -> Z.land (get P c p) (get P c' p') = 0)
  /\ occupied P
     = fold_right Z.lor 0
         (flat_map (fun c => map (get P c) all_pieces) all_colors)
  /\ bb_ok (occupied P) = true.
Proof.
  intros Hb. pose proof (board_ok_repr P Hb) as Hr. split; [|split].
  - intros c p c' p' Hc Hp Hc' Hp' Hne. apply Z.bits_inj'. intros n _.
    rewrite Z.land_spec, Z.bits_0.
    rewrite (get_bits_piece_at P c p n Hb Hc Hp),
            (get_bits_piece_at P c' p' n Hb Hc' Hp').
    destruct (piece_at P n) as [[c0 p0]|]; [|reflexivity].
    destruct (Z.eqb_spec c0 c), (Z.eqb_spec p0 p), (Z.eqb_spec c0 c'),
      (Z.eqb_spec p0 p'); try reflexivity.
    subst. congruence.
  - apply Z.bits_inj'. intros n _.
    change (Z.testbit (occupied P) n) with (bb_test (occupied P) n).
    rewrite (repr_occupied (piece_at P) P n Hr).
    cbn [all_colors all_pieces flat_map map app fold_right].
    rewrite !Z.lor_spec, Z.bits_0.
    rewrite !(get_bits_piece_at P _ _ n Hb) by reflexivity.
    pose proof (view_bits_cases (piece_at P) P n Hr) as Hv.
    destruct (piece_at P n) as [[c0 p0]|]; [|reflexivity].
    destruct Hv as [Hc0 Hp0].
    apply color_ok_cases in Hc0. apply piece_ok_cases in Hp0.
    destruct Hc0 as [-> | ->];
      destruct Hp0 as [-> | [-> | [-> | [-> | [-> | ->]]]]]; reflexivity.
  - unfold occupied. apply bb_ok_lor; now apply (repr_okC _ P Hr).
Qed.

Lemma X7_occupied_partition_witness :
  board_ok capture_pos = true
  /\ (forall c p c' p',
        color_ok c = true -> piece_ok p = true ->
        color_ok c' = true -> piece_ok p' = true ->
        (c, p) <> (c', p') ->
        Z.land (get capture_pos c p) (get capture_pos c' p') = 0)
  /\ occupied capture_pos
     = fold_right Z.lor 0
         (flat_map (fun c => map (get capture_pos c) all_pieces) all_colors)
  /\ bb_ok (occupied capture_pos) = true.
Proof.
  assert (H : board_ok capture_pos = true) by (vm_compute; reflexivity).
  split; [exact H|].
  exact (X7_occupied_partition capture_pos H).
Defined.

(** ** Putting a man on the board and taking it off ([set], [clear]) *)

Lemma bb_clear_set (b sq : Z) :
  bb_ok b = true -> 0 <= sq < 64 -> Z.testbit b sq = false ->
  bb_clear (bb_set b sq) sq = b.
Proof.
  intros Hb Hsq Hbit. apply Z.bits_inj'. intros n _.
  rewrite bb_clear_bits, bb_set_bits by (auto using bb_ok_set).
  destruct (Z.eqb_spec n sq) as [-> | _]; [now rewrite Hbit|].
  now destruct (Z.testbit b n).
Qed.

Lemma bb_set_clear (b sq : Z) :
  bb_ok b = true -> 0 <= sq < 64 -> Z.testbit b sq = true ->
  bb_set (bb_clear b sq) sq = b.
Proof.
  intros Hb Hsq Hbit. apply Z.bits_inj'. intros n _.
  rewrite bb_set_bits, bb_clear_bits by auto.
  destruct (Z.eqb_spec n sq) as [-> | _]; [now rewrite Hbit|].
  now destruct (Z.testbit b n).
Qed.

Lemma arr_upd_twice (a : list Z) (i : Z) (f g : Z -> Z) :
  g (f (arr a i)) = arr a i -> arr_upd (arr_upd a i f) i g = a.
Proof.
  unfold arr_upd, arr. generalize (Z.to_nat i) as n. intros n.
  revert a. induction n as [|n IH]; intros [|x a] H; cbn in *;
    try reflexivity.
  - now rewrite H.
  - now rewrite IH.
Qed.

Lemma lxor_eqb_cancel (a b z : Z) :
  (Z.lxor a z =? Z.lxor b z) = (a =? b).
Proof.
  destruct (Z.eqb_spec a b) as [-> | Hne].
  - apply Z.eqb_refl.
  - apply Z.eqb_neq. intros H. apply Hne.
    transitivity (Z.lxor (Z.lxor a z) z); [xor_ring | rewrite H; xor_ring].
Qed.

Section SetClear.
Context {ZS : Zobrist}.

Lemma key_scratch_set (P : Position) (c p sq : Z) :
  board_ok P = true -> color_ok c = true -> piece_ok p = true ->
  square_ok sq = true -> bb_test (occupied P) sq = false ->
  key_scratch (set c p sq P) = Z.lxor (key_scratch P) (zobrist_key c p sq).
Proof.
  intros Hb Hc Hp Hsq Hocc. pose proof (board_ok_repr P Hb) as Hr.
  rewrite !key_scratch_eq.
  rewrite (key_board_set (piece_at P) P c p sq Hr) by
    (auto; apply (repr_unoccupied _ P sq Hr Hocc)).
  change (turn (set c p sq P)) with (turn P). xor_ring.
Qed.

Lemma key_scratch_clear (P : Position) (c p sq : Z) :
  board_ok P = true -> piece_at P sq = Some (c, p) ->
  key_scratch (clear c p sq P) = Z.lxor (key_scratch P) (zobrist_key c p sq).
Proof.
  intros Hb Hv. pose proof (board_ok_repr P Hb) as Hr.
  rewrite !key_scratch_eq.
  rewrite (key_board_clear (piece_at P) P c p sq Hr Hv).
  change (turn (clear c p sq P)) with (turn P). xor_ring.
Qed.

Lemma set_get (P : Position) (c p sq : Z) :
  board_ok P = true -> color_ok c = true -> piece_ok p = true ->
  get (set c p sq P) c p = bb_set (get P c p) sq.
Proof.
  intros Hb Hc Hp. apply board_ok_unfold in Hb.
  destruct Hb as (HlC & HlP & _).
  apply color_ok_cases in Hc. apply piece_ok_cases in Hp.
  unfold get, set. cbn [byColor byPiece].
  rewrite !arr_upd_get by lia. rewrite !Z.eqb_refl.
  unfold bb_set. apply Z.bits_inj'. intros n _.
  rewrite !Z.land_spec, !Z.lor_spec, Z.land_spec.
  destruct (Z.testbit (arr (byColor P) c) n), (Z.testbit (arr (byPiece P) p) n),
    (Z.testbit (shl64 1 sq) n); reflexivity.
Qed.

Lemma clear_get (P : Position) (c p sq : Z) :
  board_ok P = true -> color_ok c = true -> piece_ok p = true ->
  get (clear c p sq P) c p = bb_clear (get P c p) sq.
Proof.
  intros Hb Hc Hp. apply board_ok_unfold in Hb.
  destruct Hb as (HlC & HlP & _).
  apply color_ok_cases in Hc. apply piece_ok_cases in Hp.
  unfold get, clear. cbn [byColor byPiece].
  rewrite !arr_upd_get by lia. rewrite !Z.eqb_refl.
  unfold bb_clear. apply Z.bits_inj'. intros n _.
  rewrite !Z.land_spec.
  destruct (Z.testbit (arr (byColor P) c) n), (Z.testbit (arr (byPiece P) p) n),
    (Z.testbit (not64 (shl64 1 sq)) n); reflexivity.
Qed.

(** X8.  [set] on an empty square of a consistent position: the position
    stays consistent, the man is found on that square and every other square
    is as before, the set [get(color, piece)] gains the square, and the key
    stays in step with the board: the key recomputed by [key_ok] changes by
    the same term as the stored key, so [key_ok] answers as before. *)
Theorem X8_set_places_a_man (P : Position) (c p sq : Z) :
  board_ok P = true -> color_ok c = true -> piece_ok p = true ->
  square_ok sq = true -> bb_test (occupied P) sq = false ->
  board_ok (set c p sq P) = true
  /\ (forall s, piece_at (set c p sq P) s
                = if s =? sq then Some (c, p) else piece_at P s)
  /\ get (set c p sq P) c p = bb_set (get P c p) sq
  /\ key_scratch (set c p sq P) = Z.lxor (key_scratch P) (zobrist_key c p sq)
  /\ key_ok (set c p sq P) = key_ok P.
Proof.
  intros Hb Hc Hp Hsq Hocc. pose proof (board_ok_repr P Hb) as Hr.
  pose proof (repr_unoccupied _ P sq Hr Hocc) as Hnone.
  pose proof (set_repr (piece_at P) P c p sq Hr Hnone Hc Hp Hsq) as Hr'.
  pose proof (key_scratch_set P c p sq Hb Hc Hp Hsq Hocc) as Hk.
  split; [exact (repr_board_ok _ _ Hr')|].
  split; [intros s; exact (repr_piece_at _ _ s Hr')|].
  split; [now apply set_get|].
  split; [exact Hk|].
  unfold key_ok. rewrite Hk. cbn [set key]. apply lxor_eqb_cancel.
Qed.

(** X9.  [clear] of the man that stands on a square of a consistent
    position: the position stays consistent, the square is empty afterwards
    and every other square is as before, the set [get(color, piece)] loses
    the square, and the key stays in step with the board. *)
Theorem X9_clear_removes_a_man (P : Position) (c p sq : Z) :
  board_ok P = true -> color_ok c = true -> piece_ok p = true ->
  bb_test (get P c p) sq = true ->
  board_ok (clear c p sq P) = true
  /\ (forall s, piece_at (clear c p sq P) s
                = if s =? sq then None else piece_at P s)
  /\ get (clear c p sq P) c p = bb_clear (get P c p) sq
  /\ key_scratch (clear c p sq P) = Z.lxor (key_scratch P) (zobrist_key c p sq)
  /\ key_ok (clear c p sq P) = key_ok P.
Proof.
  intros Hb Hc Hp Hbit. pose proof (board_ok_repr P Hb) as Hr.
  pose proof (repr_get _ P c p sq Hr Hc Hp Hbit) as Hv.
  pose proof (clear_repr (piece_at P) P c p sq Hr Hv) as Hr'.
  pose proof (key_scratch_clear P c p sq Hb Hv) as Hk.
  split; [exact (repr_board_ok _ _ Hr')|].
  split; [intros s; exact (repr_piece_at _ _ s Hr')|].
  split; [now apply clear_get|].
  split; [exact Hk|].
  unfold key_ok. rewrite Hk. cbn [clear key]. apply lxor_eqb_cancel.
Qed.

(** X10.  [set] and [clear] undo each other: on a consistent position,
    putting a man on an empty square and clearing it again gives back the
    position, bitboards and key; so does clearing a man that stands on a
    square and putting it back. *)
Theorem X10_set_clear_round_trip (P : Position) (c p sq : Z) :
  board_ok P = true -> color_ok c = true -> piece_ok p = true ->
  square_ok sq = true ->
  (bb_test (occupied P) sq = false -> clear c p sq (set c p sq P) = P)
  /\ (bb_test (get P c p) sq = true -> set c p sq (clear c p sq P) = P).
Proof.
  intros Hb Hc Hp Hsq. pose proof (board_ok_repr P Hb) as Hr.
  pose proof (repr_okC _ P Hr c Hc) as HokC.
  pose proof (repr_okP _ P Hr p Hp) as HokP.
  apply square_ok_range in Hsq.
  assert (Hkey : forall k z, Z.lxor (Z.lxor k z) z = k) by (intros; xor_ring).
  split.
  - intros Hocc. pose proof (repr_unoccupied _ P sq Hr Hocc) as Hnone.
    pose proof (repr_color _ P Hr c sq Hc) as HC.
    pose proof (repr_piece _ P Hr p sq Hp) as HP.
    unfold view_color, view_piece in HC, HP. rewrite Hnone in HC, HP.
    unfold color_bit, piece_bit, bb_test in HC, HP.
    destruct P as [bc bp cr k t e r]. unfold clear, set. cbn [byColor byPiece
      castlableRooks key turn epSquare rule50] in *.
    rewrite !arr_upd_twice, Hkey by (now apply bb_clear_set). reflexivity.
  - intros Hbit. unfold get, bb_test in Hbit. rewrite Z.land_spec in Hbit.
    apply andb_true_iff in Hbit. destruct Hbit as [HC HP].
    destruct P as [bc bp cr k t e r]. unfold clear, set. cbn [byColor byPiece
      castlableRooks key turn epSquare rule50] in *.
    rewrite !arr_upd_twice, Hkey by (now apply bb_set_clear). reflexivity.
Qed.

(** X11.  [set] does not replace a man.  On a square of a consistent
    position where another man stands (of the other colour, of another
    kind, or both), [set] leaves a board that is not consistent.  This is
    why [play] clears a captured man before it moves the capturing one. *)
Theorem X11_set_on_occupied_square (P : Position) (c p sq : Z) :
  board_ok P = true -> color_ok c = true -> piece_ok p = true ->
  bb_test (occupied P) sq = true ->
  (color_on P sq, piece_on P sq) <> (c, p) ->
  board_ok (set c p sq P) = false.
Proof.
  intros Hb Hc Hp Hocc Hne. pose proof (board_ok_repr P Hb) as Hr.
  assert (Hv : piece_at P sq = Some (color_on P sq, piece_on P sq))
    by (apply piece_at_some; auto).
  destruct (repr_dom _ P Hr sq _ _ Hv) as (Hc0 & Hp0 & Hsq).
  pose proof Hsq as Hsq'. apply square_ok_range in Hsq'.
  pose proof (repr_lenC _ P Hr) as HlC. pose proof (repr_lenP _ P Hr) as HlP.
  destruct (board_ok (set c p sq P)) eqn:Hb'; [|reflexivity].
  exfalso. apply Hne.
  pose proof (board_ok_repr _ Hb') as Hr'.
  set (Q := set c p sq P) in *.
  assert (HC1 : color_bit Q c sq = true).
  { unfold Q. rewrite set_color_bit by auto. now rewrite !Z.eqb_refl, orb_true_r. }
  assert (HC0 : color_bit Q (color_on P sq) sq = true).
  { unfold Q. rewrite set_color_bit by auto.
    rewrite (repr_color _ P Hr _ sq Hc0). unfold view_color.
    now rewrite Hv, Z.eqb_refl. }
  assert (HP1 : piece_bit Q p sq = true).
  { unfold Q. rewrite set_piece_bit by auto. now rewrite !Z.eqb_refl, orb_true_r. }
  assert (HP0 : piece_bit Q (piece_on P sq) sq = true).
  { unfold Q. rewrite set_piece_bit by auto.
    rewrite (repr_piece _ P Hr _ sq Hp0). unfold view_piece.
    now rewrite Hv, Z.eqb_refl. }
  rewrite (repr_color _ Q Hr' _ sq) in HC1 by assumption.
  rewrite (repr_color _ Q Hr' _ sq) in HC0 by assumption.
  rewrite (repr_piece _ Q Hr' _ sq) in HP1 by assumption.
  rewrite (repr_piece _ Q Hr' _ sq) in HP0 by assumption.
  unfold view_color, view_piece in *.
  destruct (piece_at Q sq) as [[c' p']|]; [|discriminate].
  apply Z.eqb_eq in HC1, HC0, HP1, HP0. congruence.
Qed.

End SetClear.

Lemma X8_set_places_a_man_witness :
  (board_ok start_pos = true /\ color_ok WHITE = true /\ piece_ok QUEEN = true
   /\ square_ok 28 = true /\ bb_test (occupied start_pos) 28 = false)
  /\ board_ok (@set sample_zobrist WHITE QUEEN 28 start_pos) = true
  /\ (forall s, piece_at (@set sample_zobrist WHITE QUEEN 28 start_pos) s
                = if s =? 28 then Some (WHITE, QUEEN) else piece_at start_pos s)
  /\ get (@set sample_zobrist WHITE QUEEN 28 start_pos) WHITE QUEEN
     = bb_set (get start_pos WHITE QUEEN) 28
  /\ @key_scratch sample_zobrist (@set sample_zobrist WHITE QUEEN 28 start_pos)
     = Z.lxor (@key_scratch sample_zobrist start_pos)
              (@zobrist_key sample_zobrist WHITE QUEEN 28)
  /\ @key_ok sample_zobrist (@set sample_zobrist WHITE QUEEN 28 start_pos)
     = @key_ok sample_zobrist start_pos.
Proof.
  assert (H : board_ok start_pos = true) by (vm_compute; reflexivity).
  assert (H0 : bb_test (occupied start_pos) 28 = false)
    by (vm_compute; reflexivity).
  split; [split; [exact H | split; [reflexivity | split; [reflexivity |
          split; [reflexivity | exact H0]]]]|].
  exact (@X8_set_places_a_man sample_zobrist start_pos WHITE QUEEN 28
           H eq_refl eq_refl eq_refl H0).
Defined.

Lemma X9_clear_removes_a_man_witness :
  (board_ok start_pos = true /\ color_ok WHITE = true /\ piece_ok PAWN = true
   /\ bb_test (get start_pos WHITE PAWN) 12 = true)
  /\ board_ok (@clear sample_zobrist WHITE PAWN 12 start_pos) = true
  /\ (forall s, piece_at (@clear sample_zobrist WHITE PAWN 12 start_pos) s
                = if s =? 12 then None else piece_at start_pos s)
  /\ get (@clear sample_zobrist WHITE PAWN 12 start_pos) WHITE PAWN
     = bb_clear (get start_pos WHITE PAWN) 12
  /\ @key_scratch sample_zobrist (@clear sample_zobrist WHITE PAWN 12 start_pos)
     = Z.lxor (@key_scratch sample_zobrist start_pos)
              (@zobrist_key sample_zobrist WHITE PAWN 12)
  /\ @key_ok sample_zobrist (@clear sample_zobrist WHITE PAWN 12 start_pos)
     = @key_ok sample_zobrist start_pos.
Proof.
  assert (H : board_ok start_pos = true) by (vm_compute; reflexivity).
  assert (H0 : bb_test (get start_pos WHITE PAWN) 12 = true)
    by (vm_compute; reflexivity).
  split; [split; [exact H | split; [reflexivity | split; [reflexivity | exact H0]]]|].
  exact (@X9_clear_removes_a_man sample_zobrist start_pos WHITE PAWN 12
           H eq_refl eq_refl H0).
Defined.

Lemma X10_set_clear_round_trip_witness :
  (board_ok start_pos = true /\ color_ok BLACK = true /\ piece_ok ROOK = true
   /\ square_ok 35 = true)
  /\ (bb_test (occupied start_pos) 35 = false ->
        @clear sample_zobrist BLACK ROOK 35
          (@set sample_zobrist BLACK ROOK 35 start_pos) = start_pos)
  /\ (bb_test (get start_pos BLACK ROOK) 35 = true ->
        @set sample_zobrist BLACK ROOK 35
          (@clear sample_zobrist BLACK ROOK 35 start_pos) = start_pos).
Proof.
  assert (H : board_ok start_pos = true) by (vm_compute; reflexivity).
  split; [split; [exact H | split; [reflexivity | split; reflexivity]]|].
  exact (@X10_set_clear_round_trip sample_zobrist start_pos BLACK ROOK 35
           H eq_refl eq_refl eq_refl).
Defined.

Lemma X11_set_on_occupied_square_witness :
  ((board_ok start_pos = true /\ color_ok WHITE = true /\ piece_ok QUEEN = true
    /\ bb_test (occupied start_pos) 12 = true
    /\ (color_on start_pos 12, piece_on start_pos 12) <> (WHITE, QUEEN))
   /\ board_ok (@set sample_zobrist WHITE QUEEN 12 start_pos) = false)
  /\ ((board_ok start_pos = true /\ color_ok BLACK = true /\ piece_ok PAWN = true
       /\ bb_test (occupied start_pos) 12 = true
       /\ (color_on start_pos 12, piece_on start_pos 12) <> (BLACK, PAWN))
      /\ board_ok (@set sample_zobrist BLACK PAWN 12 start_pos) = false).
Proof.
  assert (H : board_ok start_pos = true) by (vm_compute; reflexivity).
  assert (H0 : bb_test (occupied start_pos) 12 = true)
    by (vm_compute; reflexivity).
  assert (H1 : (color_on start_pos 12, piece_on start_pos 12) <> (WHITE, QUEEN))
    by (vm_compute; intros E; discriminate E).
  assert (H2 : (color_on start_pos 12, piece_on start_pos 12) <> (BLACK, PAWN))
    by (vm_compute; intros E; discriminate E).
  split.
  - split; [split; [exact H | split; [reflexivity | split; [reflexivity |
            split; [exact H0 | exact H1]]]]|].
    exact (@X11_set_on_occupied_square sample_zobrist start_pos WHITE QUEEN 12
             H eq_refl eq_refl H0 H1).
  - split; [split; [exact H | split; [reflexivity | split; [reflexivity |
            split; [exact H0 | exact H2]]]]|].
    exact (@X11_set_on_occupied_square sample_zobrist start_pos BLACK PAWN 12
             H eq_refl eq_refl H0 H2).
Defined.

(** ** The key recomputed from scratch ([key_ok]) *)

Lemma xor_list_map_lxor (f g : Z -> Z) (l : list Z) :
  xor_list (map (fun s => Z.lxor (f s) (g s)) l)
  = Z.lxor (xor_list (map f l)) (xor_list (map g l)).
Proof.
  induction l as [|x l IH]; [reflexivity|].
  cbn [map xor_list fold_right]. fold (xor_list (map f l)).
  fold (xor_list (map g l)).
  fold (xor_list (map (fun s => Z.lxor (f s) (g s)) l)).
  rewrite IH. xor_ring.
Qed.

Lemma xor_list_map_0 (l : list Z) : xor_list (map (fun _ => 0) l) = 0.
Proof. induction l as [|x l IH]; [reflexivity|]. cbn. exact IH. Qed.

Section KeyScratch.
Context {ZS : Zobrist}.

Lemma man_key_piece_at (P : Position) (s : Z) :
  man_key P s
  = match piece_at P s with Some (c, p) => zobrist_key c p s | None => 0 end.
Proof. unfold man_key, piece_at. now destruct (bb_test (occupied P) s). Qed.

Lemma bit_term_get (P : Position) (c p s : Z) :
  board_ok P = true -> color_ok c = true -> piece_ok p = true ->
  bit_term (zobrist_key c p) (get P c p) s
  = match piece_at P s with
    | Some (c', p') => if (c' =? c) && (p' =? p) then zobrist_key c p s else 0
    | None => 0
    end.
Proof.
  intros Hb Hc Hp. unfold bit_term.
  rewrite (get_bits_piece_at P c p s Hb Hc Hp).
  now destruct (piece_at P s) as [[c' p']|].
Qed.

Lemma key_board_men (P : Position) :
  board_ok P = true -> key_board P = xor_list (map (man_key P) squares).
Proof.
  intros Hb. pose proof (board_ok_repr P Hb) as Hr.
  unfold key_board, key_pieces, all_colors, all_pieces,
    WHITE, BLACK, KNIGHT, BISHOP, ROOK, QUEEN, KING, PAWN.
  cbn [fold_left].
  rewrite !key_squares_64
    by (apply (repr_get_ok (piece_at P) P); [assumption | reflexivity]).
  unfold xor_bits.
  rewrite <- xor_list_map_0 with (l := squares).
  rewrite <- !xor_list_map_lxor.
  f_equal. apply map_ext. intros s.
  rewrite !(bit_term_get P _ _ s Hb) by reflexivity.
  rewrite man_key_piece_at.
  pose proof (view_bits_cases (piece_at P) P s Hr) as Hv.
  destruct (piece_at P s) as [[c0 p0]|];
    [|rewrite ?Z.lxor_0_r; reflexivity].
  destruct Hv as [Hc0 Hp0].
  apply color_ok_cases in Hc0. apply piece_ok_cases in Hp0.
  destruct Hc0 as [-> | ->];
    destruct Hp0 as [-> | [-> | [-> | [-> | [-> | ->]]]]];
    cbn [Z.eqb Pos.eqb andb]; rewrite ?Z.lxor_0_r, ?Z.lxor_0_l; reflexivity.
Qed.

(** X12.  What [key_ok] recomputes.  On a consistent position the key built
    by the loops of [key_ok] is the exclusive or, over the occupied
    squares, of the key of the man on the square, with the turn key added
    when black is to move; [key_ok] holds exactly when the stored key is
    that value.  The inner [while] loop ends after as many rounds as the
    set has squares: 64 rounds are enough, and more change nothing. *)
Theorem X12_key_ok_recomputes (P : Position) :
  board_ok P = true ->
  key_scratch P
  = Z.lxor (xor_list (map (man_key P) squares))
           (if turn P =? BLACK then zobrist_turn else 0)
  /\ (key_ok P = true
      <-> key P = Z.lxor (xor_list (map (man_key P) squares))
                         (if turn P =? BLACK then zobrist_turn else 0))
  /\ (forall c p k n,
        color_ok c = true -> (64 <= n)%nat ->
        key_squares n c p (get P c p) k
        = key_squares 64 c p (get P c p) k).
Proof.
  intros Hb. pose proof (board_ok_repr P Hb) as Hr.
  assert (E : key_scratch P
              = Z.lxor (xor_list (map (man_key P) squares))
                       (if turn P =? BLACK then zobrist_turn else 0)).
  { rewrite key_scratch_eq. now rewrite key_board_men. }
  split; [exact E|]. split.
  - unfold key_ok. rewrite Z.eqb_eq, E. split; congruence.
  - intros c p k n Hc Hn.
    pose proof (repr_get_ok (piece_at P) P c p Hr Hc) as Hok.
    rewrite key_squares_64 by exact Hok.
    apply key_squares_spec; [exact Hok|].
    pose proof (popcount_le (get P c p)). lia.
Qed.

End KeyScratch.

Lemma X12_key_ok_recomputes_witness :
  board_ok capture_pos = true
  /\ @key_scratch sample_zobrist capture_pos
     = Z.lxor (xor_list (map (@man_key sample_zobrist capture_pos) squares))
              (if turn capture_pos =? BLACK then @zobrist_turn sample_zobrist
               else 0)
  /\ (@key_ok sample_zobrist capture_pos = true
      <-> key capture_pos
          = Z.lxor (xor_list (map (@man_key sample_zobrist capture_pos) squares))
                   (if turn capture_pos =? BLACK then @zobrist_turn sample_zobrist
                    else 0))
  /\ (forall c p k n,
        color_ok c = true -> (64 <= n)%nat ->
        @key_squares sample_zobrist n c p (get capture_pos c p) k
        = @key_squares sample_zobrist 64 c p (get capture_pos c p) k).
Proof.
  assert (H : board_ok capture_pos = true) by (vm_compute; reflexivity).
  split; [exact H|].
  exact (@X12_key_ok_recomputes sample_zobrist capture_pos H).
Defined.

(** ** Reading a description ([set_pos]) *)

Lemma fen_ok_fields (fen : string) :
  fen_ok fen
  = placement_ok (fen_field 0 fen) 7 0 && turn_ok (fen_field 1 fen)
    && castling_ok (fen_field 2 fen) && ep_ok (fen_field 3 fen)
    && counter_ok (fen_field 4 fen).
Proof.
  unfold fen_ok, fen_field. cbn [drop_words].
  destruct (read_word [] (list_ascii_of_string fen)) as [s1 inp1]. cbn [snd fst].
  destruct (read_word [] inp1) as [s2 inp2]. cbn [snd fst].
  destruct (read_word [] inp2) as [s3 inp3]. cbn [snd fst].
  destruct (read_word [] inp3) as [s4 inp4]. cbn [snd fst].
  destruct (read_word [] inp4) as [s5 inp5]. reflexivity.
Qed.

Section SetPosFields.
Context {ZS : Zobrist}.

(** [set_pos] on a well-formed description, field by field. *)
Lemma set_pos_unfold (fen : string) :
  fen_ok fen = true ->
  exists P1,
    fold_left place_char (fen_field 0 fen) (clear_all, A8) = (P1, 8)
    /\ set_pos fen
       = with_rule50 (read_int (drop_words 4 (list_ascii_of_string fen)))
           (with_epSquare
              (if is_char (fen_field 3 fen) 45 then NB_SQUARE
               else square_from (code (char_at (fen_field 3 fen) 1) - 49)
                                (code (char_at (fen_field 3 fen) 0) - 97))
              (fst (fold_left castle_char (fen_field 2 fen)
                      (if is_char (fen_field 1 fen) 119
                       then with_turn WHITE P1
                       else with_key (Z.lxor (key P1) zobrist_turn)
                              (with_turn BLACK P1), 8))))
    /\ exists v1, hrepr v1 0 P1 /\ turn P1 = 0 /\ castlableRooks P1 = 0.
Proof.
  unfold fen_ok, set_pos, fen_field, is_char. cbn [drop_words].
  destruct (read_word [] (list_ascii_of_string fen)) as [s1 inp1]. cbn [snd fst].
  destruct (read_word [] inp1) as [s2 inp2] eqn:E2. cbn [snd fst].
  destruct (read_word [] inp2) as [s3 inp3] eqn:E3. cbn [snd fst].
  destruct (read_word [] inp3) as [s4 inp4] eqn:E4. cbn [snd fst].
  destruct (read_word [] inp4) as [s5 inp5] eqn:E5.
  rewrite !andb_true_iff. intros ((((Hpl & Htu) & Hca) & Hep) & Hco).
  assert (Hinit : hrepr (fun _ => None) 0 clear_all).
  { split; [|reflexivity]. apply board_ok_repr_empty. }
  destruct (placement_fold s1 (fun _ => None) clear_all 7 0 Hpl Hinit)
    as (v1 & P1 & E1 & Hh1 & Ht1 & Hc1); [lia | lia | intros s c p; discriminate |].
  change (8 * 7 + 0) with A8 in E1. rewrite E1.
  exists P1. split; [reflexivity|]. split; [|exists v1; auto].
  rewrite (read_word_nonempty s1 inp1), E2
    by (rewrite E2; cbn [fst]; intros ->; discriminate Htu).
  rewrite (read_word_nonempty s2 inp2), E3
    by (rewrite E3; cbn [fst]; intros ->; discriminate Hca).
  match goal with
  | |- context [fold_left castle_char s3 ?X] =>
      destruct (fold_left castle_char s3 X) as [P3 sq3]
  end.
  rewrite (read_word_nonempty s3 inp3), E4
    by (rewrite E4; cbn [fst]; intros ->; discriminate Hep).
  reflexivity.
Qed.

End SetPosFields.

Lemma space_not_digit (c : ascii) : isspace c = true -> isdigit c = false.
Proof. destruct c as [[] [] [] [] [] [] [] []]; vm_compute; auto; discriminate. Qed.

Lemma digit_not_sign (c : ascii) :
  isdigit c = true -> (code c =? 45) = false /\ (code c =? 43) = false.
Proof. destruct c as [[] [] [] [] [] [] [] []]; vm_compute; auto; discriminate. Qed.

Lemma take_word_spec (cs : list ascii) :
  forall w rest, take_word cs = (w, rest) ->
  cs = w ++ rest
  /\ match rest with [] => True | c :: _ => isspace c = true end.
Proof.
  induction cs as [|c cs IH]; intros w rest H; cbn in H.
  - injection H as <- <-. auto.
  - destruct (isspace c) eqn:Hc.
    + injection H as <- <-. cbn. auto.
    + destruct (take_word cs) as [w' rest'] eqn:E. injection H as <- <-.
      destruct (IH w' rest' eq_refl) as [-> Hrest]. auto.
Qed.

Lemma read_word_spec (inp w rest : list ascii) :
  read_word [] inp = (w, rest) -> w <> [] ->
  skip_ws inp = w ++ rest
  /\ match rest with [] => True | c :: _ => isspace c = true end.
Proof.
  unfold read_word. intros H Hw.
  destruct (skip_ws inp) as [|c cs] eqn:E.
  - injection H as <- <-. now destruct Hw.
  - now apply take_word_spec.
Qed.

Lemma take_digits_word (w rest : list ascii) :
  forallb isdigit w = true ->
  match rest with [] => True | c :: _ => isspace c = true end ->
  take_digits (w ++ rest) = w.
Proof.
  induction w as [|c w IH]; intros Hw Hrest.
  - destruct rest as [|c rest]; [reflexivity|]. cbn.
    now rewrite (space_not_digit c Hrest).
  - cbn in Hw. apply andb_true_iff in Hw. destruct Hw as [Hc Hw].
    cbn. rewrite Hc. now rewrite IH.
Qed.

Lemma digits_value_acc (ds : list ascii) :
  forall v, 0 <= v -> forallb isdigit ds = true ->
  0 <= fold_left (fun v c => 10 * v + (code c - 48)) ds v
    < (v + 1) * 10 ^ Z.of_nat (length ds).
Proof.
  induction ds as [|c ds IH]; intros v Hv Hd.
  - cbn. lia.
  - cbn [forallb] in Hd. apply andb_true_iff in Hd. destruct Hd as [Hc Hd].
    pose proof (digit_range c Hc) as Hr.
    cbn [fold_left length]. rewrite Nat2Z.inj_succ, Z.pow_succ_r by lia.
    specialize (IH (10 * v + (code c - 48)) ltac:(lia) Hd).
    assert (0 < 10 ^ Z.of_nat (length ds)) by (apply Z.pow_pos_nonneg; lia).
    nia.
Qed.

Lemma digits_value_bound (ds : list ascii) :
  forallb isdigit ds = true -> (length ds <= 9)%nat ->
  0 <= digits_value ds < 10 ^ 9.
Proof.
  intros Hd Hl. unfold digits_value.
  pose proof (digits_value_acc ds 0 ltac:(lia) Hd) as H.
  assert (10 ^ Z.of_nat (length ds) <= 10 ^ 9)
    by (apply Z.pow_le_mono_r; lia).
  lia.
Qed.

(** [is >> rule50] on a word of at most nine digits reads its value. *)
Lemma read_int_counter (inp w rest : list ascii) :
  read_word [] inp = (w, rest) -> counter_ok w = true ->
  read_int inp = digits_value w /\ 0 <= digits_value w < 10 ^ 9.
Proof.
  intros H Hco. unfold counter_ok in Hco.
  rewrite !andb_true_iff in Hco. destruct Hco as ((Hne & Hlen) & Hd).
  assert (Hw : w <> []) by (intros ->; discriminate Hne).
  destruct (read_word_spec inp w rest H Hw) as [Hskip Hrest].
  apply Nat.leb_le in Hlen.
  pose proof (digits_value_bound w Hd Hlen) as Hb.
  split; [|exact Hb].
  unfold read_int. rewrite Hskip.
  destruct w as [|c w]; [now destruct Hw|].
  cbn [app]. pose proof Hd as Hd'. cbn [forallb] in Hd'.
  apply andb_true_iff in Hd'. destruct Hd' as [Hc _].
  destruct (digit_not_sign c Hc) as [-> ->].
  change (c :: w ++ rest) with ((c :: w) ++ rest).
  rewrite (take_digits_word (c :: w) rest Hd Hrest).
  unfold INT_MIN, INT_MAX. lia.
Qed.

Lemma castle_fold_fst (s : list ascii) (P : Position) (sq : Z) :
  byColor (fst (fold_left castle_char s (P, sq))) = byColor P
  /\ byPiece (fst (fold_left castle_char s (P, sq))) = byPiece P
  /\ key (fst (fold_left castle_char s (P, sq))) = key P
  /\ turn (fst (fold_left castle_char s (P, sq))) = turn P
  /\ epSquare (fst (fold_left castle_char s (P, sq))) = epSquare P
  /\ rule50 (fst (fold_left castle_char s (P, sq))) = rule50 P.
Proof.
  revert P sq. induction s as [|c s IH]; intros P sq; [cbn; auto 7|].
  cbn [fold_left]. unfold castle_char at 2.
  match goal with
  | |- context [fold_left castle_char s (?Q, ?q)] => specialize (IH Q q)
  end.
  exact IH.
Qed.

Section SetPosScalars.
Context {ZS : Zobrist}.

(** X13.  The scalar fields [set_pos] reads from a well-formed description:
    white is to move when the second field is [w], black otherwise; the
    en-passant square is the sentinel [NB_SQUARE] for [-], and otherwise
    the square of the board with the file and the rank the field names; the
    counter is the decimal value of the fifth field, below [10^9], so the
    [rule50++] of [play] does not overflow after it. *)
Theorem X13_set_pos_fields (fen : string) :
  fen_ok fen = true ->
  turn (set_pos fen) = (if is_char (fen_field 1 fen) 119 then WHITE else BLACK)
  /\ (is_char (fen_field 3 fen) 45 = true -> epSquare (set_pos fen) = NB_SQUARE)
  /\ (is_char (fen_field 3 fen) 45 = false ->
        square_ok (epSquare (set_pos fen)) = true
        /\ file_of (epSquare (set_pos fen))
           = code (char_at (fen_field 3 fen) 0) - code "a"%char
        /\ rank_of (epSquare (set_pos fen))
           = code (char_at (fen_field 3 fen) 1) - code "1"%char)
  /\ rule50 (set_pos fen) = digits_value (fen_field 4 fen)
  /\ 0 <= rule50 (set_pos fen) < 10 ^ 9
  /\ INT_MIN <= rule50 (set_pos fen) < INT_MAX.
Proof.
  intros Hok. destruct (set_pos_unfold fen Hok) as (P1 & E1 & E & _).
  rewrite fen_ok_fields, !andb_true_iff in Hok.
  destruct Hok as ((((Hpl & Htu) & Hca) & Hep) & Hco).
  rewrite E. cbn [turn epSquare rule50 with_rule50 with_epSquare].
  split; [|split; [|split]].
  - destruct (castle_fold_fst (fen_field 2 fen)
                (if is_char (fen_field 1 fen) 119
                 then with_turn WHITE P1
                 else with_key (Z.lxor (key P1) zobrist_turn)
                        (with_turn BLACK P1)) 8) as (_ & _ & _ & -> & _).
    now destruct (is_char (fen_field 1 fen) 119).
  - now intros ->.
  - intros Hdash. rewrite Hdash. unfold ep_ok in Hep. rewrite Hdash in Hep.
    cbn [orb] in Hep. rewrite !andb_true_iff, !Z.leb_le in Hep.
    destruct Hep as ((((_ & Hf0) & Hf1) & Hr0) & Hr1).
    change (code "a"%char) with 97. change (code "1"%char) with 49.
    set (r := code (char_at (fen_field 3 fen) 1) - 49) in *.
    set (f := code (char_at (fen_field 3 fen) 0) - 97) in *.
    assert (Hr : 0 <= r < 8) by lia. assert (Hf : 0 <= f < 8) by lia.
    destruct (rank_file_square_from r f Hr Hf) as [-> ->].
    split; [|auto]. apply square_ok_range. now apply square_from_range.
  - unfold fen_field in Hco |- *.
    destruct (read_word [] (drop_words 4 (list_ascii_of_string fen)))
      as [w rest] eqn:E5.
    cbn [fst] in *.
    destruct (read_int_counter _ w rest E5 Hco) as [-> Hb].
    unfold INT_MIN, INT_MAX. repeat split; lia.
Qed.

End SetPosScalars.

Lemma X13_set_pos_fields_witness :
  fen_ok capture_fen = true
  /\ turn (@set_pos sample_zobrist capture_fen)
     = (if is_char (fen_field 1 capture_fen) 119 then WHITE else BLACK)
  /\ (is_char (fen_field 3 capture_fen) 45 = true ->
        epSquare (@set_pos sample_zobrist capture_fen) = NB_SQUARE)
  /\ (is_char (fen_field 3 capture_fen) 45 = false ->
        square_ok (epSquare (@set_pos sample_zobrist capture_fen)) = true
        /\ file_of (epSquare (@set_pos sample_zobrist capture_fen))
           = code (char_at (fen_field 3 capture_fen) 0) - code "a"%char
        /\ rank_of (epSquare (@set_pos sample_zobrist capture_fen))
           = code (char_at (fen_field 3 capture_fen) 1) - code "1"%char)
  /\ rule50 (@set_pos sample_zobrist capture_fen)
     = digits_value (fen_field 4 capture_fen)
  /\ 0 <= rule50 (@set_pos sample_zobrist capture_fen) < 10 ^ 9
  /\ INT_MIN <= rule50 (@set_pos sample_zobrist capture_fen) < INT_MAX.
Proof.
  assert (H : fen_ok capture_fen = true) by (vm_compute; reflexivity).
  split; [exact H|].
  exact (@X13_set_pos_fields sample_zobrist capture_fen H).
Defined.

Lemma castling_letter_square (c : ascii) (sq : Z) :
  castling_letter c = true ->
  (let color := if isupper c then WHITE else BLACK in
   let r := RANK_8 * color in
   let u := toupper c in
   if code u =? 75 then square_from r FILE_H
   else if code u =? 81 then square_from r FILE_A
   else if (65 <=? code u) && (code u <=? 72) then square_from r (code u - 65)
   else sq) = castling_square c
  /\ 0 <= castling_square c < 64
  /\ (rank_of (castling_square c) = RANK_1
      \/ rank_of (castling_square c) = RANK_8).
Proof.
  destruct c as [[] [] [] [] [] [] [] []]; intros H;
    try discriminate H; vm_compute; intuition congruence.
Qed.

Lemma dash_not_letter (c : ascii) :
  code c = 45 ->
  (let color := if isupper c then WHITE else BLACK in
   let r := RANK_8 * color in
   let u := toupper c in
   if code u =? 75 then square_from r FILE_H
   else if code u =? 81 then square_from r FILE_A
   else if (65 <=? code u) && (code u <=? 72) then square_from r (code u - 65)
   else 8) = 8.
Proof.
  destruct c as [[] [] [] [] [] [] [] []]; intros H;
    try discriminate H; reflexivity.
Qed.

Lemma castle_letters_fold (s : list ascii) :
  forall (P : Position) (sq x : Z),
  forallb castling_letter s = true ->
  bb_test (castlableRooks (fst (fold_left castle_char s (P, sq)))) x
  = bb_test (castlableRooks P) x || existsb (fun c => x =? castling_square c) s.
Proof.
  induction s as [|c s IH]; intros P sq x Hs.
  - cbn. now rewrite orb_false_r.
  - cbn [forallb] in Hs. apply andb_true_iff in Hs. destruct Hs as [Hc Hs].
    cbn [fold_left existsb]. unfold castle_char at 2.
    destruct (castling_letter_square c sq Hc) as (E & Hrange & _).
    cbv zeta in E. rewrite E.
    rewrite (IH _ _ x Hs). cbn [castlableRooks with_castlableRooks].
    unfold bb_test at 1. rewrite bb_set_bits by exact Hrange.
    now rewrite orb_assoc.
Qed.

Section SetPosCastling.
Context {ZS : Zobrist}.

(** X14.  The castling rights [set_pos] reads from a well-formed
    description.  For a field of letters every square of [castlableRooks]
    is on the first or the eighth rank, and when the letters name different
    squares (no rook is named twice) [castlableRooks] holds exactly the
    squares the letters name.  For the field [-] the loop still runs
    [bb::set(castlableRooks, sq)] once, with the square the placement loop
    left in [sq]: [castlableRooks] is then not empty but the single square
    8 (a2). *)
Theorem X14_set_pos_castling (fen : string) :
  fen_ok fen = true ->
  (is_char (fen_field 2 fen) 45 = true ->
     castlableRooks (set_pos fen) = 2 ^ 8)
  /\ (is_char (fen_field 2 fen) 45 = false ->
        (List.NoDup (map castling_square (fen_field 2 fen)) ->
         forall s, bb_test (castlableRooks (set_pos fen)) s = true
                   <-> exists c, In c (fen_field 2 fen) /\ s = castling_square c)
        /\ (forall s, bb_test (castlableRooks (set_pos fen)) s = true ->
              square_ok s = true
              /\ (rank_of s = RANK_1 \/ rank_of s = RANK_8))).
Proof.
  intros Hok.
  destruct (set_pos_unfold fen Hok) as (P1 & E1 & E & v1 & _ & _ & Hcr1).
  rewrite fen_ok_fields, !andb_true_iff in Hok.
  destruct Hok as ((((Hpl & Htu) & Hca) & Hep) & Hco).
  rewrite E. cbn [castlableRooks with_rule50 with_epSquare].
  set (P2 := if is_char (fen_field 1 fen) 119 then with_turn WHITE P1
             else with_key (Z.lxor (key P1) zobrist_turn) (with_turn BLACK P1)).
  assert (Hcr2 : castlableRooks P2 = 0)
    by (unfold P2; now destruct (is_char (fen_field 1 fen) 119)).
  split.
  - intros Hdash. unfold is_char in Hdash. apply andb_true_iff in Hdash.
    destruct Hdash as [Hlen Hc]. apply Nat.eqb_eq in Hlen. apply Z.eqb_eq in Hc.
    destruct (fen_field 2 fen) as [|c [|c' s]]; try discriminate Hlen.
    cbn [char_at nth] in Hc. cbn [fold_left fst]. unfold castle_char.
    pose proof (dash_not_letter c Hc) as E8. cbv zeta in E8. rewrite E8.
    cbn [fst castlableRooks with_castlableRooks]. rewrite Hcr2. reflexivity.
  - intros Hdash. unfold castling_ok in Hca. rewrite Hdash in Hca.
    cbn [orb] in Hca. apply andb_true_iff in Hca. destruct Hca as [_ Hlet].
    assert (Hbits : forall s,
              bb_test (castlableRooks
                         (fst (fold_left castle_char (fen_field 2 fen) (P2, 8)))) s
              = true
              <-> exists c, In c (fen_field 2 fen) /\ s = castling_square c).
    { intros s. rewrite (castle_letters_fold _ P2 8 s Hlet), Hcr2.
      unfold bb_test at 1. rewrite Z.bits_0. cbn [orb].
      rewrite existsb_exists. split; intros (c & Hin & Hc); exists c;
        (split; [exact Hin|]); now apply Z.eqb_eq. }
    split; [intros _; exact Hbits|].
    intros s Hs. apply Hbits in Hs. destruct Hs as (c & Hin & ->).
    rewrite forallb_forall in Hlet.
    destruct (castling_letter_square c 0 (Hlet c Hin)) as (_ & Hrange & Hrank).
    split; [now apply square_ok_range | exact Hrank].
Qed.

End SetPosCastling.

Lemma X14_set_pos_castling_witness :
  (fen_ok castle_fen = true
   /\ ((is_char (fen_field 2 castle_fen) 45 = true ->
         castlableRooks (@set_pos sample_zobrist castle_fen) = 2 ^ 8)
       /\ (is_char (fen_field 2 castle_fen) 45 = false ->
             (List.NoDup (map castling_square (fen_field 2 castle_fen)) ->
              forall s,
                bb_test (castlableRooks (@set_pos sample_zobrist castle_fen)) s
                = true
                <-> exists c, In c (fen_field 2 castle_fen)
                              /\ s = castling_square c)
             /\ (forall s,
                   bb_test (castlableRooks (@set_pos sample_zobrist castle_fen)) s
                   = true ->
                   square_ok s = true
                   /\ (rank_of s = RANK_1 \/ rank_of s = RANK_8))))
   /\ is_char (fen_field 2 castle_fen) 45 = false
   /\ List.NoDup (map castling_square (fen_field 2 castle_fen))
   /\ castlableRooks (@set_pos sample_zobrist castle_fen)
      = 2 ^ 0 + 2 ^ 7 + 2 ^ 56 + 2 ^ 63)
  /\ (fen_ok empty_fen = true
      /\ ((is_char (fen_field 2 empty_fen) 45 = true ->
            castlableRooks (@set_pos sample_zobrist empty_fen) = 2 ^ 8)
          /\ (is_char (fen_field 2 empty_fen) 45 = false ->
                (List.NoDup (map castling_square (fen_field 2 empty_fen)) ->
                 forall s,
                   bb_test (castlableRooks (@set_pos sample_zobrist empty_fen)) s
                   = true
                   <-> exists c, In c (fen_field 2 empty_fen)
                                 /\ s = castling_square c)
                /\ (forall s,
                      bb_test (castlableRooks (@set_pos sample_zobrist empty_fen)) s
                      = true ->
                      square_ok s = true
                      /\ (rank_of s = RANK_1 \/ rank_of s = RANK_8))))
      /\ is_char (fen_field 2 empty_fen) 45 = true
      /\ castlableRooks (@set_pos sample_zobrist empty_fen) = 2 ^ 8).
Proof.
  assert (H : fen_ok castle_fen = true) by (vm_compute; reflexivity).
  assert (H' : fen_ok empty_fen = true) by (vm_compute; reflexivity).
  assert (Hnd : List.NoDup (map castling_square (fen_field 2 castle_fen))).
  { vm_compute. repeat (constructor; [cbn; intuition discriminate|]).
    constructor. }
  split.
  - split; [exact H|].
    split; [exact (@X14_set_pos_castling sample_zobrist castle_fen H)|].
    split; [vm_compute; reflexivity|]. split; [exact Hnd|].
    vm_compute; reflexivity.
  - split; [exact H'|].
    split; [exact (@X14_set_pos_castling sample_zobrist empty_fen H')|].
    split; vm_compute; reflexivity.
Defined.

Lemma list_ascii_of_string_app (a b : string) :
  list_ascii_of_string (a ++ b)
  = (list_ascii_of_string a ++ list_ascii_of_string b)%list.
Proof. induction a as [|c a IH]; [reflexivity|]. simpl. now rewrite IH. Qed.

Section AfterSpace.
Variable sp : ascii.
Variable tl : list ascii.
Hypothesis sp_space : isspace sp = true.

Lemma skip_ws_app (inp : list ascii) :
  skip_ws inp <> [] -> skip_ws (inp ++ sp :: tl) = skip_ws inp ++ sp :: tl.
Proof.
  induction inp as [|c inp IH]; intros H; [now destruct H|].
  cbn in *. destruct (isspace c); [now apply IH | reflexivity].
Qed.

Lemma take_word_app (cs : list ascii) :
  take_word (cs ++ sp :: tl)
  = (fst (take_word cs), snd (take_word cs) ++ sp :: tl).
Proof.
  induction cs as [|c cs IH]; cbn.
  - now rewrite sp_space.
  - destruct (isspace c); [reflexivity|].
    rewrite IH. now destruct (take_word cs).
Qed.

Lemma read_word_app (inp : list ascii) :
  fst (read_word [] inp) <> [] ->
  read_word [] (inp ++ sp :: tl)
  = (fst (read_word [] inp), snd (read_word [] inp) ++ sp :: tl).
Proof.
  unfold read_word. intros H.
  assert (Hs : skip_ws inp <> []).
  { intros E. rewrite E in H. now apply H. }
  rewrite (skip_ws_app inp Hs).
  destruct (skip_ws inp) as [|c cs]; [now destruct Hs|].
  exact (take_word_app (c :: cs)).
Qed.

Lemma take_digits_app (cs : list ascii) :
  take_digits (cs ++ sp :: tl) = take_digits cs.
Proof.
  induction cs as [|c cs IH]; cbn.
  - now rewrite (space_not_digit sp sp_space).
  - destruct (isdigit c); [now rewrite IH | reflexivity].
Qed.

Lemma read_int_app (inp : list ascii) :
  skip_ws inp <> [] -> read_int (inp ++ sp :: tl) = read_int inp.
Proof.
  intros Hs. unfold read_int. rewrite (skip_ws_app inp Hs).
  destruct (skip_ws inp) as [|c cs]; [now destruct Hs|].
  cbn [app].
  destruct (code c =? 45); [now rewrite take_digits_app|].
  destruct (code c =? 43); [now rewrite take_digits_app|].
  change (c :: cs ++ sp :: tl) with ((c :: cs) ++ sp :: tl).
  now rewrite take_digits_app.
Qed.

(** The first words of a stream are the same when more input follows a
    white space after them. *)
Lemma drop_words_app (n : nat) :
  forall inp,
  (forall i, (i < n)%nat -> fst (read_word [] (drop_words i inp)) <> []) ->
  drop_words n (inp ++ sp :: tl) = drop_words n inp ++ sp :: tl.
Proof.
  induction n as [|n IH]; intros inp H; [reflexivity|].
  cbn [drop_words].
  rewrite (read_word_app inp (H O ltac:(lia))). cbn [snd].
  apply IH. intros i Hi. apply (H (S i)). lia.
Qed.

Lemma field_app (n : nat) (inp : list ascii) :
  (forall i, (i <= n)%nat -> fst (read_word [] (drop_words i inp)) <> []) ->
  fst (read_word [] (drop_words n (inp ++ sp :: tl)))
  = fst (read_word [] (drop_words n inp)).
Proof.
  intros H. rewrite drop_words_app by (intros i Hi; apply H; lia).
  rewrite read_word_app by (apply H; lia). reflexivity.
Qed.

End AfterSpace.

Lemma fen_fields_nonempty (fen : string) (i : nat) :
  fen_ok fen = true -> (i <= 4)%nat -> fen_field i fen <> [].
Proof.
  rewrite fen_ok_fields, !andb_true_iff.
  intros ((((Hpl & Htu) & Hca) & Hep) & Hco) Hi E.
  assert (Hcases : (i = 0 \/ i = 1 \/ i = 2 \/ i = 3 \/ i = 4)%nat) by lia.
  destruct Hcases as [-> | [-> | [-> | [-> | ->]]]]; rewrite E in *;
    discriminate.
Qed.

Section SetPosRest.
Context {ZS : Zobrist}.

(** X15.  [set_pos] reads five fields and nothing more: whatever follows
    the counter of a well-formed description after a space (the move number
    of a full description, for one) does not change the position. *)
Theorem X15_set_pos_ignores_rest (fen rest : string) :
  fen_ok fen = true ->
  fen_ok (fen ++ " " ++ rest) = true
  /\ set_pos (fen ++ " " ++ rest) = set_pos fen.
Proof.
  intros Hok.
  assert (Hf : forall n, (n <= 4)%nat ->
             fen_field n (fen ++ " " ++ rest) = fen_field n fen).
  { intros n Hn. unfold fen_field. rewrite list_ascii_of_string_app.
    change (list_ascii_of_string (" " ++ rest))
    with (" "%char :: list_ascii_of_string rest).
    apply field_app; [reflexivity|].
    intros i Hi. apply (fen_fields_nonempty fen i Hok). lia. }
  assert (Hok' : fen_ok (fen ++ " " ++ rest) = true).
  { rewrite fen_ok_fields, !Hf by lia. now rewrite <- fen_ok_fields. }
  split; [exact Hok'|].
  destruct (set_pos_unfold fen Hok) as (P1 & E1 & E & _).
  destruct (set_pos_unfold _ Hok') as (P1' & E1' & E' & _).
  rewrite E, E'. rewrite !Hf in * by lia.
  assert (P1' = P1) by congruence. subst P1'.
  f_equal. rewrite list_ascii_of_string_app.
  change (list_ascii_of_string (" " ++ rest))
    with (" "%char :: list_ascii_of_string rest).
  rewrite drop_words_app
    by (try reflexivity; intros i Hi; apply (fen_fields_nonempty fen i Hok); lia).
  apply read_int_app; [reflexivity|].
  intros Es. apply (fen_fields_nonempty fen 4 Hok); [lia|].
  unfold fen_field, read_word. now rewrite Es.
Qed.

End SetPosRest.

Lemma X15_set_pos_ignores_rest_witness :
  fen_ok empty_fen = true
  /\ fen_ok (empty_fen ++ " " ++ "moves e2e4") = true
  /\ @set_pos sample_zobrist (empty_fen ++ " " ++ "moves e2e4")
     = @set_pos sample_zobrist empty_fen.
Proof.
  assert (H : fen_ok empty_fen = true) by (vm_compute; reflexivity).
  split; [exact H|].
  exact (@X15_set_pos_ignores_rest sample_zobrist empty_fen "moves e2e4" H).
Defined.

Lemma letter_man_spec (c : ascii) :
  is_piece_letter c = true ->
  (piece_ok (find (PieceLabel WHITE) c) = true
   /\ piece_ok (find (PieceLabel BLACK) c) = false
   /\ letter_man c = (WHITE, find (PieceLabel WHITE) c))
  \/ (piece_ok (find (PieceLabel WHITE) c) = false
      /\ piece_ok (find (PieceLabel BLACK) c) = true
      /\ letter_man c = (BLACK, find (PieceLabel BLACK) c)).
Proof.
  destruct c as [[] [] [] [] [] [] [] []]; intros H;
    try discriminate H; vm_compute; auto.
Qed.

Section SetPosBoard.
Context {ZS : Zobrist}.

Lemma place_piece_view (v : view) (P : Position) (r f : Z) (c : ascii) :
  repr v P -> 0 <= r <= 7 -> 0 <= f < 8 -> v (square_from r f) = None ->
  is_piece_letter c = true ->
  exists P',
    fold_left (place_piece c) all_colors (P, 8 * r + f) = (P', 8 * r + (f + 1))
    /\ repr (upd v (square_from r f) (Some (letter_man c))) P'.
Proof.
  intros Hr Hr7 Hf Hfree Hc.
  assert (Hsq : square_ok (8 * r + f) = true) by (apply square_ok_range; lia).
  assert (Hw : wrap32 (8 * r + f + 1) = 8 * r + (f + 1))
    by (rewrite wrap32_small; lia).
  change (square_from r f) with (8 * r + f) in *.
  unfold all_colors. cbn [fold_left]. unfold place_piece.
  destruct (letter_man_spec c Hc) as [(HW & HB & ->) | (HW & HB & ->)];
    rewrite HW, HB, ?Hw; eexists; (split; [reflexivity|]);
    apply set_repr; auto.
Qed.

Lemma placement_fold_view (cs : list ascii) :
  forall (v : view) (P : Position) (r f : Z),
  placement_ok cs r f = true ->
  repr v P -> 0 <= r <= 7 -> 0 <= f <= 8 -> placed_above v r f ->
  exists P',
    fold_left place_char cs (P, 8 * r + f) = (P', 8)
    /\ repr (placement_view cs r f v) P'.
Proof.
  induction cs as [|c cs IH]; intros v P r f Hok Hh Hr Hf Hpl.
  - cbn in Hok. apply andb_true_iff in Hok. destruct Hok as [Hr0 Hf8].
    apply Z.eqb_eq in Hr0, Hf8. subst r f.
    exists P. cbn. auto.
  - cbn [placement_ok placement_view] in *. cbn [fold_left].
    unfold place_char at 2.
    destruct (isdigit c) eqn:Hd.
    + rewrite !andb_true_iff in Hok. destruct Hok as ((Hlo & Hhi) & Hok).
      apply Z.leb_le in Hlo, Hhi.
      rewrite wrap32_small by lia.
      replace (8 * r + f + (code c - 48)) with (8 * r + (f + (code c - 48))) by lia.
      apply (IH v P r _ Hok Hh Hr); [lia|].
      intros s c' p' E. destruct (Hpl _ _ _ E); lia.
    + destruct (code c =? 47) eqn:Hs.
      * rewrite !andb_true_iff in Hok. destruct Hok as ((Hf8 & Hr1) & Hok).
        apply Z.eqb_eq in Hf8. apply Z.leb_le in Hr1. subst f.
        rewrite wrap32_small by lia.
        replace (8 * r + 8 - 16) with (8 * (r - 1) + 0) by lia.
        apply (IH v P (r - 1) 0 Hok Hh); [lia | lia |].
        intros s c' p' E. destruct (Hpl _ _ _ E); lia.
      * rewrite !andb_true_iff in Hok. destruct Hok as ((Hlet & Hf7) & Hok).
        apply Z.ltb_lt in Hf7.
        assert (Hfree : v (square_from r f) = None).
        { change (square_from r f) with (8 * r + f).
          destruct (v (8 * r + f)) as [[c' p']|] eqn:E; [|reflexivity].
          destruct (Hpl _ _ _ E); lia. }
        destruct (place_piece_view v P r f c Hh Hr ltac:(lia) Hfree Hlet)
          as (P1 & E1 & Hh1).
        rewrite E1.
        apply (IH _ P1 r (f + 1) Hok Hh1 Hr); [lia|].
        intros s c' p'. unfold upd. change (square_from r f) with (8 * r + f).
        destruct (Z.eqb_spec s (8 * r + f)) as [->|Hne]; [lia|].
        intros E. destruct (Hpl _ _ _ E); lia.
Qed.

(** X16.  The board [set_pos] builds from a well-formed description is
    the board the piece placement describes by rank and file: the single
    running square index of the loop (one step per letter, the digit's
    value per digit, sixteen back at a [/]) puts every man on the square
    of its rank and its file, and no other square is occupied. *)
Theorem X16_set_pos_board (fen : string) :
  fen_ok fen = true ->
  forall s,
    piece_at (set_pos fen) s
    = placement_view (fen_field 0 fen) RANK_8 FILE_A (fun _ => None) s.
Proof.
  intros Hok s. destruct (set_pos_unfold fen Hok) as (P1 & E1 & E & _).
  pose proof Hok as Hok'. rewrite fen_ok_fields, !andb_true_iff in Hok'.
  destruct Hok' as ((((Hpl & _) & _) & _) & _).
  destruct (placement_fold_view (fen_field 0 fen) (fun _ => None) clear_all 7 0
              Hpl board_ok_repr_empty)
    as (P1' & E1' & Hr); [lia | lia | intros x c p; discriminate |].
  change (8 * 7 + 0) with A8 in E1'. rewrite E1 in E1'.
  injection E1' as <-.
  apply repr_piece_at. eapply repr_same_board; [| |exact Hr]; rewrite E;
    cbn [byColor byPiece with_rule50 with_epSquare].
  - match goal with
    | |- context [fold_left castle_char ?w (?Q, ?q)] =>
        destruct (castle_fold_fst w Q q) as (-> & _)
    end.
    now destruct (is_char (fen_field 1 fen) 119).
  - match goal with
    | |- context [fold_left castle_char ?w (?Q, ?q)] =>
        destruct (castle_fold_fst w Q q) as (_ & -> & _)
    end.
    now destruct (is_char (fen_field 1 fen) 119).
Qed.

End SetPosBoard.

Lemma X16_set_pos_board_witness :
  fen_ok capture_fen = true
  /\ forall s,
       piece_at (@set_pos sample_zobrist capture_fen) s
       = placement_view (fen_field 0 capture_fen) RANK_8 FILE_A (fun _ => None) s.
Proof.
  assert (H : fen_ok capture_fen = true) by (vm_compute; reflexivity).
  split; [exact H|].
  exact (@X16_set_pos_board sample_zobrist capture_fen H).
Defined.

(** ** More of [play] *)

Section PlayMore.
Context {ZS : Zobrist}.

(** X17.  An ordinary move (no castling, no en-passant capture, no
    promotion), capturing or not: afterwards the moved man stands on the
    destination, the origin is empty, and every other square holds what it
    held before. *)
Theorem X17_play_ordinary_move (P : Position) (m : Move) :
  pos_ok P = true -> move_ok P m = true ->
  color_bit P (turn P) (tsq m) = false ->
  (is_pawn_move P m = true ->
     tsq m <> get_epsq P
     /\ rank_of (tsq m) <> RANK_8 /\ rank_of (tsq m) <> RANK_1) ->
  forall s,
    piece_at (play P m) s
    = if s =? tsq m then Some (turn P, piece_on P (fsq m))
      else if s =? fsq m then None
      else piece_at P s.
Proof.
  intros Hpos Hmove Hown Hpawn s.
  rewrite (play_piece_at P m s Hpos Hmove). unfold play_view, upd.
  unfold is_pawn_move in Hpawn.
  destruct (Z.eqb_spec (piece_on P (fsq m)) PAWN) as [Hp | Hp].
  - destruct (Hpawn eq_refl) as (Hep & H8 & H1).
    apply Z.eqb_neq in Hep, H8, H1. rewrite Hep, H8, H1. cbn [orb].
    now rewrite Hp.
  - now rewrite Hown, andb_false_r.
Qed.

(** X18.  An en-passant capture: the destination is the en-passant square,
    which is empty, so the capture block of [play] does nothing; the pawn
    that is taken stands one push behind the destination and is removed
    there.  Afterwards the capturing pawn is on the destination, its origin
    and the square of the taken pawn are empty, every other square is as
    before, and the counter is reset. *)
Theorem X18_play_en_passant (P : Position) (m : Move) :
  pos_ok P = true -> move_ok P m = true ->
  piece_on P (fsq m) = PAWN -> tsq m = get_epsq P ->
  let us := turn P in
  let csq := tsq m - push_inc us in
  is_capture P m = false
  /\ piece_at P csq = Some (opposite us, PAWN)
  /\ csq <> tsq m /\ csq <> fsq m
  /\ (forall s,
        piece_at (play P m) s
        = if s =? csq then None
          else if s =? tsq m then Some (us, PAWN)
          else if s =? fsq m then None
          else piece_at P s)
  /\ rule50 (play P m) = 0.
Proof.
  intros Hpos Hmove Hp Hep us csq.
  pose proof Hpos as Hpos'. apply pos_ok_unfold in Hpos'.
  destruct Hpos' as (Hb & Hturn & Hcr).
  pose proof Hmove as Hm. unfold move_ok in Hm.
  rewrite Hp, Z.eqb_refl, <- Hep, Z.eqb_refl in Hm.
  rewrite !andb_true_iff in Hm.
  destruct Hm as (((((Hfsq & Htsq) & Hne) & Hfrom) & Hto) & Hocc & Hthem).
  apply negb_true_iff in Hocc.
  assert (Hcap : piece_at P csq = Some (opposite us, PAWN)).
  { apply (get_lookup P _ _ csq Hb); auto using opposite_ok. }
  assert (Hfrom' : piece_at P (fsq m) = Some (us, PAWN)).
  { rewrite <- Hp. apply (repr_color_at _ P us (fsq m) (board_ok_repr P Hb)); auto. }
  split; [exact Hocc|]. split; [exact Hcap|].
  assert (Hpush : push_inc us = 8 \/ push_inc us = -8)
    by (now apply push_inc_cases).
  split; [unfold csq; lia|].
  split.
  { intros E. rewrite E, Hfrom' in Hcap. injection Hcap as Hc.
    now apply (opposite_neq us Hturn). }
  split.
  - intros s. rewrite (play_piece_at P m s Hpos Hmove). unfold play_view, upd.
    rewrite Hp, Z.eqb_refl, <- Hep, Z.eqb_refl. reflexivity.
  - rewrite play_rule50_raw. unfold is_pawn_move. now rewrite Hp, Z.eqb_refl.
Qed.

(** X19.  A promotion: a pawn that reaches the first or the eighth rank is
    replaced on the destination by the promotion piece, a knight, bishop,
    rook or queen of the side that moved; no pawn of that side is left on
    the destination, the origin is empty, every other square is as before,
    and the counter is reset. *)
Theorem X19_play_promotion (P : Position) (m : Move) :
  pos_ok P = true -> move_ok P m = true ->
  piece_on P (fsq m) = PAWN -> tsq m <> get_epsq P ->
  rank_of (tsq m) = RANK_8 \/ rank_of (tsq m) = RANK_1 ->
  (prom m = KNIGHT \/ prom m = BISHOP \/ prom m = ROOK \/ prom m = QUEEN)
  /\ (forall s,
        piece_at (play P m) s
        = if s =? tsq m then Some (turn P, prom m)
          else if s =? fsq m then None
          else piece_at P s)
  /\ bb_test (get (play P m) (turn P) (prom m)) (tsq m) = true
  /\ bb_test (get (play P m) (turn P) PAWN) (tsq m) = false
  /\ rule50 (play P m) = 0.
Proof.
  intros Hpos Hmove Hp Hep Hrank.
  pose proof Hpos as Hpos'. apply pos_ok_unfold in Hpos'.
  destruct Hpos' as (Hb & Hturn & Hcr).
  assert (Hr : (rank_of (tsq m) =? RANK_8) || (rank_of (tsq m) =? RANK_1) = true).
  { apply orb_true_iff. destruct Hrank as [-> | ->]; auto. }
  apply Z.eqb_neq in Hep.
  pose proof Hmove as Hm. unfold move_ok in Hm.
  rewrite Hp, Z.eqb_refl, Hep, Hr in Hm.
  rewrite !andb_true_iff, Z.leb_le, Z.leb_le in Hm.
  destruct Hm as (_ & Hlo & Hhi). unfold QUEEN in Hhi.
  assert (Hprom : prom m = KNIGHT \/ prom m = BISHOP \/ prom m = ROOK
                  \/ prom m = QUEEN)
    by (unfold KNIGHT, BISHOP, ROOK, QUEEN; lia).
  assert (Hat : forall s,
            piece_at (play P m) s
            = if s =? tsq m then Some (turn P, prom m)
              else if s =? fsq m then None
              else piece_at P s).
  { intros s. rewrite (play_piece_at P m s Hpos Hmove). unfold play_view, upd.
    now rewrite Hp, Z.eqb_refl, Hep, Hr. }
  pose proof (play_board_ok P m Hpos Hmove) as Hb'.
  pose proof (Hat (tsq m)) as Ht. rewrite Z.eqb_refl in Ht.
  assert (Hpok : piece_ok (prom m) = true)
    by (apply piece_ok_cases; unfold KNIGHT, BISHOP, ROOK, QUEEN in Hprom; lia).
  split; [exact Hprom|]. split; [exact Hat|]. split; [|split].
  - now apply (get_lookup _ _ _ _ Hb' Hturn Hpok).
  - destruct (bb_test (get (play P m) (turn P) PAWN) (tsq m)) eqn:E;
      [|reflexivity].
    apply (get_lookup _ _ PAWN _ Hb' Hturn eq_refl) in E. rewrite Ht in E.
    injection E as E. unfold KNIGHT, BISHOP, ROOK, QUEEN, PAWN in *. lia.
  - rewrite play_rule50_raw. unfold is_pawn_move. now rewrite Hp, Z.eqb_refl.
Qed.

End PlayMore.

Lemma X17_play_ordinary_move_witness :
  (pos_ok start_pos = true /\ move_ok start_pos g1f3 = true
   /\ color_bit start_pos (turn start_pos) (tsq g1f3) = false
   /\ (is_pawn_move start_pos g1f3 = true ->
         tsq g1f3 <> get_epsq start_pos
         /\ rank_of (tsq g1f3) <> RANK_8 /\ rank_of (tsq g1f3) <> RANK_1))
  /\ forall s,
       piece_at (@play sample_zobrist start_pos g1f3) s
       = if s =? tsq g1f3 then Some (turn start_pos, piece_on start_pos (fsq g1f3))
         else if s =? fsq g1f3 then None
         else piece_at start_pos s.
Proof.
  assert (H1 : pos_ok start_pos = true) by (vm_compute; reflexivity).
  assert (H2 : move_ok start_pos g1f3 = true) by (vm_compute; reflexivity).
  assert (H3 : color_bit start_pos (turn start_pos) (tsq g1f3) = false)
    by (vm_compute; reflexivity).
  assert (H4 : is_pawn_move start_pos g1f3 = true ->
               tsq g1f3 <> get_epsq start_pos
               /\ rank_of (tsq g1f3) <> RANK_8 /\ rank_of (tsq g1f3) <> RANK_1)
    by (vm_compute; intros H; discriminate H).
  split; [auto|].
  exact (@X17_play_ordinary_move sample_zobrist start_pos g1f3 H1 H2 H3 H4).
Defined.

Lemma X18_play_en_passant_witness :
  (pos_ok ep_pos = true /\ move_ok ep_pos d4e3 = true
   /\ piece_on ep_pos (fsq d4e3) = PAWN /\ tsq d4e3 = get_epsq ep_pos)
  /\ is_capture ep_pos d4e3 = false
  /\ piece_at ep_pos (tsq d4e3 - push_inc (turn ep_pos))
     = Some (opposite (turn ep_pos), PAWN)
  /\ tsq d4e3 - push_inc (turn ep_pos) <> tsq d4e3
  /\ tsq d4e3 - push_inc (turn ep_pos) <> fsq d4e3
  /\ (forall s,
        piece_at (@play sample_zobrist ep_pos d4e3) s
        = if s =? tsq d4e3 - push_inc (turn ep_pos) then None
          else if s =? tsq d4e3 then Some (turn ep_pos, PAWN)
          else if s =? fsq d4e3 then None
          else piece_at ep_pos s)
  /\ rule50 (@play sample_zobrist ep_pos d4e3) = 0.
Proof.
  assert (H1 : pos_ok ep_pos = true) by (vm_compute; reflexivity).
  assert (H2 : move_ok ep_pos d4e3 = true) by (vm_compute; reflexivity).
  assert (H3 : piece_on ep_pos (fsq d4e3) = PAWN) by (vm_compute; reflexivity).
  assert (H4 : tsq d4e3 = get_epsq ep_pos) by (vm_compute; reflexivity).
  split; [auto|].
  exact (@X18_play_en_passant sample_zobrist ep_pos d4e3 H1 H2 H3 H4).
Defined.

Lemma X19_play_promotion_witness :
  (pos_ok promotion_pos = true /\ move_ok promotion_pos a7a8q = true
   /\ piece_on promotion_pos (fsq a7a8q) = PAWN
   /\ tsq a7a8q <> get_epsq promotion_pos
   /\ (rank_of (tsq a7a8q) = RANK_8 \/ rank_of (tsq a7a8q) = RANK_1))
  /\ (prom a7a8q = KNIGHT \/ prom a7a8q = BISHOP \/ prom a7a8q = ROOK
      \/ prom a7a8q = QUEEN)
  /\ (forall s,
        piece_at (@play sample_zobrist promotion_pos a7a8q) s
        = if s =? tsq a7a8q then Some (turn promotion_pos, prom a7a8q)
          else if s =? fsq a7a8q then None
          else piece_at promotion_pos s)
  /\ bb_test (get (@play sample_zobrist promotion_pos a7a8q)
                (turn promotion_pos) (prom a7a8q)) (tsq a7a8q) = true
  /\ bb_test (get (@play sample_zobrist promotion_pos a7a8q)
                (turn promotion_pos) PAWN) (tsq a7a8q) = false
  /\ rule50 (@play sample_zobrist promotion_pos a7a8q) = 0.
Proof.
  assert (H1 : pos_ok promotion_pos = true) by (vm_compute; reflexivity).
  assert (H2 : move_ok promotion_pos a7a8q = true) by (vm_compute; reflexivity).
  assert (H3 : piece_on promotion_pos (fsq a7a8q) = PAWN)
    by (vm_compute; reflexivity).
  assert (H4 : tsq a7a8q <> get_epsq promotion_pos)
    by (vm_compute; intros H; discriminate H).
  assert (H5 : rank_of (tsq a7a8q) = RANK_8 \/ rank_of (tsq a7a8q) = RANK_1)
    by (left; vm_compute; reflexivity).
  split; [auto 6|].
  exact (@X19_play_promotion sample_zobrist promotion_pos a7a8q H1 H2 H3 H4 H5).
Defined.

Lemma bb_rank_bits (r s : Z) :
  0 <= r < 8 -> 0 <= s < 64 ->
  Z.testbit (bb_rank r) s = (rank_of s =? r).
Proof.
  intros Hr Hs. unfold bb_rank, shl64, NB_FILE.
  rewrite Z.land_spec, mask64_bits, Z.shiftl_spec by lia.
  replace ((0 <=? s) && (s <? 64)) with true by (symmetry; zbool).
  rewrite andb_true_r.
  destruct (rank_file_range s Hs) as (Hq & Hf & Hsq).
  destruct (Z.eqb_spec (rank_of s) r) as [E | E].
  - change 255 with (Z.ones 8). rewrite Z.testbit_ones by lia. zbool.
  - destruct (Z.lt_ge_cases (s - 8 * r) 0) as [Hlt | Hge].
    + now apply Z.testbit_neg_r.
    + change 255 with (Z.ones 8). rewrite Z.testbit_ones by lia. zbool.
Qed.

Section PlayRights.
Context {ZS : Zobrist}.


(** X21.  How far [play] takes the stored key from the key [key_ok]
    recomputes.  [play] mixes the en-passant keys of the old and the new
    en-passant square and the castling key of the rights that changed into
    the stored key; [key_ok] recomputes the key from the men and the turn
    only.  After a legal move from a position where [key_ok] holds, the two
    keys differ by exactly these terms, and [key_ok] (the assertion that
    ends [play]) holds exactly when they cancel. *)
Theorem X21_play_key_drift (P : Position) (m : Move) :
  pos_ok P = true -> move_ok P m = true -> key_ok P = true ->
  Z.lxor (key (play P m)) (key_scratch (play P m))
  = Z.lxor
      (Z.lxor (zobrist_ep (get_epsq P)) (zobrist_ep (epSquare (play P m))))
      (zobrist_castling (Z.lxor (castlableRooks P) (castlableRooks (play P m))))
  /\ (key_ok (play P m) = true
      <-> Z.lxor
            (Z.lxor (zobrist_ep (get_epsq P)) (zobrist_ep (epSquare (play P m))))
            (zobrist_castling
               (Z.lxor (castlableRooks P) (castlableRooks (play P m))))
          = 0).
Proof.
  intros Hpos Hmove Hkey.
  pose proof (play_key_residual P m Hpos Hmove) as E.
  apply key_ok_residual in Hkey. rewrite Hkey, Z.lxor_0_l in E.
  split; [exact E|].
  rewrite key_ok_residual, E. reflexivity.
Qed.

End PlayRights.


Lemma X21_play_key_drift_witness :
  (pos_ok start_pos = true /\ move_ok start_pos e2e4 = true
   /\ @key_ok sample_zobrist start_pos = true)
  /\ Z.lxor (key (@play sample_zobrist start_pos e2e4))
            (@key_scratch sample_zobrist (@play sample_zobrist start_pos e2e4))
     = Z.lxor
         (Z.lxor (@zobrist_ep sample_zobrist (get_epsq start_pos))
                 (@zobrist_ep sample_zobrist
                    (epSquare (@play sample_zobrist start_pos e2e4))))
         (@zobrist_castling sample_zobrist
            (Z.lxor (castlableRooks start_pos)
                    (castlableRooks (@play sample_zobrist start_pos e2e4))))
  /\ (@key_ok sample_zobrist (@play sample_zobrist start_pos e2e4) = true
      <-> Z.lxor
            (Z.lxor (@zobrist_ep sample_zobrist (get_epsq start_pos))
                    (@zobrist_ep sample_zobrist
                       (epSquare (@play sample_zobrist start_pos e2e4))))
            (@zobrist_castling sample_zobrist
               (Z.lxor (castlableRooks start_pos)
                       (castlableRooks (@play sample_zobrist start_pos e2e4))))
          = 0).
Proof.
  assert (H1 : pos_ok start_pos = true) by (vm_compute; reflexivity).
  assert (H2 : move_ok start_pos e2e4 = true) by (vm_compute; reflexivity).
  assert (H3 : @key_ok sample_zobrist start_pos = true)
    by (vm_compute; reflexivity).
  split; [auto|].
  exact (@X21_play_key_drift sample_zobrist start_pos e2e4 H1 H2 H3).
Defined.

(** ** The diagram ([print]) *)

Lemma print_nth (P : Position) (r f : Z) :
  0 <= r < 8 -> 0 <= f < 8 ->
  nth (Z.to_nat (16 * (RANK_8 - r) + 2 * f)) (print P) zero
  = print_square P (square_from r f)
  /\ nth (Z.to_nat (16 * (RANK_8 - r) + 15)) (print P) zero = newline.
Proof.
  intros Hr Hf.
  assert (Hr' : r = 0 \/ r = 1 \/ r = 2 \/ r = 3 \/ r = 4 \/ r = 5 \/ r = 6
                \/ r = 7) by lia.
  assert (Hf' : f = 0 \/ f = 1 \/ f = 2 \/ f = 3 \/ f = 4 \/ f = 5 \/ f = 6
                \/ f = 7) by lia.
  clear Hr Hf.
  repeat destruct Hr' as [Hr' | Hr']; subst r;
    repeat destruct Hf' as [Hf' | Hf']; subst f; split; reflexivity.
Qed.

Lemma print_square_man (P : Position) (sq : Z) :
  board_ok P = true ->
  (bb_test (occupied P) sq = true ->
     is_piece_letter (print_square P sq) = true
     /\ letter_man (print_square P sq) = (color_on P sq, piece_on P sq)
     /\ find (PieceLabel (color_on P sq)) (print_square P sq) = piece_on P sq
     /\ piece_ok (find (PieceLabel (opposite (color_on P sq)))
                       (print_square P sq)) = false)
  /\ (bb_test (occupied P) sq = false ->
        print_square P sq = (if sq =? epSquare P then "*"%char else "."%char)
        /\ is_piece_letter (print_square P sq) = false).
Proof.
  intros Hb. pose proof (board_ok_repr P Hb) as Hr. split; intros Hocc.
  - assert (Hv : piece_at P sq = Some (color_on P sq, piece_on P sq))
      by (apply piece_at_some; auto).
    destruct (repr_dom _ P Hr sq _ _ Hv) as (Hc & Hp & _).
    unfold print_square. rewrite Hocc.
    apply color_ok_cases in Hc. apply piece_ok_cases in Hp.
    destruct Hc as [-> | ->];
      destruct Hp as [-> | [-> | [-> | [-> | [-> | ->]]]]];
      vm_compute; auto.
  - unfold print_square. rewrite Hocc.
    destruct (sq =? epSquare P); split; reflexivity.
Qed.

Lemma piece_at_outside (P : Position) (s : Z) :
  board_ok P = true -> ~ 0 <= s < 64 -> piece_at P s = None.
Proof.
  intros Hb Hs. pose proof (board_ok_repr P Hb) as Hr.
  destruct (piece_at P s) as [[c p]|] eqn:E; [|reflexivity].
  destruct (repr_dom _ P Hr s c p E) as (_ & _ & Hsq).
  apply square_ok_range in Hsq. contradiction.
Qed.

Lemma to_int_not_nil (z : Z) :
  Z.to_int z <> Decimal.Pos Decimal.Nil /\ Z.to_int z <> Decimal.Neg Decimal.Nil.
Proof.
  pose proof (DecimalZ.to_of (Z.to_int z)) as H.
  rewrite DecimalZ.of_to in H.
  split; intros E; rewrite E in H; discriminate H.
Qed.

Lemma decimal_inj (a b : Z) :
  NilZero.string_of_int (Z.to_int a) = NilZero.string_of_int (Z.to_int b) ->
  a = b.
Proof.
  intros H. apply DecimalZ.to_int_inj.
  destruct (to_int_not_nil a) as [Ha1 Ha2].
  destruct (to_int_not_nil b) as [Hb1 Hb2].
  pose proof (NilZero.isi _ Ha1 Ha2) as Ia.
  pose proof (NilZero.isi _ Hb1 Hb2) as Ib.
  rewrite H in Ia. congruence.
Qed.





(** ** Counting men *)

Lemma men_upd (v : view) (s0 : Z) (x : option (Z * Z)) :
  0 <= s0 < 64 ->
  (men (upd v s0 x) + occ (v s0) = men v + occ x)%nat.
Proof.
  intros Hs. unfold men.
  set (p := fun s => match v s with Some _ => true | None => false end).
  set (p' := fun s => match upd v s0 x s with Some _ => true | None => false end).
  assert (Hoth : forall s, s <> s0 -> p' s = p s).
  { intros s Hne. unfold p', p. now rewrite upd_other. }
  assert (Hin : In s0 squares) by (now apply in_squares).
  assert (Hp' : p' s0 = match x with Some _ => true | None => false end).
  { unfold p'. now rewrite upd_same. }
  destruct (v s0) as [y|] eqn:Ev; destruct x as [z|]; cbn [occ].
  - rewrite (List.filter_ext_in p' p); [reflexivity|].
    intros s _. destruct (Z.eq_dec s s0) as [-> | Hne]; [|now apply Hoth].
    rewrite Hp'. unfold p. now rewrite Ev.
  - rewrite <- (filter_length_change p p' squares s0 NoDup_squares Hin Hoth);
      [lia | unfold p; now rewrite Ev | exact Hp'].
  - rewrite <- (filter_length_change p' p squares s0 NoDup_squares Hin);
      [lia | intros s Hne; symmetry; now apply Hoth | exact Hp'
       | unfold p; now rewrite Ev].
  - rewrite (List.filter_ext_in p' p); [reflexivity|].
    intros s _. destruct (Z.eq_dec s s0) as [-> | Hne]; [|now apply Hoth].
    rewrite Hp'. unfold p. now rewrite Ev.
Qed.

Lemma men_ext (v w : view) : (forall s, v s = w s) -> men v = men w.
Proof.
  intros H. unfold men. f_equal. apply List.filter_ext. intros s. now rewrite H.
Qed.

Lemma popcount_occupied (P : Position) :
  board_ok P = true -> popcount (occupied P) = men (piece_at P).
Proof.
  intros Hb. pose proof (board_ok_repr P Hb) as Hr. unfold popcount, men.
  f_equal. apply List.filter_ext. intros s.
  exact (repr_occupied (piece_at P) P s Hr).
Qed.

Lemma them_bit_occ (v : view) (P : Position) (us t : Z) :
  repr v P -> color_ok us = true -> color_bit P us t = false ->
  (if color_bit P (opposite us) t then 1%nat else 0%nat) = occ (v t).
Proof.
  intros Hr Hus Hown.
  rewrite (repr_color v P Hr _ t Hus) in Hown.
  rewrite (repr_color v P Hr _ t (opposite_ok _ Hus)).
  unfold view_color in *.
  destruct (v t) as [[c p]|] eqn:E; [|reflexivity].
  destruct (repr_dom v P Hr _ _ _ E) as (Hc & _ & _).
  apply color_ok_cases in Hc, Hus.
  destruct Hc as [-> | ->], Hus as [-> | ->]; try discriminate Hown;
    reflexivity.
Qed.

Section PlayCount.
Context {ZS : Zobrist}.

Lemma play_men (P : Position) (m : Move) :
  pos_ok P = true -> move_ok P m = true ->
  (men (play_view P m)
   + (if color_bit P (opposite (turn P)) (tsq m)
         || (is_pawn_move P m && (tsq m =? get_epsq P)%Z)
      then 1 else 0)
   = men (piece_at P))%nat.
Proof.
  intros Hpos Hmv. apply pos_ok_unfold in Hpos. destruct Hpos as (Hb & Hus & Hcr).
  pose proof (board_ok_repr P Hb) as Hr.
  unfold move_ok in Hmv. rewrite !andb_true_iff in Hmv.
  destruct Hmv as (((((Hf & Ht) & Hne) & Hown) & Hcastle) & Hpawn).
  apply square_ok_range in Hf. apply square_ok_range in Ht.
  apply negb_true_iff, Z.eqb_neq in Hne.
  pose proof (repr_color_at _ P _ _ Hr Hus Hown) as Hvf.
  pose proof (opposite_ok _ Hus) as Hthem.
  pose proof (opposite_neq _ Hus) as Hopp.
  pose proof (them_bit_occ _ P _ (tsq m) Hr Hus) as Hocc.
  unfold play_view, is_pawn_move.
  set (v := piece_at P) in *. set (us := turn P) in *.
  set (piece := piece_on P (fsq m)) in *.
  pose proof (men_upd v (fsq m) None Hf) as M1. rewrite Hvf in M1.
  cbn [occ] in M1.
  set (v1 := upd v (fsq m) None) in *.
  assert (Hv1t : v1 (tsq m) = v (tsq m)) by (unfold v1; now rewrite upd_other).
  assert (Hplain : forall x,
            color_bit P us (tsq m) = false ->
            (men (upd v1 (tsq m) (Some x))
             + (if color_bit P (opposite us) (tsq m) then 1 else 0)
             = men v)%nat).
  { intros x Hnown. pose proof (men_upd v1 (tsq m) (Some x) Ht) as M2.
    rewrite Hv1t in M2. cbn [occ] in M2. rewrite (Hocc Hnown). lia. }
  destruct (Z.eqb_spec piece PAWN) as [Hp | Hp]; cbn [andb].
  - assert (Hnown : color_bit P us (tsq m) = false).
    { destruct (color_bit P us (tsq m)) eqn:E; [|reflexivity].
      rewrite Hp in Hcastle. discriminate Hcastle. }
    destruct (Z.eqb_spec (tsq m) (get_epsq P)) as [Hep | Hep].
    + rewrite orb_true_r.
      apply andb_true_iff in Hpawn. destruct Hpawn as [Hemp Hbehind].
      apply negb_true_iff in Hemp.
      pose proof (repr_unoccupied v P _ Hr Hemp) as Hvt.
      apply (repr_get v P (opposite us) PAWN _ Hr Hthem eq_refl) in Hbehind.
      pose proof (push_inc_cases _ Hus) as Hpush. fold us in Hpush.
      destruct (repr_dom _ P Hr _ _ _ Hbehind) as (_ & _ & Hcs).
      apply square_ok_range in Hcs.
      pose proof (men_upd v1 (tsq m) (Some (us, PAWN)) Ht) as M2.
      rewrite Hv1t, Hvt in M2. cbn [occ] in M2.
      pose proof (men_upd (upd v1 (tsq m) (Some (us, PAWN)))
                    (tsq m - push_inc us) None Hcs) as M3.
      rewrite upd_other in M3 by lia.
      assert (Hv1c : v1 (tsq m - push_inc us) = Some (opposite us, PAWN)).
      { unfold v1. rewrite upd_other; [exact Hbehind|].
        intros E. rewrite E, Hvf in Hbehind. congruence. }
      rewrite Hv1c in M3. cbn [occ] in M3. lia.
    + rewrite orb_false_r.
      destruct ((rank_of (tsq m) =? RANK_8) || (rank_of (tsq m) =? RANK_1));
        now apply Hplain.
  - fold (color_bit P us (tsq m)). rewrite orb_false_r.
    destruct (color_bit P us (tsq m)) eqn:Hown2.
    + rewrite !andb_true_iff in Hcastle.
      destruct Hcastle as (((Hk & Hrook) & Hkv) & Hrv).
      rewrite Hk. cbn [andb].
      destruct (castle_squares m Hf) as (Hks & Hrs & Hkr).
      apply square_ok_range in Hks, Hrs.
      pose proof (repr_color_at _ P _ _ Hr Hus Hown2) as Hvt.
      assert (Hnt : color_bit P (opposite us) (tsq m) = false).
      { rewrite (repr_color _ P Hr _ _ Hthem). unfold view_color.
        fold v. rewrite Hvt. apply Z.eqb_neq. congruence. }
      rewrite Hnt.
      pose proof (men_upd v1 (tsq m) None Ht) as M2.
      rewrite Hv1t, Hvt in M2. cbn [occ] in M2.
      set (v2 := upd v1 (tsq m) None) in *.
      assert (Hvac : forall s, vacant_for_castling P m s = true -> v2 s = None).
      { intros s Hs. unfold vacant_for_castling in Hs.
        rewrite !orb_true_iff in Hs. unfold v2, v1, upd.
        destruct (Z.eqb_spec s (tsq m)); [reflexivity|].
        destruct (Z.eqb_spec s (fsq m)); [reflexivity|].
        destruct Hs as [[Hs | Hs] | Hs]; [discriminate Hs | discriminate Hs |].
        apply negb_true_iff in Hs. exact (repr_unoccupied v P _ Hr Hs). }
      pose proof (men_upd v2 (castle_ksq m) (Some (us, KING)) Hks) as M3.
      rewrite (Hvac _ Hkv) in M3. cbn [occ] in M3.
      pose proof (men_upd (upd v2 (castle_ksq m) (Some (us, KING)))
                    (castle_rsq m) (Some (us, ROOK)) Hrs) as M4.
      rewrite upd_other, (Hvac _ Hrv) in M4 by congruence.
      cbn [occ] in M4. lia.
    + rewrite andb_false_r. now apply Hplain.
Qed.


End PlayCount.


(** ** The key after [set_pos] *)

Section SetPosKey.
Context {ZS : Zobrist}.

(** X25.  [set_pos] on a well-formed description leaves a consistent
    position whose key passes [key_ok]: the stored key is the exclusive or
    of the keys of the men placed, with the turn key when black is to move.
    The castling rights and the en-passant square of the description do not
    enter the key. *)
Theorem X25_set_pos_key (fen : string) :
  fen_ok fen = true ->
  pos_ok (set_pos fen) = true
  /\ key_ok (set_pos fen) = true
  /\ key (set_pos fen)
     = Z.lxor (xor_list (map (man_key (set_pos fen)) squares))
              (if turn (set_pos fen) =? BLACK then zobrist_turn else 0).
Proof.
  intros Hok. destruct (set_pos_ok fen Hok) as [Hpos Hres].
  assert (Hkey : key_ok (set_pos fen) = true) by (now apply key_ok_residual).
  split; [exact Hpos|]. split; [exact Hkey|].
  apply pos_ok_unfold in Hpos. destruct Hpos as (Hb & _ & _).
  unfold key_ok in Hkey. apply Z.eqb_eq in Hkey. rewrite <- Hkey.
  rewrite key_scratch_eq. now rewrite key_board_men.
Qed.

End SetPosKey.

Lemma X25_set_pos_key_witness :
  fen_ok ep_fen = true
  /\ pos_ok (@set_pos sample_zobrist ep_fen) = true
  /\ @key_ok sample_zobrist (@set_pos sample_zobrist ep_fen) = true
  /\ key (@set_pos sample_zobrist ep_fen)
     = Z.lxor
         (xor_list (map (@man_key sample_zobrist (@set_pos sample_zobrist ep_fen))
                        squares))
         (if turn (@set_pos sample_zobrist ep_fen) =? BLACK
          then @zobrist_turn sample_zobrist else 0).
Proof.
  assert (H : fen_ok ep_fen = true) by (vm_compute; reflexivity).
  split; [exact H|].
  exact (@X25_set_pos_key sample_zobrist ep_fen H).
Defined.
